(** * Verification of the Monday.com BI agent back end

    A shallow embedding of the data-cleaning layer ([data_cleaner.py]), the
    aggregation tools ([agent/tools.py]), the GraphQL client
    ([monday_client.py]), the tool dispatcher ([agent/graph.py]) and the
    conversation store and health report of [main.py], followed by the
    properties proved about them.

    Modelling conventions.
    - A Python [str] is a [string] whose characters are read as code points
      below 256 (ASCII and Latin-1); the character classes below are
      Python's restricted to that range.
    - A Python [float] is a [pyfloat]: a rational, an infinity or a NaN.
      The percentages, the caveat thresholds and the durations are
      rounded to binary64 at each operation, as the code computes them
      ([to_binary64]); the values
      parsed from a record and their sums are kept exact, and overflow to
      infinity when parsing a literal is modelled.
    - A record (a [dict] with column titles as keys) is a [gmap string value].
    - An f-string with a float in one of its holes is kept as a constructor
      carrying the values of the holes. *)

From Stdlib Require Import ZArith QArith Qcanon Qround Qpower Qabs Lia Lqa Ascii String.
From stdpp Require Import base strings list gmap.

Open Scope string_scope.
Open Scope nat_scope.
Open Scope list_scope.

(** ** Python strings *)

Module PyStr.

Definition code (c : ascii) : N := N_of_ascii c.

Definition in_range (lo hi : N) (c : ascii) : bool :=
  ((lo <=? code c) && (code c <=? hi))%N.

(** [str.isspace] on one character: code points 9-13, 28-32, 0x85, 0xA0. *)
Definition is_space (c : ascii) : bool :=
  in_range 9 13 c || in_range 28 32 c || in_range 133 133 c
  || in_range 160 160 c.

(** [str.isalpha] on one character: the letters of ASCII and Latin-1. *)
Definition is_alpha (c : ascii) : bool :=
  in_range 65 90 c || in_range 97 122 c || in_range 170 170 c
  || in_range 181 181 c || in_range 186 186 c || in_range 192 214 c
  || in_range 216 246 c || in_range 248 255 c.

(** A decimal digit; below 256 these are ['0'] to ['9'] only. *)
Definition is_digit (c : ascii) : bool := in_range 48 57 c.

Definition digit_val (c : ascii) : Z := Z.of_N (code c) - 48.

(** ASCII lower-casing, used for case-insensitive literals. *)
Definition lower (c : ascii) : ascii :=
  if in_range 65 90 c then ascii_of_N (code c + 32) else c.

Fixpoint lstrip (s : string) : string :=
  match s with
  | String c s' => if is_space c then lstrip s' else s
  | EmptyString => EmptyString
  end.

Fixpoint rstrip (s : string) : string :=
  match s with
  | EmptyString => EmptyString
  | String c s' =>
      match rstrip s' with
      | EmptyString => if is_space c then EmptyString else String c EmptyString
      | r => String c r
      end
  end.

(** [s.strip()] *)
Definition strip (s : string) : string := rstrip (lstrip s).

(** [any(c.isalpha() for c in s)] *)
Fixpoint any_alpha (s : string) : bool :=
  match s with
  | EmptyString => false
  | String c s' => is_alpha c || any_alpha s'
  end.

(** [s.startswith(p)] *)
Fixpoint startswith (p s : string) : bool :=
  match p, s with
  | EmptyString, _ => true
  | String a p', String b s' => if Ascii.eqb a b then startswith p' s' else false
  | String _ _, EmptyString => false
  end.

(** [s.replace(c, "")] for a one-character [c]. *)
Fixpoint remove_char (c : ascii) (s : string) : string :=
  match s with
  | EmptyString => EmptyString
  | String a s' => if Ascii.eqb a c then remove_char c s' else String a (remove_char c s')
  end.

(** Keep the characters satisfying [p]. *)
Fixpoint keep (p : ascii -> bool) (s : string) : string :=
  match s with
  | EmptyString => EmptyString
  | String a s' => if p a then String a (keep p s') else keep p s'
  end.

(** [p in s]: [p] occurs in [s] as a substring. *)
Fixpoint contains (p s : string) : bool :=
  match s with
  | EmptyString => startswith p s
  | String _ s' => startswith p s || contains p s'
  end.

(** [a < b] on strings: the first differing code point decides, and a
    proper prefix comes first. *)
Fixpoint ltb (a b : string) : bool :=
  match a, b with
  | _, EmptyString => false
  | EmptyString, String _ _ => true
  | String x a', String y b' =>
      if (code x <? code y)%N then true
      else if (code y <? code x)%N then false
      else ltb a' b'
  end.

End PyStr.

(** ** Python numbers and values *)

Module PyVal.

Inductive pyfloat : Type :=
| FFin (q : Qc)
| FInf (negative : bool)
| FNaN.

(** The scalar values a record holds: [None], a [str], a number. *)
Inductive value : Type :=
| VNone
| VStr (s : string)
| VNum (x : pyfloat).

#[global] Instance pyfloat_eq_dec : EqDecision pyfloat.
Proof. solve_decision. Defined.

#[global] Instance value_eq_dec : EqDecision value.
Proof. solve_decision. Defined.

#[global] Instance pyfloat_countable : Countable pyfloat.
Proof.
  refine (inj_countable'
            (fun x => match x with
                      | FFin q => inl q
                      | FInf b => inr (inl b)
                      | FNaN => inr (inr ())
                      end)
            (fun s => match s with
                      | inl q => FFin q
                      | inr (inl b) => FInf b
                      | inr (inr _) => FNaN
                      end) _).
  by intros [].
Defined.

#[global] Instance value_countable : Countable value.
Proof.
  refine (inj_countable'
            (fun v => match v with
                      | VNone => inl ()
                      | VStr s => inr (inl s)
                      | VNum x => inr (inr x)
                      end)
            (fun s => match s with
                      | inl _ => VNone
                      | inr (inl s) => VStr s
                      | inr (inr x) => VNum x
                      end) _).
  by intros [].
Defined.

Definition is_finite (x : pyfloat) : bool :=
  match x with FFin _ => true | _ => false end.

(** [x + y] on floats. *)
Definition fadd (x y : pyfloat) : pyfloat :=
  match x, y with
  | FNaN, _ | _, FNaN => FNaN
  | FInf a, FInf b => if Bool.eqb a b then FInf a else FNaN
  | FInf a, FFin _ | FFin _, FInf a => FInf a
  | FFin a, FFin b => FFin (a + b)
  end.

(** [x >= c] for a finite constant [c]. *)
Definition fge (x : pyfloat) (c : Qc) : bool :=
  match x with
  | FFin q => bool_decide (c <= q)%Qc
  | FInf negative => negb negative
  | FNaN => false
  end.

(** [x / c] for a finite non-zero constant [c > 0]. *)
Definition fdiv (x : pyfloat) (c : Qc) : pyfloat :=
  match x with
  | FFin q => FFin (q / c)
  | other => other
  end.

Definition fzero : pyfloat := FFin 0.

(** Python truthiness: [None], [""] and zero are falsy; NaN and the
    infinities are truthy. *)
Definition truthy (v : value) : bool :=
  match v with
  | VNone => false
  | VStr s => negb (String.eqb s "")
  | VNum (FFin q) => negb (bool_decide (q = 0%Qc))
  | VNum _ => true
  end.

Definition is_none (v : value) : bool :=
  match v with VNone => true | _ => false end.

(** [a or b] *)
Definition py_or (a b : value) : value := if truthy a then a else b.

(** [a == b] for records' scalars.  Structural equality is Python's
    equality here except on NaN, which Python treats as unequal to
    itself. *)
Definition py_eqb (a b : value) : bool := bool_decide (a = b).

End PyVal.

Export PyVal.

(** ** Rounding and [float(str)] *)

Module PyNum.

(** [round(x)]: to the nearest integer, ties to the even one. *)
Definition round_half_even (q : Q) : Z :=
  let f := Qfloor q in
  match Qcompare (q - inject_Z f) (1 # 2) with
  | Lt => f
  | Gt => (f + 1)%Z
  | Eq => if Z.even f then f else (f + 1)%Z
  end.

(** [floor(log2 q)] for a positive [q]: the difference of the bit
    lengths of numerator and denominator, or one less. *)
Definition ilog2 (q : Q) : Z :=
  let e := (Z.log2 (Qnum q) - Z.log2 (Zpos (Qden q)))%Z in
  if Qle_bool (2 ^ e) q then e else (e - 1)%Z.

(** The exponent of the last place of the binary64 numbers around [q]:
    53 significant bits, and no place below [2^-1074]. *)
Definition ulp_exponent (q : Q) : Z := Z.max (ilog2 (Qabs q) - 52) (-1074).

(** The binary64 number nearest to [q], ties to the even significand:
    what a float operation whose exact result is [q] returns.  Overflow
    to infinity is left out; the values rounded here are ratios of
    counts, percentages and differences of clock readings. *)
Definition to_binary64 (q : Q) : Q :=
  if Qeq_bool q 0 then 0%Q
  else let u := ulp_exponent q in
       (inject_Z (round_half_even (q / 2 ^ u)) * 2 ^ u)%Q.

(** [round(x, 1)]: the decimal with one digit after the point nearest to
    the exact value of the float [x], ties to the even digit.  The float
    returned is the binary64 number nearest to that decimal, which
    prints as the decimal; the decimal stands for it. *)
Definition round1 (q : Qc) : Qc :=
  Q2Qc (inject_Z (round_half_even (q * 10)) / 10).

(** [round(a / b * 100, 1)] for two counts: the quotient and the product
    are rounded to binary64 before [round] sees them. *)
Definition pct (a b : nat) : Qc :=
  round1 (Q2Qc (to_binary64
                  (to_binary64 (inject_Z (Z.of_nat a) / inject_Z (Z.of_nat b))
                   * 100))).

(** Longest prefix of characters satisfying [p], and the rest. *)
Fixpoint span (p : ascii -> bool) (s : string) : string * string :=
  match s with
  | EmptyString => (EmptyString, EmptyString)
  | String c s' =>
      if p c then let '(a, b) := span p s' in (String c a, b)
      else (EmptyString, s)
  end.

Fixpoint digits_val (acc : Z) (s : string) : Z :=
  match s with
  | EmptyString => acc
  | String c s' => digits_val (acc * 10 + PyStr.digit_val c) s'
  end.

(** Underscores are accepted between two digits only, and dropped.
    [prev] is the previous character. *)
Fixpoint drop_underscores (prev : ascii) (s : string) : option string :=
  match s with
  | EmptyString =>
      if Ascii.eqb prev "_" then None else Some EmptyString
  | String c s' =>
      if Ascii.eqb c "_" then
        if PyStr.is_digit prev then drop_underscores c s' else None
      else if Ascii.eqb prev "_" && negb (PyStr.is_digit c) then None
      else String c <$> drop_underscores c s'
  end.

Definition lower_str (s : string) : string :=
  string_of_list_ascii (map PyStr.lower (list_ascii_of_string s)).

(** An optional sign: [(negative, rest)]. *)
Definition take_sign (s : string) : bool * string :=
  match s with
  | String "-" s' => (true, s')
  | String "+" s' => (false, s')
  | _ => (false, s)
  end.

(** Magnitudes from here on round to infinity in binary64. *)
Definition overflow_threshold : Q := inject_Z (2 ^ 1024 - 2 ^ 970).

(** [digits [. digits] [(e|E) [sign] digits]] with at least one digit in
    the mantissa, consuming all of [s]; the exact value it denotes. *)
Definition parse_decimal (s : string) : option Q :=
  let '(ip, r1) := span PyStr.is_digit s in
  let '(fp, r2) :=
    match r1 with
    | String "." r => span PyStr.is_digit r
    | _ => (EmptyString, r1)
    end in
  if String.eqb (ip +:+ fp) "" then None else
  let mant := digits_val 0 (ip +:+ fp) in
  let scale := (- Z.of_nat (String.length fp))%Z in
  match r2 with
  | EmptyString => Some (inject_Z mant * Qpower 10 scale)%Q
  | String e r3 =>
      if Ascii.eqb (PyStr.lower e) "e" then
        let '(eneg, r4) := take_sign r3 in
        let '(ed, r5) := span PyStr.is_digit r4 in
        if String.eqb ed "" || negb (String.eqb r5 "") then None else
        let ev := digits_val 0 ed in
        Some (inject_Z mant
              * Qpower 10 (scale + (if eneg then - ev else ev)))%Q
      else None
  end.

(** [float(s)] for a string [s]; [None] stands for [ValueError]. *)
Definition py_float (s : string) : option pyfloat :=
  s1 ← drop_underscores "000" s;
  let '(neg, body) := take_sign (PyStr.strip s1) in
  let w := lower_str body in
  if String.eqb w "inf" || String.eqb w "infinity" then Some (FInf neg)
  else if String.eqb w "nan" then Some FNaN
  else
    q ← parse_decimal body;
    if Qle_bool overflow_threshold q then Some (FInf neg)
    else Some (FFin (Q2Qc (if neg then - q else q))).

End PyNum.

(** ** [datetime.strptime] and [strftime] for the formats in use *)

Module StrpTime.
Import PyStr.

(** The pieces of a compiled format: a directive, a literal character
    (matched ignoring case) or a run of white space. *)
Inductive item : Type :=
| IYear | IMonth | IDay | IHour | IMinute | ISecond | IFraction
| ILit (c : ascii)
| ISpaces.

Definition directive (d : ascii) : option item :=
  if Ascii.eqb d "Y" then Some IYear
  else if Ascii.eqb d "m" then Some IMonth
  else if Ascii.eqb d "d" then Some IDay
  else if Ascii.eqb d "H" then Some IHour
  else if Ascii.eqb d "M" then Some IMinute
  else if Ascii.eqb d "S" then Some ISecond
  else if Ascii.eqb d "f" then Some IFraction
  else None.

Fixpoint compile_items (fmt : string) : option (list item) :=
  match fmt with
  | EmptyString => Some []
  | String c rest =>
      if Ascii.eqb c "%" then
        match rest with
        | String d rest' =>
            it ← directive d; its ← compile_items rest'; Some (it :: its)
        | EmptyString => None
        end
      else
        its ← compile_items rest;
        Some ((if is_space c then ISpaces else ILit c) :: its)
  end.

(** A run of white space in the format is one [\s+]. *)
Fixpoint merge_spaces (its : list item) : list item :=
  match its with
  | ISpaces :: ((ISpaces :: _) as tl) => merge_spaces tl
  | it :: tl => it :: merge_spaces tl
  | [] => []
  end.

Definition compile (fmt : string) : option (list item) :=
  merge_spaces <$> compile_items fmt.

Record fields : Type := mk_fields {
  year : Z; month : Z; day : Z; hour : Z; minute : Z; second : Z;
  fraction : Z
}.

Definition initial : fields := mk_fields 1900 1 1 0 0 0 0.

Definition set_field (it : item) (v : Z) (f : fields) : fields :=
  match it with
  | IYear => mk_fields v (month f) (day f) (hour f) (minute f) (second f) (fraction f)
  | IMonth => mk_fields (year f) v (day f) (hour f) (minute f) (second f) (fraction f)
  | IDay => mk_fields (year f) (month f) v (hour f) (minute f) (second f) (fraction f)
  | IHour => mk_fields (year f) (month f) (day f) v (minute f) (second f) (fraction f)
  | IMinute => mk_fields (year f) (month f) (day f) (hour f) v (second f) (fraction f)
  | ISecond => mk_fields (year f) (month f) (day f) (hour f) (minute f) v (fraction f)
  | IFraction => mk_fields (year f) (month f) (day f) (hour f) (minute f) (second f) v
  | _ => f
  end.

(** One regex alternative made of character classes: the classes must
    match the first characters of [s]; gives the matched text's digits
    as a number and the rest. *)
Fixpoint classes (cs : list (ascii -> bool)) (acc : Z) (s : string)
  : list (Z * string) :=
  match cs with
  | [] => [(acc, s)]
  | p :: cs' =>
      match s with
      | String c s' =>
          if p c then
            classes cs' (if is_digit c then acc * 10 + digit_val c else acc)%Z s'
          else []
      | EmptyString => []
      end
  end.

Definition alt (cs : list (ascii -> bool)) (s : string) : list (Z * string) :=
  classes cs 0 s.

Definition ch (c : ascii) : ascii -> bool := Ascii.eqb c.
Definition rng (lo hi : N) : ascii -> bool := in_range lo hi.
Definition d09 := is_digit.
Definition d19 := rng 49 57.

(** [[0-9]{1,6}], longest first. *)
Definition fraction_alts (s : string) : list (Z * string) :=
  alt [d09; d09; d09; d09; d09; d09] s ++ alt [d09; d09; d09; d09; d09] s
  ++ alt [d09; d09; d09; d09] s ++ alt [d09; d09; d09] s
  ++ alt [d09; d09] s ++ alt [d09] s.

(** [\s+]: every non-empty prefix of the leading white space, longest
    first. *)
Fixpoint spaces_alts (s : string) : list string :=
  match s with
  | String c s' => if is_space c then spaces_alts s' ++ [s'] else []
  | EmptyString => []
  end.

(** The alternatives of one item at the head of [s], in the order the
    regular expression tries them. *)
Definition alts (it : item) (s : string) : list (Z * string) :=
  match it with
  | IYear => alt [d09; d09; d09; d09] s
  | IMonth =>
      alt [ch "1"; rng 48 50] s ++ alt [ch "0"; d19] s ++ alt [d19] s
  | IDay =>
      alt [ch "3"; rng 48 49] s ++ alt [rng 49 50; d09] s
      ++ alt [ch "0"; d19] s ++ alt [d19] s ++ alt [ch " "; d19] s
  | IHour =>
      alt [ch "2"; rng 48 51] s ++ alt [rng 48 49; d09] s ++ alt [d09] s
  | IMinute => alt [rng 48 53; d09] s ++ alt [d09] s
  | ISecond =>
      alt [ch "6"; rng 48 49] s ++ alt [rng 48 53; d09] s ++ alt [d09] s
  | IFraction => fraction_alts s
  | ILit c => alt [fun a => Ascii.eqb (lower a) (lower c)] s
  | ISpaces => (fun r => (0%Z, r)) <$> spaces_alts s
  end.

Fixpoint first_some {A B} (f : A -> option B) (l : list A) : option B :=
  match l with
  | [] => None
  | x :: l' => match f x with Some y => Some y | None => first_some f l' end
  end.

(** [format_regex.match(s)]: the first match in backtracking order; the
    fields it binds and the text left over. *)
Fixpoint rmatch (its : list item) (s : string) (acc : fields)
  : option (fields * string) :=
  match its with
  | [] => Some (acc, s)
  | it :: its' =>
      first_some (fun a : Z * string => rmatch its' a.2 (set_field it a.1 acc))
                 (alts it s)
  end.

Definition is_leap (y : Z) : bool :=
  ((y mod 4 =? 0) && (negb (y mod 100 =? 0) || (y mod 400 =? 0)))%Z.

Definition days_in_month (y m : Z) : Z :=
  if (m =? 2)%Z then (if is_leap y then 29 else 28)%Z
  else if ((m =? 4) || (m =? 6) || (m =? 9) || (m =? 11))%Z then 30%Z
  else 31%Z.

(** What [datetime(...)] accepts. *)
Definition valid (f : fields) : bool :=
  ((1 <=? year f) && (year f <=? 9999) && (1 <=? month f) && (month f <=? 12)
   && (1 <=? day f) && (day f <=? days_in_month (year f) (month f))
   && (0 <=? hour f) && (hour f <=? 23) && (0 <=? minute f)
   && (minute f <=? 59) && (0 <=? second f) && (second f <=? 59))%Z.

(** [datetime.strptime(s, fmt)]; [None] stands for [ValueError]: no
    match, unconverted data left over, or an impossible date or time. *)
Definition strptime (s fmt : string) : option fields :=
  its ← compile fmt;
  match rmatch its s initial with
  | Some (f, EmptyString) => if valid f then Some f else None
  | _ => None
  end.

Definition digit_char (d : Z) : ascii := ascii_of_N (Z.to_N (48 + d mod 10)).

Definition pad2 (n : Z) : string :=
  String (digit_char (n / 10)) (String (digit_char n) EmptyString).

Definition pad4 (n : Z) : string := pad2 (n / 100) +:+ pad2 (n mod 100).

Definition digit1 (n : Z) : string := String (digit_char n) EmptyString.

(** [%Y] as the C library's [strftime] writes it: the year in decimal,
    without leading zeros.  The year of a [datetime] runs from 1 to
    9999. *)
Definition year_text (y : Z) : string :=
  if (y <? 10)%Z then digit1 y
  else if (y <? 100)%Z then pad2 y
  else if (y <? 1000)%Z then digit1 (y / 100) +:+ pad2 (y mod 100)
  else pad4 y.

(** [dt.strftime("%Y-%m-%d")]: the month and the day in two digits. *)
Definition strftime_iso (f : fields) : string :=
  year_text (year f) +:+ "-" +:+ pad2 (month f) +:+ "-" +:+ pad2 (day f).

End StrpTime.

(** ** Records *)

Abbreviation record := (gmap string value).

(** [r.get(k)]: [None] when the key is absent. *)
Definition get (r : record) (k : string) : value := default VNone (r !! k).

(** ** [data_cleaner.py] *)

Module DataCleaner.
Import PyNum.

(** The data-quality warnings.  Each constructor is one of the message
    templates of [_generate_deals_caveats] and [_generate_wo_caveats],
    with the values of its holes:
    - [NoDealRecords]: "No deal records returned from the query."
    - [DealsNoValue n t p v]: "n/t deals (p%) have no deal value.
      Monetary totals are based on v valued deals only."
    - [DealsNoCloseDate n t p]: "n/t deals (p%) have no actual close date."
    - [DealsNoProbability n t p]: "n/t deals (p%) have no closure
      probability assigned."
    - [DealsNoTentativeDate n t p]: "n/t deals (p%) have no tentative
      close date."
    - [NoWorkOrderRecords]: "No work order records returned from the query."
    - [WoNoCollection n t p]: "n/t work orders (p%) have no collection
      data recorded."
    - [WoNoBilledValue n t p]: "n/t work orders (p%) have no billed value
      recorded."
    - [WoNoBillingStatus n t p]: "n/t work orders (p%) have no billing
      status." *)
Inductive caveat : Type :=
| NoDealRecords
| DealsNoValue (nulls total : nat) (percent : Qc) (valued : nat)
| DealsNoCloseDate (nulls total : nat) (percent : Qc)
| DealsNoProbability (nulls total : nat) (percent : Qc)
| DealsNoTentativeDate (nulls total : nat) (percent : Qc)
| NoWorkOrderRecords
| WoNoCollection (nulls total : nat) (percent : Qc)
| WoNoBilledValue (nulls total : nat) (percent : Qc)
| WoNoBillingStatus (nulls total : nat) (percent : Qc).

(** The entries of [cleaning_log]:
    "Removed n duplicate header row(s) from data" and
    "Fixed n typo(s): 'BIlled' -> 'Billed'". *)
Inductive log_entry : Type :=
| RemovedHeaderRows (n : nat)
| FixedTypos (n : nat).

(** The [checks] table of [_is_header_row]: (field, expected header). *)
Definition header_checks : list (string * string) :=
  [ ("Deal Status", "Deal Status");
    ("Deal Stage", "Deal Stage");
    ("Sector/service", "Sector/service");
    ("Owner code", "Owner code") ].

(** [val and str(val).strip() == expected_header].  [str] of a number
    is made of digits, signs, ['.'], ['e'] and the words [inf] and [nan],
    so it never equals a column title. *)
Definition header_match (r : record) (chk : string * string) : bool :=
  match get r chk.1 with
  | VStr s => truthy (VStr s) && String.eqb (PyStr.strip s) chk.2
  | _ => false
  end.

Definition suspicious_matches (r : record) : nat :=
  length (List.filter (header_match r) header_checks).

Definition _is_header_row (r : record) : bool :=
  2 <=? suspicious_matches r.

(** [_parse_number]: [None] stays [None]; a string loses its commas and
    surrounding white space and goes through [float]; a number goes
    through [float(str(x))], which gives the number back. *)
Definition _parse_number (v : value) : option pyfloat :=
  match v with
  | VNone => None
  | VStr s => py_float (PyStr.strip (PyStr.remove_char "," s))
  | VNum x => Some x
  end.

Definition formats : list string :=
  [ "%Y-%m-%d";
    "%Y-%m-%dT%H:%M:%S";
    "%Y-%m-%dT%H:%M:%S.%f";
    "%Y-%m-%d %H:%M:%S";
    "%d-%m-%Y";
    "%d/%m/%Y";
    "%m/%d/%Y" ].

(** The loop over [formats]: the first format that parses wins. *)
Fixpoint try_formats (fmts : list string) (s : string) : option string :=
  match fmts with
  | [] => None
  | fmt :: fmts' =>
      match StrpTime.strptime s fmt with
      | Some dt => Some (StrpTime.strftime_iso dt)
      | None => try_formats fmts' s
      end
  end.

Definition _parse_date (value : string) : option string :=
  if String.eqb value "" then None
  else if PyStr.any_alpha value && negb (PyStr.startswith "20" value) then None
  else try_formats formats (PyStr.strip value).

(** [re.sub(r"[^\d.]", "", value)] then [float], [None] on failure. *)
Definition _parse_quantity (value : string) : option pyfloat :=
  if String.eqb value "" then None
  else
    let numeric := PyStr.keep (fun c => PyStr.is_digit c || Ascii.eqb c ".") value in
    if String.eqb numeric "" then None else py_float numeric.

Definition float_value (o : option pyfloat) : value :=
  match o with Some x => VNum x | None => VNone end.

Definition str_value (o : option string) : value :=
  match o with Some s => VStr s | None => VNone end.

(** [if val: record[field] = self._parse_number(val)] *)
Definition number_step (r : record) (field : string) : record :=
  let val := get r field in
  if truthy val then <[field := float_value (_parse_number val)]> r else r.

(** [if val and isinstance(val, str): record[field] = parse(val)] *)
Definition string_step (parse : string -> value) (r : record) (field : string)
  : record :=
  match get r field with
  | VStr s => if truthy (VStr s) then <[field := parse s]> r else r
  | _ => r
  end.

Definition date_step := string_step (fun s => str_value (_parse_date s)).
Definition strip_step := string_step (fun s => VStr (PyStr.strip s)).
Definition quantity_step := string_step (fun s => float_value (_parse_quantity s)).

Definition date_fields : list string :=
  [ "Close Date (A)"; "Tentative Close Date"; "Created Date" ].

(** The body of the loop of [clean_deals] for a row that is kept. *)
Definition clean_deal_record (r : record) : record :=
  let r := number_step r "Masked Deal value" in
  let r := foldl date_step r date_fields in
  let r := strip_step r "Sector/service" in
  let r := strip_step r "Deal Stage" in
  let r := strip_step r "Deal Status" in
  strip_step r "Owner code".

(** [n > total * frac] for a float literal [frac]: the count [total]
    becomes a float, the product is rounded, and the count [n] is
    compared with it exactly. *)
Definition gtb_frac (n total : nat) (frac : Q) : bool :=
  match (inject_Z (Z.of_nat n)
         ?= to_binary64 (to_binary64 (inject_Z (Z.of_nat total)) * to_binary64 frac))%Q with
  | Gt => true
  | _ => false
  end.

Definition count_if (p : record -> bool) (rs : list record) : nat :=
  length (List.filter p rs).

Definition field_is_none (f : string) (r : record) : bool := is_none (get r f).
Definition field_is_falsy (f : string) (r : record) : bool := negb (truthy (get r f)).

Definition when {A} (b : bool) (x : A) : list A := if b then [x] else [].

(** [null > total * 0.5] and [null > total * 0.1] compare a count with a
    binary64 product. *)
Definition _generate_deals_caveats (records : list record) : list caveat :=
  match records with
  | [] => [NoDealRecords]
  | _ =>
      let total := length records in
      let null_values := count_if (field_is_none "Masked Deal value") records in
      let null_close := count_if (field_is_falsy "Close Date (A)") records in
      let null_prob := count_if (field_is_falsy "Closure Probability") records in
      let null_tentative := count_if (field_is_falsy "Tentative Close Date") records in
      when (0 <? null_values)
           (DealsNoValue null_values total (pct null_values total)
                         (total - null_values))
      ++ when (gtb_frac null_close total (1 # 2))
              (DealsNoCloseDate null_close total (pct null_close total))
      ++ when (gtb_frac null_prob total (1 # 2))
              (DealsNoProbability null_prob total (pct null_prob total))
      ++ when (gtb_frac null_tentative total (1 # 10))
              (DealsNoTentativeDate null_tentative total (pct null_tentative total))
  end.

Definition collected_field := "Collected Amount in Rupees (Incl of GST.) (Masked)".
Definition billed_field := "Billed Value in Rupees (Excl of GST.) (Masked)".
Definition amount_field := "Amount in Rupees (Excl of GST) (Masked)".
Definition receivable_field := "Amount Receivable (Masked)".

Definition _generate_wo_caveats (records : list record) : list caveat :=
  match records with
  | [] => [NoWorkOrderRecords]
  | _ =>
      let total := length records in
      let null_collected := count_if (field_is_none collected_field) records in
      let null_billed := count_if (field_is_none billed_field) records in
      let null_billing := count_if (field_is_falsy "Billing Status") records in
      when (0 <? null_collected)
           (WoNoCollection null_collected total (pct null_collected total))
      ++ when (0 <? null_billed)
              (WoNoBilledValue null_billed total (pct null_billed total))
      ++ when (gtb_frac null_billing total (1 # 2))
              (WoNoBillingStatus null_billing total (pct null_billing total))
  end.

(** What a cleaning call leaves behind: the list it returns, the caveats
    it returns and [self.cleaning_log]. *)
Record cleaning : Type := mk_cleaning {
  cleaned : list record;
  caveats : list caveat;
  cleaning_log : list log_entry
}.

(** The state of the loop of [clean_deals]. *)
Definition deals_step (st : list record * nat) (r : record) : list record * nat :=
  if _is_header_row r then (st.1, st.2 + 1)
  else (st.1 ++ [clean_deal_record r], st.2).

Definition clean_deals (records : list record) : cleaning :=
  let '(cleaned, header_rows_removed) := foldl deals_step ([], 0) records in
  mk_cleaning cleaned (_generate_deals_caveats cleaned)
              (when (0 <? header_rows_removed)
                    (RemovedHeaderRows header_rows_removed)).

Definition quantity_fields : list string :=
  [ "Quantities as per PO"; "Quantity by Ops"; "Balance in quantity" ].

Definition financial_fields : list string :=
  [ "Amount in Rupees (Excl of GST) (Masked)";
    "Amount in Rupees (Incl of GST) (Masked)";
    "Billed Value in Rupees (Excl of GST.) (Masked)";
    "Billed Value in Rupees (Incl of GST.) (Masked)";
    "Collected Amount in Rupees (Incl of GST.) (Masked)";
    "Amount to be billed in Rupees (Excl of GST.) (Masked)";
    "Amount to be billed in Rupees (Incl of GST.) (Masked)";
    "Amount Receivable (Masked)" ].

Definition is_typo (r : record) : bool :=
  truthy (get r "Billing Status") && py_eqb (get r "Billing Status") (VStr "BIlled").

(** The body of the loop of [clean_workorders]. *)
Definition clean_wo_record (r : record) : record :=
  let r := if is_typo r then <["Billing Status" := VStr "Billed"]> r else r in
  let r := foldl quantity_step r quantity_fields in
  let r := foldl number_step r financial_fields in
  let r := strip_step r "Execution Status" in
  strip_step r "Sector".

Definition wo_step (st : list record * nat) (r : record) : list record * nat :=
  (st.1 ++ [clean_wo_record r], if is_typo r then st.2 + 1 else st.2).

Definition clean_workorders (records : list record) : cleaning :=
  let '(cleaned, typo_fixes) := foldl wo_step ([], 0) records in
  mk_cleaning cleaned (_generate_wo_caveats cleaned)
              (when (0 <? typo_fixes) (FixedTypos typo_fixes)).

End DataCleaner.

(** ** [agent/tools.py] *)

Module Tools.
Import PyNum DataCleaner.

(** The texts of [_format_currency]: "N/A", "Rs x Cr" with [x] shown to
    two decimals, "Rs x L" likewise, and "Rs x" grouped by thousands
    with no decimals. *)
Inductive currency_text : Type :=
| NotAvailable
| Crores (x : pyfloat)
| Lakhs (x : pyfloat)
| Rupees (x : pyfloat).

(** [_format_currency]; [None] stands for the [TypeError] of comparing a
    [str] with a number. *)
Definition _format_currency (v : value) : option currency_text :=
  match v with
  | VNone => Some NotAvailable
  | VStr _ => None
  | VNum x =>
      if fge x (Q2Qc 10000000) then Some (Crores (fdiv x (Q2Qc 10000000)))
      else if fge x (Q2Qc 100000) then Some (Lakhs (fdiv x (Q2Qc 100000)))
      else Some (Rupees x)
  end.

(** The generator [r.get(f) or 0 for r in rs if r.get(f) is not None]. *)
Definition money_items (field : string) (rs : list record) : list value :=
  map (fun r => py_or (get r field) (VNum fzero))
      (List.filter (fun r => negb (is_none (get r field))) rs).

(** [sum(items)], starting from 0; [None] stands for the [TypeError] of
    adding a [str] to a number. *)
Definition py_sum (items : list value) : option pyfloat :=
  foldl (fun acc v =>
           a ← acc;
           match v with
           | VNum x => Some (fadd a x)
           | _ => None
           end)
        (Some fzero) items.

Definition sum_field (field : string) (rs : list record) : option pyfloat :=
  py_sum (money_items field rs).

(** The counting loops:
    [k = r.get(field) or "Unknown"; d[k] = d.get(k, 0) + 1]. *)
Definition group_key (field : string) (r : record) : value :=
  py_or (get r field) (VStr "Unknown").

Definition breakdown (field : string) (rs : list record) : gmap value nat :=
  foldl (fun d r =>
           let k := group_key field r in <[k := default 0 (d !! k) + 1]> d)
        ∅ rs.

(** [round(won / decided * 100, 1) if decided > 0 else None] *)
Definition win_rate (won decided : nat) : option Qc :=
  if 0 <? decided then Some (pct won decided) else None.

(** The text under [IMPORTANT_win_rate]:
    "Won=w, Dead=d, Win Rate = w/n = r%" or
    "No decided deals in this set". *)
Inductive win_rate_text : Type :=
| WinRateLine (won dead decided : nat) (rate : Qc)
| NoDecidedDeals.

(** The win-rate part of the result of [query_deals_board], computed
    from the filtered records. *)
Record deals_win_stats : Type := mk_deals_win_stats {
  total_deals : nat;
  IMPORTANT_win_rate : win_rate_text;
  win_rate_pct : option Qc;
  won_count : nat;
  dead_count : nat;
  status_breakdown : gmap value nat
}.

Definition query_deals_board_stats (filtered : list record) : deals_win_stats :=
  let status_breakdown := breakdown "Deal Status" filtered in
  let won_count := default 0 (status_breakdown !! VStr "Won") in
  let dead_count := default 0 (status_breakdown !! VStr "Dead") in
  let decided := won_count + dead_count in
  let win_rate := win_rate won_count decided in
  mk_deals_win_stats
    (length filtered)
    (match win_rate with
     | Some r => WinRateLine won_count dead_count decided r
     | None => NoDecidedDeals
     end)
    win_rate won_count dead_count status_breakdown.

(** [deals_group_map.get(group_by, group_by)] *)
Definition deals_group_col (group_by : string) : string :=
  if String.eqb group_by "sector" then "Sector/service"
  else if String.eqb group_by "owner" then "Owner code"
  else if String.eqb group_by "stage" then "Deal Stage"
  else if String.eqb group_by "status" then "Deal Status"
  else group_by.

(** The grouping loop of [aggregate_metrics]. *)
Definition group_records (group_col : string) (cleaned : list record)
  : gmap value (list record) :=
  foldl (fun groups r =>
           let key := group_key group_col r in
           <[key := default [] (groups !! key) ++ [r]]> groups)
        ∅ cleaned.

(** [sum(1 for r in v if r.get("Deal Status") == status)] *)
Definition count_status (status : string) (v : list record) : nat :=
  count_if (fun r => py_eqb (get r "Deal Status") (VStr status)) v.

(** One entry of [results["deals"]] for the metric "win_rate".
    [IMPORTANT_calculation] is the text
    "Win Rate for k: won/total_decided = rate%". *)
Record win_rate_entry : Type := mk_win_rate_entry {
  IMPORTANT_calculation : value * nat * nat * option Qc;
  entry_win_rate_pct : option Qc;
  entry_won : nat;
  entry_dead : nat;
  entry_total_decided : nat;
  entry_open : nat;
  entry_on_hold : nat
}.

Definition win_rate_group (k : value) (v : list record) : win_rate_entry :=
  let won := count_status "Won" v in
  let dead := count_status "Dead" v in
  let total_decided := won + dead in
  let rate := win_rate won total_decided in
  mk_win_rate_entry (k, won, total_decided, rate) rate won dead total_decided
                    (count_status "Open" v) (count_status "On Hold" v).

(** The branch [metric == "win_rate"] of [aggregate_metrics] on the
    deals board, from the cleaned records. *)
Definition aggregate_win_rate (group_by : string) (cleaned : list record)
  : gmap value win_rate_entry :=
  map_imap (fun k v => Some (win_rate_group k v))
           (group_records (deals_group_col group_by) cleaned).

(** *** [cross_board_analysis], from the cleaned and filtered records *)

Definition wo_name_field := "Deal name masked".

(** [{r.get(field) for r in rs if r.get(field)}] *)
Definition name_set (field : string) (rs : list record) : gset value :=
  list_to_set (List.filter truthy (map (fun r => get r field) rs)).

Record lifecycle_entry : Type := mk_lifecycle_entry {
  deal_name : value;
  deal_status : value;
  deal_stage : value;
  deal_value : value;
  deal_value_formatted : currency_text;
  sector : value;
  owner : value;
  work_order_count : nat;
  wo_total_amount : pyfloat;
  wo_total_amount_formatted : currency_text;
  wo_total_billed : pyfloat;
  wo_total_billed_formatted : currency_text;
  wo_total_collected : pyfloat;
  wo_total_collected_formatted : currency_text;
  wo_total_receivable : pyfloat;
  wo_total_receivable_formatted : currency_text;
  wo_statuses : list value
}.

(** [next((d for d in cleaned_deals if d.get("name") == name), None)] *)
Definition find_deal (cleaned_deals : list record) (name : value) : option record :=
  List.find (fun d => py_eqb (get d "name") name) cleaned_deals.

(** [[w for w in cleaned_wo if w.get("Deal name masked") == name]] *)
Definition matching_wos (cleaned_wo : list record) (name : value) : list record :=
  List.filter (fun w => py_eqb (get w wo_name_field) name) cleaned_wo.

(** The body of the loop over [common_names].  The outer [None] is a
    [TypeError]; the inner one is the case where nothing is appended. *)
Definition lifecycle_for (cleaned_deals cleaned_wo : list record) (name : value)
  : option (option lifecycle_entry) :=
  let wos := matching_wos cleaned_wo name in
  match find_deal cleaned_deals name with
  | None => Some None
  | Some deal =>
      if bool_decide (deal = ∅) then Some None else
      amount ← sum_field amount_field wos;
      billed ← sum_field billed_field wos;
      collected ← sum_field collected_field wos;
      receivable ← sum_field receivable_field wos;
      value_text ← _format_currency (get deal "Masked Deal value");
      amount_text ← _format_currency (VNum amount);
      billed_text ← _format_currency (VNum billed);
      collected_text ← _format_currency (VNum collected);
      receivable_text ← _format_currency (VNum receivable);
      Some (Some (mk_lifecycle_entry
                    name (get deal "Deal Status") (get deal "Deal Stage")
                    (get deal "Masked Deal value") value_text
                    (get deal "Sector/service") (get deal "Owner code")
                    (length wos) amount amount_text billed billed_text
                    collected collected_text receivable receivable_text
                    (map (fun w => get w "Execution Status") wos)))
  end.

Fixpoint build_lifecycle (cleaned_deals cleaned_wo : list record)
                         (names : list value) : option (list lifecycle_entry) :=
  match names with
  | [] => Some []
  | name :: names' =>
      e ← lifecycle_for cleaned_deals cleaned_wo name;
      rest ← build_lifecycle cleaned_deals cleaned_wo names';
      Some (match e with Some e => e :: rest | None => rest end)
  end.

Record deals_summary_t : Type := mk_deals_summary {
  ds_total_deals : nat;
  ds_status_breakdown : gmap value nat;
  ds_total_pipeline_value : pyfloat
}.

Record wo_summary_t : Type := mk_wo_summary {
  ws_total_work_orders : nat;
  ws_execution_breakdown : gmap value nat;
  ws_total_wo_value : pyfloat;
  ws_total_billed : pyfloat;
  ws_total_collected : pyfloat
}.

Record join_result : Type := mk_join_result {
  common_deal_count : nat;
  deals_only_count : nat;
  wo_only_count : nat;
  deals_summary : deals_summary_t;
  wo_summary : wo_summary_t;
  lifecycle : list lifecycle_entry
}.

(** [cross_board_analysis] after fetching, cleaning and filtering.  The
    set [common_names] is visited in the order of [elements]; Python
    fixes no order for it.  [None] stands for a [TypeError]. *)
Definition cross_board_join (cleaned_deals cleaned_wo : list record)
  : option join_result :=
  let deal_names_in_deals := name_set "name" cleaned_deals in
  let wo_deal_names := name_set wo_name_field cleaned_wo in
  let common_names := deal_names_in_deals ∩ wo_deal_names in
  lifecycle ← build_lifecycle cleaned_deals cleaned_wo (elements common_names);
  pipeline ← sum_field "Masked Deal value" cleaned_deals;
  wo_value ← sum_field amount_field cleaned_wo;
  billed ← sum_field billed_field cleaned_wo;
  collected ← sum_field collected_field cleaned_wo;
  Some (mk_join_result
          (size common_names)
          (size (deal_names_in_deals ∖ wo_deal_names))
          (size (wo_deal_names ∖ deal_names_in_deals))
          (mk_deals_summary (length cleaned_deals)
                            (breakdown "Deal Status" cleaned_deals) pipeline)
          (mk_wo_summary (length cleaned_wo)
                         (breakdown "Execution Status" cleaned_wo)
                         wo_value billed collected)
          lifecycle).

(** *** [_filter_records] and the filters of the query tools *)

(** A value of the [filters] dictionary: a scalar, [None] included, or
    a list. *)
Inductive filter_value : Type :=
| Scalar (v : value)
| OneOf (vs : list value).

(** The test of one comprehension: [r.get(key) == value], or
    [r.get(key) in value] for a list. *)
Definition selects (key : string) (fv : filter_value) (r : record) : bool :=
  match fv with
  | Scalar v => py_eqb (get r key) v
  | OneOf vs => bool_decide (get r key ∈ vs)
  end.

(** The body of the loop over [filters.items()]. *)
Definition filter_step (filtered : list record) (kv : string * filter_value)
  : list record :=
  match kv.2 with
  | Scalar VNone => filtered
  | fv => List.filter (selects kv.1 fv) filtered
  end.

Definition _filter_records (records : list record)
                           (filters : list (string * filter_value))
  : list record :=
  foldl filter_step records filters.

(** [if arg: filters[column] = arg] for an [Optional[str]] argument. *)
Definition arg_filter (column : string) (arg : option string)
  : list (string * filter_value) :=
  match arg with
  | Some s => if String.eqb s "" then [] else [(column, Scalar (VStr s))]
  | None => []
  end.

(** The [filters] dictionary of [query_deals_board]. *)
Definition deals_filters (status sector stage owner closure_probability
                          : option string) : list (string * filter_value) :=
  arg_filter "Deal Status" status ++ arg_filter "Sector/service" sector
  ++ arg_filter "Deal Stage" stage ++ arg_filter "Owner code" owner
  ++ arg_filter "Closure Probability" closure_probability.

(** The [filters] dictionary of [query_workorders_board]. *)
Definition workorders_filters (execution_status sector nature_of_work
                               billing_status wo_status deal_name owner
                               : option string) : list (string * filter_value) :=
  arg_filter "Execution Status" execution_status ++ arg_filter "Sector" sector
  ++ arg_filter "Nature of Work" nature_of_work
  ++ arg_filter "Billing Status" billing_status
  ++ arg_filter "WO Status (billed)" wo_status
  ++ arg_filter "Deal name masked" deal_name
  ++ arg_filter "BD/KAM Personnel code" owner.

(** The truth value of an [Optional[str]] argument. *)
Definition given (arg : option string) : bool :=
  match arg with
  | Some s => negb (String.eqb s "")
  | None => false
  end.

(** The body of the date loop of [query_deals_board]: [Some true] when
    the record is appended, [Some false] when it is skipped, [None] for
    the [TypeError] of comparing a number with a [str]. *)
Definition date_keeps (date_from date_to : option string) (r : record)
  : option bool :=
  let tentative := get r "Tentative Close Date" in
  if negb (truthy tentative) then Some false
  else
    match tentative with
    | VStr t =>
        if given date_from && PyStr.ltb t (default "" date_from) then Some false
        else if given date_to && PyStr.ltb (default "" date_to) t then Some false
        else Some true
    | _ => if given date_from || given date_to then None else Some true
    end.

(** [if date_from or date_to: ...] *)
Definition date_filter (date_from date_to : option string)
                       (filtered : list record) : option (list record) :=
  if given date_from || given date_to then
    foldl (fun (acc : option (list record)) r =>
             date_filtered ← acc;
             appended ← date_keeps date_from date_to r;
             Some (if appended : bool then date_filtered ++ [r] else date_filtered))
          (Some []) filtered
  else Some filtered.

(** The branch [metric == "count"] of [aggregate_metrics]:
    [{k: len(v) for k, v in groups.items()}]. *)
Definition aggregate_count (group_col : string) (cleaned : list record)
  : gmap value nat :=
  length <$> group_records group_col cleaned.

(** The keys of the dictionaries the five tools return, in the order
    of their [return] statements. *)
Definition query_deals_board_keys : list string :=
  [ "total_deals"; "IMPORTANT_win_rate"; "win_rate_pct"; "won_count";
    "dead_count"; "total_value"; "total_value_formatted";
    "valued_deals_count"; "status_breakdown"; "stage_breakdown";
    "sector_breakdown"; "deals"; "caveats"; "cleaning_steps";
    "api_time_ms"; "total_time_ms"; "filters_applied" ].

Definition query_workorders_board_keys : list string :=
  [ "total_work_orders"; "financials"; "execution_breakdown";
    "sector_breakdown"; "work_orders"; "caveats"; "cleaning_steps";
    "api_time_ms"; "total_time_ms"; "filters_applied" ].

Definition cross_board_analysis_keys : list string :=
  [ "common_deal_count"; "deals_only_count"; "wo_only_count";
    "deals_summary"; "wo_summary"; "lifecycle"; "caveats";
    "cleaning_steps"; "api_time_ms"; "total_time_ms"; "filters_applied" ].

Definition aggregate_metrics_keys : list string :=
  [ "board"; "metric"; "group_by"; "results"; "caveats"; "cleaning_steps";
    "api_time_ms"; "total_time_ms" ].

Definition get_data_summary_keys : list string :=
  [ "summary"; "caveats"; "cleaning_steps"; "api_time_ms"; "total_time_ms" ].

End Tools.

(** ** JSON values: tool results and API payloads *)

Module Json.

Inductive json : Type :=
| JNull
| JBool (b : bool)
| JInt (n : Z)
| JFloat (x : pyfloat)
| JStr (s : string)
| JList (items : list json)
| JDict (entries : list (string * json)).

(** A [dict] with string keys, in insertion order. *)
Definition dict : Type := list (string * json).

(** [d.get(k)], [None] when the key is absent. *)
Fixpoint dict_get (k : string) (d : dict) : option json :=
  match d with
  | [] => None
  | (k', v) :: d' => if String.eqb k' k then Some v else dict_get k d'
  end.

(** [d[k] = v]: replaces the value in place, or appends the key. *)
Fixpoint dict_set (k : string) (v : json) (d : dict) : dict :=
  match d with
  | [] => [(k, v)]
  | (k', v') :: d' =>
      if String.eqb k' k then (k', v) :: d' else (k', v') :: dict_set k v d'
  end.

Definition keys (d : dict) : list string := map fst d.

Definition jtruthy (v : json) : bool :=
  match v with
  | JNull => false
  | JBool b => b
  | JInt n => negb (n =? 0)%Z
  | JFloat x => truthy (VNum x)
  | JStr s => negb (String.eqb s "")
  | JList l => match l with [] => false | _ => true end
  | JDict d => match d with [] => false | _ => true end
  end.

(** [a or b] *)
Definition jor (a b : json) : json := if jtruthy a then a else b.

(** [d.get(k)] with [None] as a JSON value. *)
Definition jget (d : dict) (k : string) : json := default JNull (dict_get k d).

End Json.

Export Json.

(** ** [monday_client.py]: [execute_query] *)

Module MondayClient.

(** What [int(response.headers.get("Retry-After", 5))] meets: no header,
    a header [int] accepts, or one on which it raises [ValueError]. *)
Inductive retry_after_header : Type :=
| HeaderAbsent
| HeaderInt (seconds : Z)
| HeaderNotInt.

(** What [response.json()] meets: a body that is not JSON, on which it
    raises [JSONDecodeError], or the value the body encodes. *)
Inductive body : Type :=
| NotJson
| Json (result : json).

(** What one [client.post] does. *)
Inductive post_outcome : Type :=
| TimedOut
| TransportFailed (what : string)
| Responded (status_code : Z) (retry_after : retry_after_header) (b : body).

(** The exceptions leaving [execute_query]:
    "Monday.com API timeout after 3 retries",
    "Monday.com API error: status",
    "Monday.com GraphQL error: message", with the value formatted as
    the message,
    "Monday.com API: max retries exceeded",
    and the exceptions no [except] clause catches, by the name of
    their class. *)
Inductive failure : Type :=
| ApiTimeout
| ApiError (status_code : Z)
| GraphQLError (message : json)
| MaxRetriesExceeded
| Uncaught (what : string).

Inductive outcome : Type :=
| Returned (result : json)
| Raised (e : failure).

Definition max_retries : nat := 3.

(** [raise_for_status] passes the 2xx codes only. *)
Definition is_success (status_code : Z) : bool :=
  ((200 <=? status_code) && (status_code <=? 299))%Z.

(** ["errors" in result]: a key of a dict, an element of a list, a
    substring of a string; [None] stands for the [TypeError] raised on
    [None], a boolean or a number. *)
Definition has_errors (result : json) : option bool :=
  match result with
  | JDict d => Some (bool_decide ("errors" ∈ keys d))
  | JList l =>
      Some (existsb (fun x => match x with
                              | JStr s => String.eqb s "errors"
                              | _ => false
                              end) l)
  | JStr s => Some (PyStr.contains "errors" s)
  | JNull | JBool _ | JInt _ | JFloat _ => None
  end.

(** [result["errors"][0].get("message", "Unknown GraphQL error")] and
    the exception raised with it, for a result that has "errors" in it.
    Indexing a string or a list by "errors" is a [TypeError]; so is
    indexing [None], a boolean or a number by 0; an empty list or string
    has no element 0; a dict has no key 0; and only a dict has [get]. *)
Definition raise_errors (result : json) : failure :=
  match result with
  | JDict d =>
      match dict_get "errors" d with
      | Some (JList (JDict e :: _)) =>
          GraphQLError (default (JStr "Unknown GraphQL error") (dict_get "message" e))
      | Some (JList []) => Uncaught "IndexError"
      | Some (JList (_ :: _)) => Uncaught "AttributeError"
      | Some (JStr EmptyString) => Uncaught "IndexError"
      | Some (JStr (String _ _)) => Uncaught "AttributeError"
      | Some (JDict _) => Uncaught "KeyError"
      | Some (JNull | JBool _ | JInt _ | JFloat _) => Uncaught "TypeError"
      | None => Uncaught "KeyError"
      end
  | _ => Uncaught "TypeError"
  end.

(** What the function does with [result = response.json()]. *)
Definition on_result (result : json) : outcome :=
  match has_errors result with
  | None => Raised (Uncaught "TypeError")
  | Some true => Raised (raise_errors result)
  | Some false => Returned result
  end.

Definition read_body (b : body) : outcome :=
  match b with
  | NotJson => Raised (Uncaught "JSONDecodeError")
  | Json result => on_result result
  end.

Definition retry_delay (h : retry_after_header) : option Z :=
  match h with
  | HeaderAbsent => Some 5%Z
  | HeaderInt n => Some n
  | HeaderNotInt => None
  end.

(** The loop [for attempt in range(max_retries)], with [remaining]
    iterations to go.  [responses i] is what the request of attempt [i]
    meets; [sleeps] collects the arguments of [asyncio.sleep]. *)
Fixpoint attempts (remaining attempt : nat) (responses : nat -> post_outcome)
                  (sleeps : list Z) : outcome * list Z :=
  match remaining with
  | 0 => (Raised MaxRetriesExceeded, sleeps)
  | S remaining' =>
      let continue delay :=
        attempts remaining' (S attempt) responses (sleeps ++ [delay]) in
      match responses attempt with
      | TimedOut =>
          if attempt <? max_retries - 1 then continue (2 ^ Z.of_nat attempt)%Z
          else (Raised ApiTimeout, sleeps)
      | TransportFailed what => (Raised (Uncaught what), sleeps)
      | Responded status_code header b =>
          if (status_code =? 429)%Z then
            match retry_delay header with
            | Some retry_after => continue retry_after
            | None => (Raised (Uncaught "ValueError"), sleeps)
            end
          else if is_success status_code then (read_body b, sleeps)
          else if (attempt <? max_retries - 1) && (500 <=? status_code)%Z then
            continue (2 ^ Z.of_nat attempt)%Z
          else (Raised (ApiError status_code), sleeps)
      end
  end.

Definition execute_query (responses : nat -> post_outcome) : outcome * list Z :=
  attempts max_retries 0 responses [].

(** *** [parse_items_to_records] *)

(** One entry of [item["column_values"]]: the title of its column, its
    [text] and its [value], each a string or [None]. *)
Record column_value : Type := mk_column_value {
  col_title : string;
  col_text : option string;
  col_value : option string
}.

Record item : Type := mk_item {
  item_id : string;
  item_name : string;
  column_values : list column_value
}.

(** A flat record as [parse_items_to_records] builds it: a value is a
    string, [None], or whatever the JSON of a column holds. *)
Abbreviation flat_record := (gmap string json).

Definition nonempty (o : option string) : bool :=
  match o with
  | Some s => negb (String.eqb s "")
  | None => false
  end.

Section Parse.

(** [json.loads]; [None] stands for [JSONDecodeError]. *)
Variable loads : string -> option json.

(** The body of the loop over [item["column_values"]]. *)
Definition column_step (record : flat_record) (col : column_value) : flat_record :=
  let text_val := col_text col in
  let raw_val := col_value col in
  let record :=
    <[col_title col := if nonempty text_val then JStr (default "" text_val)
                       else JNull]> record in
  if nonempty raw_val && negb (nonempty text_val) then
    match loads (default "" raw_val) with
    | Some (JDict parsed) =>
        <[col_title col := jor (jget parsed "text") (jget parsed "label")]> record
    | _ => record
    end
  else record.

Definition parse_item (it : item) : flat_record :=
  foldl column_step
        (<["name" := JStr (item_name it)]> {[ "item_id" := JStr (item_id it) ]})
        (column_values it).

Definition parse_items_to_records (items : list item) : list flat_record :=
  map parse_item items.

End Parse.

(** *** [get_board_items] *)

(** What a page query gives: the [items] and the [cursor] of an
    [items_page] or [next_items_page]. *)
Record page : Type := mk_page {
  page_items : list item;
  page_cursor : option string
}.

(** The loop [while cursor:].  [next c] is what the query for the page
    after cursor [c] gives: a page, or the exception that [execute_query]
    or the indexing of its result raises.  [None] stands for a loop that
    has not ended after [fuel] pages. *)
Fixpoint next_pages (fuel : nat) (next : string -> failure + page)
                    (cursor : option string) (all_items : list item)
  : option (failure + list item) :=
  if nonempty cursor then
    match fuel with
    | 0 => None
    | S fuel' =>
        match next (default "" cursor) with
        | inl e => Some (inl e)
        | inr next_page =>
            next_pages fuel' next (page_cursor next_page)
                       (all_items ++ page_items next_page)
        end
    end
  else Some (inr all_items).

(** [get_board_items], without the time it measures. *)
Definition get_board_items (fuel : nat) (first : failure + page)
                           (next : string -> failure + page)
  : option (failure + list item) :=
  match first with
  | inl e => Some (inl e)
  | inr items_page =>
      next_pages fuel next (page_cursor items_page) (page_items items_page)
  end.

End MondayClient.

(** ** [agent/graph.py] *)

Module Graph.
Import PyNum.

Definition max_items : nat := 50.

Definition item_keys : list string := [ "deals"; "work_orders"; "lifecycle" ].

(** The body of the loop of [_truncate_result]. *)
Definition truncate_entry (truncated : dict) (kv : string * json) : dict :=
  let '(key, value) := kv in
  if bool_decide (key ∈ item_keys) then
    match value with
    | JList l =>
        if max_items <? length l then
          dict_set (key +:+ "_total") (JInt (Z.of_nat (length l)))
            (dict_set (key +:+ "_truncated") (JBool true)
               (dict_set key (JList (take max_items l)) truncated))
        else dict_set key value truncated
    | _ => dict_set key value truncated
    end
  else dict_set key value truncated.

Definition _truncate_result (result : json) : json :=
  match result with
  | JDict d => JDict (foldl truncate_entry [] d)
  | _ => result
  end.

Record tool_call : Type := mk_tool_call {
  call_name : string;
  call_args : json;
  call_id : string
}.

(** What [await tool_fn.ainvoke(args)] does: it returns a result or
    raises an exception [e], of which [str(e)] is kept. *)
Inductive tool_outcome : Type :=
| ToolReturned (result : json)
| ToolRaised (message : string).

(** The surroundings of a step: the tools by name, the readings of
    [time.time()] in the order they are taken, and what
    [time.strftime] gives at each of them. *)
Record env : Type := mk_env {
  tool_map : string -> option (json -> tool_outcome);
  time : nat -> Q;
  strftime : nat -> string
}.

(** A [ToolMessage]; [content] is the value handed to [json.dumps]. *)
Record tool_message : Type := mk_tool_message {
  content : json;
  tool_call_id : string
}.

(** The texts under [result_summary]: "n items returned in t ms", the
    first 200 characters of [str(result)], and "Error: message". *)
Inductive summary : Type :=
| ItemsReturned (items_count : json) (elapsed : Z)
| ResultText (result : json)
| ErrorText (message : string).

(** A trace dictionary; the keys set by [trace.update] are optional. *)
Record trace : Type := mk_trace {
  tool_name : string;
  parameters : json;
  status : string;
  timestamp : string;
  items_returned : option json;
  cleaning_steps : option json;
  duration_ms : option Z;
  api_time_ms : option json;
  result_summary : option summary
}.

(** [round((t - start_time) * 1000)]: the difference and the product
    are floats. *)
Definition elapsed_ms (start_time t : Q) : Z :=
  round_half_even (to_binary64 (to_binary64 (t - start_time) * 1000)).

(** [result.get("total_deals") or result.get("total_work_orders")
     or result.get("common_deal_count") or 0] *)
Definition items_count (result : dict) : json :=
  jor (jor (jor (jget result "total_deals") (jget result "total_work_orders"))
           (jget result "common_deal_count"))
      (JInt 0).

Definition chars (s : string) : list json :=
  map (fun c => JStr (String c EmptyString)) (list_ascii_of_string s).

(** What [new_caveats.extend(caveats)] appends, or the message of the
    [TypeError] it raises. *)
Definition iterate (caveats : json) : list json + string :=
  match caveats with
  | JList l => inl l
  | JStr s => inl (chars s)
  | JDict d => inl (map JStr (keys d))
  | JNull => inr "'NoneType' object is not iterable"
  | JBool _ => inr "'bool' object is not iterable"
  | JInt _ => inr "'int' object is not iterable"
  | JFloat _ => inr "'float' object is not iterable"
  end.

(** The [except Exception as e] branch, entered with the trace built so
    far; it reads the clock once. *)
Definition on_exception (e : env) (tick : nat) (start_time : Q) (tc : tool_call)
                        (t : trace) (message : string)
  : tool_message * trace * list json * nat :=
  (mk_tool_message (JDict [("error", JStr message)]) (call_id tc),
   mk_trace (tool_name t) (parameters t) "error" (timestamp t)
            (items_returned t) (cleaning_steps t)
            (Some (elapsed_ms start_time (time e tick)))
            (api_time_ms t) (Some (ErrorText ("Error: " +:+ message))),
   [], S tick).

(** The body of the loop over [tool_calls]: the message and the trace
    appended, the caveats collected, and the clock position after it. *)
Definition run_call (e : env) (tick : nat) (tc : tool_call)
  : tool_message * trace * list json * nat :=
  let start_time := time e tick in
  let tick := S tick in
  let trace0 :=
    mk_trace (call_name tc) (call_args tc) "running" (strftime e tick)
             None None None None None in
  match tool_map e (call_name tc) with
  | None =>
      on_exception e tick start_time tc trace0
                   ("Unknown tool: " +:+ call_name tc)
  | Some tool_fn =>
      match tool_fn (call_args tc) with
      | ToolRaised message => on_exception e tick start_time tc trace0 message
      | ToolReturned result =>
          let elapsed := elapsed_ms start_time (time e tick) in
          let tick := S tick in
          match result with
          | JDict d =>
              let count := items_count d in
              let steps := default (JList []) (dict_get "cleaning_steps" d) in
              let caveats := default (JList []) (dict_get "caveats" d) in
              let api_ms := default (JInt 0) (dict_get "api_time_ms" d) in
              let trace1 :=
                mk_trace (call_name tc) (call_args tc) "completed"
                         (timestamp trace0) (Some count) (Some steps)
                         (Some elapsed) (Some api_ms)
                         (Some (ItemsReturned count elapsed)) in
              match iterate caveats with
              | inl new_caveats =>
                  (mk_tool_message (_truncate_result result) (call_id tc),
                   trace1, new_caveats, tick)
              | inr message => on_exception e tick start_time tc trace1 message
              end
          | _ =>
              (mk_tool_message (_truncate_result result) (call_id tc),
               mk_trace (call_name tc) (call_args tc) "completed"
                        (timestamp trace0) None None (Some elapsed) None
                        (Some (ResultText result)),
               [], tick)
          end
      end
  end.

(** The accumulators of the loop. *)
Record loop_state : Type := mk_loop_state {
  new_messages : list tool_message;
  new_traces : list trace;
  new_caveats : list json;
  clock : nat
}.

Definition loop_step (e : env) (st : loop_state) (tc : tool_call) : loop_state :=
  let '(m, t, cs, tick) := run_call e (clock st) tc in
  mk_loop_state (new_messages st ++ [m]) (new_traces st ++ [t])
                (new_caveats st ++ cs) tick.

Definition run_calls (e : env) (tick : nat) (tool_calls : list tool_call)
  : loop_state :=
  foldl (loop_step e) (mk_loop_state [] [] [] tick) tool_calls.

(** The key under which a [set] keeps a value; lists and dictionaries
    have none.  [True == 1 == 1.0], so numbers share their keys. *)
Definition hash_key (v : json) : option value :=
  match v with
  | JNull => Some VNone
  | JBool b => Some (VNum (FFin (if b then 1 else 0)))
  | JInt n => Some (VNum (FFin (Q2Qc (inject_Z n))))
  | JFloat x => Some (VNum x)
  | JStr s => Some (VStr s)
  | JList _ | JDict _ => None
  end.

(** [list(set(xs))]: [None] stands for the [TypeError] of an unhashable
    element; of equal elements the first is kept.  Python fixes no
    order for the result. *)
Fixpoint dedup (seen : list value) (xs : list json) : option (list json) :=
  match xs with
  | [] => Some []
  | x :: xs' =>
      k ← hash_key x;
      if bool_decide (k ∈ seen) then dedup seen xs'
      else cons x <$> dedup (k :: seen) xs'
  end.

(** What the node returns. *)
Record update : Type := mk_update {
  messages : list tool_message;
  tool_traces : list trace;
  data_caveats : list json
}.

(** [tool_execution_node], given the tool calls of the last message and
    the traces and caveats of the state; [None] stands for the
    [TypeError] of [set] on an unhashable caveat. *)
Definition tool_execution_node (e : env) (tick : nat)
                               (tool_calls : list tool_call)
                               (state_traces : list trace)
                               (state_caveats : list json) : option update :=
  let st := run_calls e tick tool_calls in
  caveats ← dedup [] (state_caveats ++ new_caveats st);
  Some (mk_update (new_messages st) (state_traces ++ new_traces st) caveats).

End Graph.

(** ** [main.py]: conversation histories and health *)

Module Main.

(** The messages kept in a history. *)
Inductive chat_message : Type :=
| HumanMessage (content : string)
| AIMessage (content : string).

(** The store [conversations]. *)
Abbreviation conversations := (gmap string (list chat_message)).

(** [l[-n:]] for a positive [n]. *)
Definition last_n {A} (n : nat) (l : list A) : list A := drop (length l - n) l.

(** What [chat] stores under [conv_id] when the agent has answered
    [response_text] to [message]:
    [(history + [HumanMessage] + [AIMessage])[-20:]]. *)
Definition chat (store : conversations) (conv_id message response_text : string)
  : conversations :=
  let history := default [] (store !! conv_id) in
  let messages := history ++ [HumanMessage message] in
  <[conv_id := last_n 20 (messages ++ [AIMessage response_text])]> store.

(** The same for [chat_stream], which stores nothing when no text was
    streamed. *)
Definition chat_stream (store : conversations)
                       (conv_id message accumulated_response : string)
  : conversations :=
  if String.eqb accumulated_response "" then store
  else chat store conv_id message accumulated_response.

(** The [overall] status of [health].  A board is [None] when its id is
    not configured, and [Some connected] otherwise. *)
Definition health (deals_status wo_status : option bool) : string :=
  let down (st : option bool) :=
    match st with Some connected => negb connected | None => false end in
  let overall := "ok" in
  let overall := if down deals_status then "degraded" else overall in
  let overall := if down wo_status then "degraded" else overall in
  if down deals_status && down wo_status then "unhealthy" else overall.

End Main.

(** * Properties *)

(** ** Header rows *)

Section HeaderRows.
Import DataCleaner.

Definition header_fields : list string :=
  [ "Deal Status"; "Deal Stage"; "Sector/service"; "Owner code" ].

(** The field holds its own column name, white space around it aside. *)
Definition header_like (r : record) (field : string) : Prop :=
  exists s, get r field = VStr s /\ PyStr.strip s = field.

(** The field holds exactly its own column name. *)
Definition header_literal (r : record) (field : string) : Prop :=
  get r field = VStr field.

(** A row is dropped when cleaning it alone leaves nothing. *)
Definition dropped (r : record) : Prop := cleaned (clean_deals [r]) = [].

Definition padded_header_row : record :=
  {[ "Deal Status" := VStr " Deal Status"; "Deal Stage" := VStr "Deal Stage " ]}.

Lemma header_match_like r f :
  f ∈ header_fields -> header_match r (f, f) = true <-> header_like r f.
Proof.
  intros Hf. unfold header_match, header_like. simpl.
  destruct (get r f) as [|s|x]; split; try discriminate.
  - intros [s [Hs _]]. discriminate.
  - intros H. apply andb_true_iff in H as [_ H].
    apply String.eqb_eq in H. eauto.
  - intros [s' [Hs Hstrip]]. injection Hs as <-.
    apply andb_true_iff. split.
    + destruct s; [|reflexivity]. cbn in Hstrip. subst f.
      repeat (apply elem_of_cons in Hf as [Hf|Hf]; [discriminate|]).
      inversion Hf.
    + by apply String.eqb_eq.
  - intros [s [Hs _]]. discriminate.
Qed.

Lemma filter_foldl_deals (rs : list record) acc n :
  (foldl deals_step (acc, n) rs).1
  = acc ++ map clean_deal_record (List.filter (fun r => negb (_is_header_row r)) rs).
Proof.
  revert acc n. induction rs as [|r rs IH]; intros acc n; simpl.
  - by rewrite app_nil_r.
  - unfold deals_step at 2. destruct (_is_header_row r); simpl.
    + apply IH.
    + rewrite IH. by rewrite <- app_assoc.
Qed.

Lemma clean_deals_cleaned (rs : list record) :
  cleaned (clean_deals rs)
  = map clean_deal_record (List.filter (fun r => negb (_is_header_row r)) rs).
Proof.
  unfold clean_deals.
  pose proof (filter_foldl_deals rs [] 0) as H.
  destruct (foldl deals_step ([], 0) rs) as [c n]. simpl in *. exact H.
Qed.

Lemma dropped_iff r : dropped r <-> _is_header_row r = true.
Proof.
  unfold dropped. rewrite clean_deals_cleaned. simpl.
  destruct (_is_header_row r); simpl; split; congruence.
Qed.

Lemma is_header_row_pairs r :
  _is_header_row r = true
  <-> exists f g, f ∈ header_fields /\ g ∈ header_fields /\ f <> g
                  /\ header_like r f /\ header_like r g.
Proof.
  pose proof (header_match_like r "Deal Status") as H1.
  pose proof (header_match_like r "Deal Stage") as H2.
  pose proof (header_match_like r "Sector/service") as H3.
  pose proof (header_match_like r "Owner code") as H4.
  unfold _is_header_row, suspicious_matches, header_checks. simpl.
  assert (E1 : "Deal Status" ∈ header_fields) by (unfold header_fields; repeat constructor).
  assert (E2 : "Deal Stage" ∈ header_fields) by (unfold header_fields; repeat constructor).
  assert (E3 : "Sector/service" ∈ header_fields) by (unfold header_fields; repeat constructor).
  assert (E4 : "Owner code" ∈ header_fields) by (unfold header_fields; repeat constructor).
  specialize (H1 E1). specialize (H2 E2). specialize (H3 E3). specialize (H4 E4).
  split.
  - intros H.
    destruct (header_match r ("Deal Status", "Deal Status")) eqn:M1;
      destruct (header_match r ("Deal Stage", "Deal Stage")) eqn:M2;
      destruct (header_match r ("Sector/service", "Sector/service")) eqn:M3;
      destruct (header_match r ("Owner code", "Owner code")) eqn:M4;
      simpl in H; try discriminate;
      repeat match goal with
             | Hx : true = true <-> _ |- _ => apply proj1 in Hx; specialize (Hx eq_refl)
             | Hx : false = true <-> _ |- _ => clear Hx
             end;
      first
        [ exists "Deal Status", "Deal Stage"; by repeat split
        | exists "Deal Status", "Sector/service"; by repeat split
        | exists "Deal Status", "Owner code"; by repeat split
        | exists "Deal Stage", "Sector/service"; by repeat split
        | exists "Deal Stage", "Owner code"; by repeat split
        | exists "Sector/service", "Owner code"; by repeat split ].
  - intros (f & g & Hf & Hg & Hne & Lf & Lg).
    unfold header_fields in Hf, Hg.
    repeat (apply elem_of_cons in Hf as [->|Hf]);
      try (by inversion Hf);
      repeat (apply elem_of_cons in Hg as [->|Hg]);
      try (by inversion Hg); try congruence;
      repeat match goal with
             | Hx : _ <-> header_like r ?x, Hl : header_like r ?x |- _ =>
                 apply proj2 in Hx; specialize (Hx Hl); rewrite Hx; clear Hl
             end;
      repeat match goal with
             | |- context [header_match r ?c] =>
                 destruct (header_match r c); simpl
             end; reflexivity.
Qed.

(** C4, as stated, fails: this row is dropped although none of its
    fields literally equals a column name. *)
Lemma header_row_literal_counterexample :
  ~ (dropped padded_header_row
     <-> exists f g, f ∈ header_fields /\ g ∈ header_fields /\ f <> g
                     /\ header_literal padded_header_row f
                     /\ header_literal padded_header_row g).
Proof.
  intros [H _].
  assert (D : dropped padded_header_row) by (apply dropped_iff; reflexivity).
  destruct (H D) as (f & g & Hf & _ & _ & Lf & _).
  unfold header_fields in Hf. unfold header_literal in Lf.
  repeat (apply elem_of_cons in Hf as [->|Hf]); try (by inversion Hf);
    vm_compute in Lf; discriminate.
Qed.

(** C4 (amended): cleaning keeps, in order, exactly the rows that are not
    header rows; a row is a header row if and only if at least two of
    the four fields Deal Status, Deal Stage, Sector/service, Owner code
    equal their own column name once surrounding white space is
    trimmed.  So a row whose Deal Status is "Deal Status" and whose Deal
    Stage is "Deal Stage" is dropped, and a row with exactly one such
    field is kept. *)
Theorem header_row_dropped_iff (rs : list record) (r : record) :
  cleaned (clean_deals rs)
  = map clean_deal_record (List.filter (fun r => negb (_is_header_row r)) rs)
  /\ (dropped r
      <-> exists f g, f ∈ header_fields /\ g ∈ header_fields /\ f <> g
                      /\ header_like r f /\ header_like r g)
  /\ (get r "Deal Status" = VStr "Deal Status"
      -> get r "Deal Stage" = VStr "Deal Stage" -> dropped r)
  /\ ((exists f, f ∈ header_fields /\ header_like r f
                 /\ forall g, g ∈ header_fields -> header_like r g -> g = f)
      -> ~ dropped r).
Proof.
  split; [apply clean_deals_cleaned|].
  split; [rewrite dropped_iff; apply is_header_row_pairs|].
  split.
  - intros Hs Hg. apply dropped_iff, is_header_row_pairs.
    exists "Deal Status", "Deal Stage". unfold header_fields, header_like.
    repeat split; [repeat constructor|repeat constructor|discriminate|eauto|eauto].
  - intros (f & Hf & Lf & Huniq) D.
    apply dropped_iff, is_header_row_pairs in D
      as (a & b & Ha & Hb & Hne & La & Lb).
    apply Hne. rewrite (Huniq a Ha La), (Huniq b Hb Lb). reflexivity.
Qed.

End HeaderRows.

(** ** Characters and stripping *)

Section Characters.
Import PyStr.

Definition all_ascii : list ascii := map ascii_of_nat (seq 0 256).

Lemma in_all_ascii (c : ascii) : In c all_ascii.
Proof.
  unfold all_ascii. rewrite <- (ascii_nat_embedding c).
  apply in_map, in_seq. pose proof (nat_ascii_bounded c). lia.
Qed.

(** A property of characters checked by running through all 256. *)
Lemma for_all_ascii (p : ascii -> bool) :
  forallb p all_ascii = true -> forall c, p c = true.
Proof.
  intros H c. rewrite forallb_forall in H. apply H, in_all_ascii.
Qed.

Definition excludes_alpha (p : ascii -> bool) : Prop :=
  forall c, p c = true -> is_alpha c = false.

Lemma excludes_alpha_check (p : ascii -> bool) :
  forallb (fun c => implb (p c) (negb (is_alpha c))) all_ascii = true ->
  excludes_alpha p.
Proof.
  intros H c Hp. pose proof (for_all_ascii _ H c) as Hc. simpl in Hc.
  rewrite Hp in Hc. simpl in Hc. by apply negb_true_iff.
Qed.

Lemma is_space_not_alpha : excludes_alpha is_space.
Proof. apply excludes_alpha_check. vm_compute. reflexivity. Qed.

Lemma is_digit_not_alpha : excludes_alpha is_digit.
Proof. apply excludes_alpha_check. vm_compute. reflexivity. Qed.

Lemma literal_not_alpha (c : ascii) :
  is_alpha c = false ->
  excludes_alpha (fun a => Ascii.eqb (lower a) (lower c)).
Proof.
  revert c.
  assert (H : forall c, negb (is_alpha c)
                        && negb (forallb (fun a => implb (Ascii.eqb (lower a) (lower c))
                                                         (negb (is_alpha a)))
                                         all_ascii) = false).
  { intros c. apply negb_true_iff.
    apply (for_all_ascii
             (fun c => negb (negb (is_alpha c)
                             && negb (forallb (fun a => implb (Ascii.eqb (lower a) (lower c))
                                                              (negb (is_alpha a)))
                                              all_ascii)))).
    vm_compute. reflexivity. }
  intros c Hc. specialize (H c). rewrite Hc in H. cbn [negb andb] in H.
  apply negb_false_iff in H. by apply excludes_alpha_check.
Qed.

Lemma any_alpha_app (a b : string) :
  any_alpha (a +:+ b) = any_alpha a || any_alpha b.
Proof.
  induction a as [|c a IH]; simpl; [reflexivity|].
  rewrite IH. by rewrite orb_assoc.
Qed.

Lemma any_alpha_lstrip (s : string) : any_alpha (lstrip s) = any_alpha s.
Proof.
  induction s as [|c s IH]; simpl; [reflexivity|].
  destruct (is_space c) eqn:E; [|reflexivity].
  rewrite IH, (is_space_not_alpha c E). reflexivity.
Qed.

Lemma any_alpha_rstrip (s : string) : any_alpha (rstrip s) = any_alpha s.
Proof.
  induction s as [|c s IH]; simpl; [reflexivity|].
  destruct (rstrip s) as [|d r] eqn:E.
  - simpl in IH. rewrite <- IH.
    destruct (is_space c) eqn:Ec; simpl.
    + by rewrite (is_space_not_alpha c Ec).
    + by rewrite orb_false_r.
  - simpl. simpl in IH. by rewrite IH.
Qed.

Lemma any_alpha_strip (s : string) : any_alpha (strip s) = any_alpha s.
Proof. unfold strip. by rewrite any_alpha_rstrip, any_alpha_lstrip. Qed.

(** The first four characters are decimal digits. *)
Definition starts_with_year (s : string) : bool :=
  match s with
  | String a (String b (String c (String d _))) =>
      is_digit a && is_digit b && is_digit c && is_digit d
  | _ => false
  end.

Lemma rstrip_prefix (s : string) : exists t, s = rstrip s +:+ t.
Proof.
  induction s as [|c s [t IH]]; simpl; [by exists ""|].
  destruct (rstrip s) as [|d r] eqn:E.
  - destruct (is_space c); [by exists (String c s)|].
    exists s. reflexivity.
  - exists t. change (String c s = String c (String d r +:+ t)). by rewrite <- IH.
Qed.

Lemma starts_with_year_app (a b : string) :
  starts_with_year a = true -> starts_with_year (a +:+ b) = true.
Proof. destruct a as [|? [|? [|? [|? ?]]]]; simpl; congruence. Qed.

Lemma starts_with_year_strip (s : string) :
  startswith "20" s = true ->
  starts_with_year (strip s) = true -> starts_with_year s = true.
Proof.
  intros H20 Hy. unfold strip in Hy.
  assert (L : lstrip s = s).
  { destruct s as [|c s]; [reflexivity|]. cbn [startswith] in H20.
    destruct (Ascii.eqb_spec "2" c) as [<-|]; [reflexivity|discriminate]. }
  rewrite L in Hy. destruct (rstrip_prefix s) as [t Ht].
  rewrite Ht. by apply starts_with_year_app.
Qed.

Lemma strip_nonempty_of_20 (s : string) :
  startswith "20" s = true -> s <> "".
Proof. destruct s; [discriminate|congruence]. Qed.

End Characters.

(** ** Date normalisation *)

Section Dates.
Import PyStr StrpTime DataCleaner.

(** An item that cannot match a letter. *)
Definition plain_item (it : item) : Prop :=
  match it with ILit c => is_alpha c = false | _ => True end.

Ltac excl := apply excludes_alpha_check; vm_compute; reflexivity.
Ltac excl_all := repeat (apply List.Forall_cons; [excl|]); apply List.Forall_nil.

Lemma classes_alpha cs acc s v rest :
  Forall excludes_alpha cs -> (v, rest) ∈ classes cs acc s ->
  any_alpha s = any_alpha rest.
Proof.
  intros Hcs. revert acc s.
  induction Hcs as [|p cs Hp _ IH]; intros acc s H; simpl in H.
  - apply list_elem_of_singleton in H. by injection H as _ ->.
  - destruct s as [|c s]; [inversion H|].
    destruct (p c) eqn:E; [|inversion H].
    simpl. rewrite (Hp c E). simpl. eapply IH, H.
Qed.

Lemma spaces_alts_alpha s r : r ∈ spaces_alts s -> any_alpha s = any_alpha r.
Proof.
  revert r. induction s as [|c s IH]; intros r H; simpl in H; [inversion H|].
  destruct (is_space c) eqn:E; [|inversion H].
  simpl. rewrite (is_space_not_alpha c E). simpl.
  apply elem_of_app in H as [H|H]; [by apply IH|].
  apply list_elem_of_singleton in H. by subst.
Qed.

Lemma alts_alpha it s v rest :
  plain_item it -> (v, rest) ∈ alts it s -> any_alpha s = any_alpha rest.
Proof.
  intros Hit H. destruct it as [| | | | | | |c|].
  8: { eapply classes_alpha; [|exact H].
       apply List.Forall_cons; [|apply List.Forall_nil].
       by apply literal_not_alpha. }
  8: { apply list_elem_of_fmap in H as (r & Hr & Hin). injection Hr as _ ->.
       by apply spaces_alts_alpha. }
  all: unfold alts, fraction_alts, alt in H; rewrite ?elem_of_app in H;
    repeat match goal with
           | Hx : _ \/ _ |- _ => destruct Hx as [Hx|Hx]
           end;
    (eapply classes_alpha; [|exact H]); excl_all.
Qed.

Lemma first_some_elem {A B} (f : A -> option B) l y :
  first_some f l = Some y -> exists x, x ∈ l /\ f x = Some y.
Proof.
  induction l as [|x l IH]; simpl; [discriminate|].
  destruct (f x) eqn:E.
  - intros [= <-]. exists x. split; [constructor|exact E].
  - intros H. destruct (IH H) as (x' & Hin & Hx).
    exists x'. split; [by constructor|exact Hx].
Qed.

Lemma rmatch_plain its s acc f rest :
  Forall plain_item its -> rmatch its s acc = Some (f, rest) ->
  any_alpha s = any_alpha rest.
Proof.
  intros Hits. revert s acc.
  induction Hits as [|it its Hit _ IH]; intros s acc H; simpl in H.
  - by injection H as _ ->.
  - apply first_some_elem in H as ([v r] & Hin & Hm). simpl in Hm.
    rewrite (alts_alpha it s v r Hit Hin). eapply IH, Hm.
Qed.

Lemma rmatch_year its s acc res :
  rmatch (IYear :: its) s acc = Some res -> starts_with_year s = true.
Proof.
  simpl. intros H. apply first_some_elem in H as ([v r] & Hin & _).
  unfold alts, alt, d09 in Hin.
  destruct s as [|a [|b [|c [|d s]]]]; cbn [classes] in Hin;
    repeat match goal with
           | Hx : _ ∈ (if ?b then _ else _) |- _ => destruct b eqn:?
           | Hx : _ ∈ [] |- _ => inversion Hx
           end.
  cbn [starts_with_year].
  repeat match goal with
         | Hx : is_digit _ = true |- _ => rewrite Hx; clear Hx
         end.
  reflexivity.
Qed.

Lemma strptime_valid s fmt dt : strptime s fmt = Some dt -> valid dt = true.
Proof.
  unfold strptime. destruct (compile fmt) as [its|]; [|discriminate]. simpl.
  destruct (rmatch its s initial) as [[f [|? ?]]|]; try discriminate.
  destruct (valid f) eqn:E; [|discriminate]. by intros [= <-].
Qed.

Lemma strptime_plain s fmt its dt :
  compile fmt = Some its -> Forall plain_item its ->
  strptime s fmt = Some dt -> any_alpha s = false.
Proof.
  unfold strptime. intros -> Hits. simpl.
  destruct (rmatch its s initial) as [[f [|? ?]]|] eqn:E; try discriminate.
  intros _. by rewrite (rmatch_plain _ _ _ _ _ Hits E).
Qed.

Lemma strptime_year s fmt its dt :
  compile fmt = Some (IYear :: its) ->
  strptime s fmt = Some dt -> starts_with_year s = true.
Proof.
  unfold strptime. intros ->. cbn [mbind option_bind].
  destruct (rmatch (IYear :: its) s initial) as [res|] eqn:E; [|discriminate].
  intros _. by apply rmatch_year in E.
Qed.

(** The formats of the cleaner, compiled. *)
Definition compiled_formats : list (list item) :=
  Eval vm_compute in omap compile formats.

Lemma compile_formats : map compile formats = map Some compiled_formats.
Proof. vm_compute. reflexivity. Qed.

(** A compiled format starts with the year or matches no letter. *)
Definition year_first_or_plain (its : list item) : Prop :=
  head its = Some IYear \/ Forall plain_item its.

Lemma compiled_formats_shape : Forall year_first_or_plain compiled_formats.
Proof.
  unfold compiled_formats.
  repeat (apply List.Forall_cons;
          [first [ left; reflexivity
                 | right;
                   repeat (apply List.Forall_cons; [vm_compute; first [exact I|reflexivity]|]);
                   apply List.Forall_nil ]|]).
  apply List.Forall_nil.
Qed.

Lemma try_formats_shape fmts cs s d :
  map compile fmts = map Some cs -> Forall year_first_or_plain cs ->
  try_formats fmts s = Some d ->
  starts_with_year s = true \/ any_alpha s = false.
Proof.
  revert cs. induction fmts as [|fmt fmts IH]; intros cs Hc Hcs; simpl;
    [discriminate|].
  destruct cs as [|its cs]; [discriminate|]. simpl in Hc.
  injection Hc as Hfmt Hc. inversion Hcs as [|? ? Hits Hcs']; subst.
  destruct (strptime s fmt) as [dt|] eqn:E; [|by apply (IH cs)].
  intros _. destruct Hits as [Hy|Hp].
  - left. destruct its as [|it its]; [discriminate|].
    injection Hy as ->. by apply (strptime_year s fmt its dt).
  - right. by apply (strptime_plain s fmt its dt).
Qed.

(** A string with a letter that one of the formats accepts starts with a
    four-digit year: only the formats with the literal [T] accept a
    letter, and they start with [%Y]. *)
Lemma formats_alpha_year s d :
  try_formats formats s = Some d -> any_alpha s = true ->
  starts_with_year s = true.
Proof.
  intros H Ha.
  destruct (try_formats_shape _ _ _ _ compile_formats compiled_formats_shape H);
    congruence.
Qed.

(** The first format of the list that parses, in ISO form. *)
Definition first_format (fmts : list string) (s d : string) : Prop :=
  exists pre fmt post dt,
    fmts = pre ++ fmt :: post
    /\ Forall (fun f => strptime s f = None) pre
    /\ strptime s fmt = Some dt /\ d = strftime_iso dt.

Lemma try_formats_first fmts s d :
  try_formats fmts s = Some d <-> first_format fmts s d.
Proof.
  induction fmts as [|fmt fmts IH]; simpl.
  - split; [discriminate|]. intros (pre & f & post & dt & H & _).
    by destruct pre.
  - destruct (strptime s fmt) as [dt|] eqn:E.
    + split.
      * intros [= <-]. exists [], fmt, fmts, dt. by repeat split.
      * intros (pre & f & post & dt' & H & Hpre & Hf & ->).
        destruct pre as [|p pre]; simpl in H; injection H as -> ->.
        -- congruence.
        -- inversion Hpre; congruence.
    + rewrite IH. split.
      * intros (pre & f & post & dt & -> & Hpre & Hf & ->).
        exists (fmt :: pre), f, post, dt. repeat split; try done.
        by constructor.
      * intros (pre & f & post & dt & H & Hpre & Hf & ->).
        destruct pre as [|p pre]; simpl in H; injection H as -> ->.
        -- congruence.
        -- exists pre, f, post, dt. repeat split; try done. by inversion Hpre.
Qed.

Lemma try_formats_none fmts s :
  try_formats fmts s = None <-> Forall (fun f => strptime s f = None) fmts.
Proof.
  induction fmts as [|fmt fmts IH]; simpl.
  - split; [constructor|reflexivity].
  - destruct (strptime s fmt) as [dt|] eqn:E.
    + split; [discriminate|]. inversion 1; congruence.
    + rewrite IH. split; [by constructor|by inversion 1].
Qed.

(** A four-digit year, a two-digit month and a two-digit day of a real
    calendar date, joined by hyphens. *)
Definition is_iso_date (s : string) : Prop :=
  String.length s = 10
  /\ exists y m d : Z,
      (1 <= y <= 9999 /\ 1 <= m <= 12 /\ 1 <= d <= days_in_month y m)%Z
      /\ s = pad4 y +:+ "-" +:+ pad2 m +:+ "-" +:+ pad2 d.

(** From the year 1000 on the year takes four digits. *)
Lemma strftime_iso_padded dt :
  (1000 <= year dt)%Z ->
  strftime_iso dt
  = pad4 (year dt) +:+ "-" +:+ pad2 (month dt) +:+ "-" +:+ pad2 (day dt).
Proof.
  intros H. unfold strftime_iso, year_text.
  destruct (Z.ltb_spec (year dt) 10); [lia|].
  destruct (Z.ltb_spec (year dt) 100); [lia|].
  destruct (Z.ltb_spec (year dt) 1000); [lia|]. reflexivity.
Qed.

(** The text written for a date is an ISO date exactly from the year
    1000 on; an earlier year is written in fewer than four digits. *)
Lemma strftime_iso_date dt :
  valid dt = true -> (is_iso_date (strftime_iso dt) <-> (1000 <= year dt)%Z).
Proof.
  unfold valid. rewrite !andb_true_iff, !Z.leb_le. intros H. split.
  - intros [L _]. unfold strftime_iso, year_text in L.
    destruct (Z.ltb_spec (year dt) 10); [discriminate L|].
    destruct (Z.ltb_spec (year dt) 100); [discriminate L|].
    destruct (Z.ltb_spec (year dt) 1000); [discriminate L|]. lia.
  - intros Hy. rewrite strftime_iso_padded by exact Hy.
    split; [reflexivity|].
    exists (year dt), (month dt), (day dt). split; [lia|reflexivity].
Qed.

Lemma try_formats_iso fmts s d :
  try_formats fmts s = Some d ->
  exists dt, valid dt = true /\ d = strftime_iso dt
             /\ (is_iso_date d <-> (1000 <= year dt)%Z).
Proof.
  intros H. apply try_formats_first in H as (_ & fmt & _ & dt & _ & _ & Hf & ->).
  apply strptime_valid in Hf. exists dt. split; [exact Hf|].
  split; [reflexivity|by apply strftime_iso_date].
Qed.

Lemma get_insert_eq (r : record) k v : get (<[k:=v]> r) k = v.
Proof. unfold get. by rewrite lookup_insert_eq. Qed.

Lemma get_insert_ne (r : record) k k' v :
  k <> k' -> get (<[k:=v]> r) k' = get r k'.
Proof. intros H. unfold get. by rewrite lookup_insert_ne. Qed.

Lemma get_number_step_ne r k k' : k <> k' -> get (number_step r k) k' = get r k'.
Proof.
  intros H. unfold number_step. destruct (truthy (get r k)); [|reflexivity].
  by apply get_insert_ne.
Qed.

Lemma get_string_step_ne parse r k k' :
  k <> k' -> get (string_step parse r k) k' = get r k'.
Proof.
  intros H. unfold string_step. destruct (get r k) as [|s|x]; try reflexivity.
  destruct (truthy (VStr s)); [|reflexivity]. by apply get_insert_ne.
Qed.

Lemma get_string_step_eq parse r k s :
  get r k = VStr s -> s <> "" -> get (string_step parse r k) k = parse s.
Proof.
  intros H Hs. unfold string_step. rewrite H.
  assert (T : truthy (VStr s) = true).
  { simpl. apply negb_true_iff. by apply String.eqb_neq. }
  rewrite T. apply get_insert_eq.
Qed.

Lemma clean_deal_record_date r f v :
  f ∈ date_fields -> get r f = VStr v -> v <> "" ->
  get (clean_deal_record r) f = str_value (_parse_date v).
Proof.
  intros Hf Hv Hne. unfold clean_deal_record, strip_step. cbn [foldl date_fields].
  unfold date_fields in Hf.
  repeat (apply elem_of_cons in Hf as [->|Hf]); try (by inversion Hf);
    rewrite !get_string_step_ne by discriminate; unfold date_step;
    rewrite ?get_string_step_ne by discriminate;
    (rewrite (get_string_step_eq _ _ _ v); [reflexivity| |exact Hne]);
    rewrite ?get_string_step_ne by discriminate;
    by rewrite get_number_step_ne by discriminate.
Qed.

(** The claim's reading of the guard: letters are refused unless the
    string starts with a four-digit year. *)
Definition parse_date_as_claimed (value : string) : option string :=
  if String.eqb value "" then None
  else if any_alpha value && negb (starts_with_year value) then None
  else try_formats formats (strip value).

(** C5, as stated, fails: an ISO timestamp of the year 1999 has a letter
    and starts with a four-digit year, yet it is rejected. *)
Lemma parse_date_year_prefix_counterexample :
  _parse_date "1999-12-31T10:00:00" <> parse_date_as_claimed "1999-12-31T10:00:00".
Proof. vm_compute. discriminate. Qed.

(** C5 (amended): a string with a letter that does not start with the
    two characters "20" is rejected; any other non-empty string is
    stripped and normalised by the first format, in the listed order
    (ISO date, ISO with time, with fractional seconds, with a space,
    day-first with hyphens, day-first with slashes, month-first), that
    parses it, and null when none does; every result is what
    strftime("%Y-%m-%d") writes for a valid date, which is an ISO
    calendar-date string exactly when the year parsed is 1000 or later
    (an earlier year is written without leading zeros); a string with a
    letter that does not start with a four-digit year always ends up
    null; and cleaning stores that result in each of the three date
    fields holding a non-empty string. *)
Theorem parse_date_normalises (v : string) :
  (any_alpha v = true -> startswith "20" v = false -> _parse_date v = None)
  /\ (v <> "" -> any_alpha v = false \/ startswith "20" v = true ->
      (forall d, _parse_date v = Some d <-> first_format formats (strip v) d)
      /\ (_parse_date v = None
          <-> Forall (fun f => strptime (strip v) f = None) formats))
  /\ (forall d, _parse_date v = Some d ->
      exists dt, valid dt = true /\ d = strftime_iso dt
                 /\ (is_iso_date d <-> (1000 <= year dt)%Z))
  /\ (any_alpha v = true -> starts_with_year v = false -> _parse_date v = None)
  /\ (forall r f, f ∈ date_fields -> get r f = VStr v -> v <> "" ->
      get (clean_deal_record r) f = str_value (_parse_date v)).
Proof.
  assert (G : any_alpha v = true -> startswith "20" v = false ->
              _parse_date v = None).
  { intros Ha H20. unfold _parse_date. rewrite Ha, H20.
    by destruct (String.eqb v ""). }
  assert (U : v <> "" -> any_alpha v = false \/ startswith "20" v = true ->
              _parse_date v = try_formats formats (strip v)).
  { intros Hne Hor. unfold _parse_date.
    apply String.eqb_neq in Hne. rewrite Hne.
    destruct Hor as [-> | ->]; [reflexivity|]. by rewrite andb_false_r. }
  split; [exact G|]. split; [|split; [|split]].
  - intros Hne Hor. rewrite (U Hne Hor). split.
    + intros d. apply try_formats_first.
    + apply try_formats_none.
  - intros d. unfold _parse_date.
    destruct (String.eqb v ""); [discriminate|].
    destruct (any_alpha v && negb (startswith "20" v)); [discriminate|].
    apply try_formats_iso.
  - intros Ha Hy. destruct (startswith "20" v) eqn:H20; [|by apply G].
    rewrite (U (strip_nonempty_of_20 v H20) (or_intror eq_refl)).
    destruct (try_formats formats (strip v)) as [d|] eqn:E; [|reflexivity].
    apply formats_alpha_year in E; [|by rewrite any_alpha_strip].
    apply starts_with_year_strip in E; [congruence|exact H20].
  - intros r f. apply clean_deal_record_date.
Qed.

End Dates.

(** ** Rounding to binary64 *)

Section Binary64.
Import PyNum.

Lemma round_half_even_lower (x : Q) :
  (inject_Z (round_half_even x) - (1 # 2) <= x)%Q.
Proof.
  unfold round_half_even.
  pose proof (Qfloor_le x) as Hf.
  destruct (Qcompare (x - inject_Z (Qfloor x)) (1 # 2)) eqn:C.
  - apply Qeq_alt in C.
    destruct (Z.even (Qfloor x)); [lra|].
    rewrite inject_Z_plus. change (inject_Z 1) with 1%Q. lra.
  - lra.
  - apply Qgt_alt in C. rewrite inject_Z_plus. change (inject_Z 1) with 1%Q. lra.
Qed.

Lemma round_half_even_upper (x : Q) (n : Z) :
  (x <= inject_Z n)%Q -> (round_half_even x <= n)%Z.
Proof.
  intros H. pose proof (round_half_even_lower x) as L.
  assert (E : (inject_Z (round_half_even x) <= inject_Z n + (1 # 2))%Q) by lra.
  destruct (Z_le_gt_dec (round_half_even x) n) as [|G]; [assumption|exfalso].
  assert (G' : (n + 1 <= round_half_even x)%Z) by lia.
  rewrite Zle_Qle, inject_Z_plus in G'. change (inject_Z 1) with 1%Q in G'. lra.
Qed.

Lemma round_half_even_nonneg (x : Q) : (0 <= x)%Q -> (0 <= round_half_even x)%Z.
Proof.
  intros Hx. unfold round_half_even.
  assert (F : (0 <= Qfloor x)%Z).
  { change 0%Z with (Qfloor 0). by apply Qfloor_resp_le. }
  destruct (Qcompare _ _); [destruct (Z.even _)|..]; lia.
Qed.

Lemma round_half_even_integer (n : Z) : round_half_even (inject_Z n) = n.
Proof.
  unfold round_half_even. rewrite Qfloor_Z.
  assert (E : (inject_Z n - inject_Z n == 0)%Q) by ring.
  assert (C : Qcompare (inject_Z n - inject_Z n) (1 # 2) = Lt).
  { rewrite <- Qlt_alt. rewrite E. reflexivity. }
  by rewrite C.
Qed.

Lemma round_half_even_proper (x y : Q) :
  (x == y)%Q -> round_half_even x = round_half_even y.
Proof.
  intros E. unfold round_half_even.
  assert (F : Qfloor x = Qfloor y) by (by rewrite E).
  rewrite F.
  assert (C : Qcompare (x - inject_Z (Qfloor y)) (1 # 2)
              = Qcompare (y - inject_Z (Qfloor y)) (1 # 2)) by (by rewrite E).
  by rewrite C.
Qed.

Lemma two_power_pos (k : Z) : (0 < 2 ^ k)%Q.
Proof. apply Qpower_0_lt. reflexivity. Qed.

Lemma two_power_plus (a b : Z) : (2 ^ (a + b) == 2 ^ a * 2 ^ b)%Q.
Proof. apply Qpower_plus. discriminate. Qed.

Lemma two_power_inject (n : Z) : (0 <= n)%Z -> (inject_Z (2 ^ n) == 2 ^ n)%Q.
Proof. intros H. rewrite Zpower_Qpower by assumption. reflexivity. Qed.

Lemma two_power_le (a b : Z) : (a <= b)%Z -> (2 ^ a <= 2 ^ b)%Q.
Proof.
  intros H. replace b with (a + (b - a))%Z by lia. rewrite two_power_plus.
  assert (P : (1 <= 2 ^ (b - a))%Q).
  { rewrite <- two_power_inject by lia.
    change 1%Q with (inject_Z 1). rewrite <- Zle_Qle.
    pose proof (Z.pow_pos_nonneg 2 (b - a)). lia. }
  pose proof (two_power_pos a). nra.
Qed.

(** [ilog2] finds the binade of a positive rational. *)
Lemma ilog2_spec (q : Q) :
  (0 < q)%Q -> (2 ^ ilog2 q <= q)%Q /\ (q < 2 ^ (ilog2 q + 1))%Q.
Proof.
  intros Hq. destruct q as [a b]. unfold ilog2. cbn [Qnum Qden].
  assert (Ha : (0 < a)%Z).
  { unfold Qlt in Hq. cbn in Hq. lia. }
  destruct (Z.log2_spec a Ha) as [La Ua].
  destruct (Z.log2_spec (Zpos b) eq_refl) as [Lb Ub].
  pose proof (Z.log2_nonneg a) as Na. pose proof (Z.log2_nonneg (Zpos b)) as Nb.
  set (la := Z.log2 a) in *. set (lb := Z.log2 (Zpos b)) in *.
  assert (Q : (a # b == inject_Z a / inject_Z (Zpos b))%Q) by apply Qmake_Qdiv.
  assert (Bpos : (0 < inject_Z (Zpos b))%Q) by reflexivity.
  assert (La' : (2 ^ la <= inject_Z a)%Q).
  { rewrite <- two_power_inject by assumption. by rewrite <- Zle_Qle. }
  assert (Ua' : (inject_Z a < 2 ^ (la + 1))%Q).
  { rewrite <- two_power_inject by lia. rewrite <- Zlt_Qlt. exact Ua. }
  assert (Lb' : (2 ^ lb <= inject_Z (Zpos b))%Q).
  { rewrite <- two_power_inject by assumption. by rewrite <- Zle_Qle. }
  assert (Ub' : (inject_Z (Zpos b) < 2 ^ (lb + 1))%Q).
  { rewrite <- two_power_inject by lia. rewrite <- Zlt_Qlt. exact Ub. }
  set (A := inject_Z a) in *. set (B := inject_Z (Zpos b)) in *.
  assert (Qb : ((a # b) * B == A)%Q).
  { rewrite Q. field. lra. }
  pose proof (two_power_pos la) as Pla. pose proof (two_power_pos lb) as Plb.
  pose proof (two_power_pos (la - lb)) as Pe.
  assert (E1 : (2 ^ la == 2 ^ (la - lb) * 2 ^ lb)%Q).
  { rewrite <- two_power_plus. by replace (la - lb + lb)%Z with la by lia. }
  assert (E2 : (2 ^ (la - lb + 1) == 2 ^ (la - lb) * 2)%Q).
  { rewrite two_power_plus. reflexivity. }
  assert (E3 : (2 ^ (la + 1) == 2 ^ la * 2)%Q).
  { rewrite two_power_plus. reflexivity. }
  assert (E4 : (2 ^ (lb + 1) == 2 ^ lb * 2)%Q).
  { rewrite two_power_plus. reflexivity. }
  assert (E5 : (2 ^ (la - lb) == 2 ^ (la - lb - 1) * 2)%Q).
  { rewrite <- (two_power_plus (la - lb - 1) 1).
    by replace (la - lb - 1 + 1)%Z with (la - lb)%Z by lia. }
  pose proof (two_power_pos (la - lb - 1)) as Pe'.
  set (x := (a # b)%Q) in *.
  destruct (Qle_bool (2 ^ (la - lb)) x) eqn:C.
  - apply Qle_bool_iff in C. split; [exact C|].
    rewrite E2. set (p := (2 ^ (la - lb))%Q) in *.
    set (pa := (2 ^ la)%Q) in *. set (pb := (2 ^ lb)%Q) in *.
    rewrite E3 in Ua'.
    (* x * B = A < 2 pa = 2 p pb <= 2 p B *)
    assert (T : (x * B < p * 2 * B)%Q) by nra.
    nra.
  - assert (C' : (x < 2 ^ (la - lb))%Q).
    { apply Qnot_le_lt. intros H. apply Qle_bool_iff in H. congruence. }
    replace (la - lb - 1 + 1)%Z with (la - lb)%Z by lia.
    split; [|exact C'].
    set (p := (2 ^ (la - lb - 1))%Q) in *.
    set (pa := (2 ^ la)%Q) in *. set (pb := (2 ^ lb)%Q) in *.
    rewrite E4 in Ub'. rewrite E5 in E1.
    (* p * 2 * pb = pa <= A = x B < x * 2 pb *)
    assert (T : (p * B <= x * B)%Q) by nra.
    nra.
Qed.

(** A positive binary64 number: a significand below [2^53] at an exponent
    no less than [-1074]. *)
Definition binary64 (x : Q) : Prop :=
  exists m k : Z, (0 < m < 2 ^ 53)%Z /\ (-1074 <= k)%Z
                  /\ (x == inject_Z m * 2 ^ k)%Q.

(** A binary64 number in the binade of [q] or above is on the grid
    that [q] is rounded on. *)
Lemma binary64_on_grid (q x : Q) :
  (0 < q)%Q -> (2 ^ ilog2 q <= x)%Q -> binary64 x ->
  exists n : Z, (x == inject_Z n * 2 ^ ulp_exponent q)%Q.
Proof.
  intros Hq L (m & k & Hm & Hk & E). unfold ulp_exponent.
  assert (I : ilog2 (Qabs q) = ilog2 q).
  { unfold ilog2. destruct q as [a b]. cbn [Qabs Qnum Qden].
    assert (0 < a)%Z by (unfold Qlt in Hq; cbn in Hq; lia).
    by rewrite Z.abs_eq by lia. }
  rewrite I. set (e := ilog2 q) in *.
  assert (K : (e - 52 <= k)%Z).
  { destruct (Z_le_gt_dec (e - 52) k) as [|G]; [assumption|exfalso].
    assert (P : (2 ^ k * 2 ^ 53 <= 2 ^ e)%Q).
    { rewrite <- two_power_plus. apply two_power_le. lia. }
    assert (M : (inject_Z m < 2 ^ 53)%Q).
    { rewrite <- two_power_inject by lia. rewrite <- Zlt_Qlt. lia. }
    pose proof (two_power_pos k).
    assert (T : (x < 2 ^ e)%Q) by (rewrite E; nra).
    lra. }
  set (u := Z.max (e - 52) (-1074)).
  assert (U : (u <= k)%Z) by lia.
  exists (m * 2 ^ (k - u))%Z.
  rewrite E, inject_Z_mult, two_power_inject by lia.
  rewrite <- Qmult_assoc, <- two_power_plus.
  by replace (k - u + u)%Z with k by lia.
Qed.

(** Rounding never passes a binary64 number: a bound that is one holds
    after rounding as before. *)
Lemma to_binary64_upper (q x : Q) :
  (0 <= q)%Q -> (q <= x)%Q -> binary64 x -> (to_binary64 q <= x)%Q.
Proof.
  intros Hq Hx Bx. unfold to_binary64.
  destruct (Qeq_bool q 0) eqn:Z0.
  - apply Qeq_bool_iff in Z0. lra.
  - assert (Q0 : (0 < q)%Q).
    { apply Qeq_bool_neq in Z0. destruct (Qlt_le_dec 0 q) as [|G]; [assumption|].
      exfalso. apply Z0. lra. }
    assert (L : (2 ^ ilog2 q <= x)%Q).
    { destruct (ilog2_spec q Q0) as [L _]. lra. }
    destruct (binary64_on_grid q x Q0 L Bx) as [n E].
    set (u := ulp_exponent q) in *. pose proof (two_power_pos u) as P.
    assert (R : (round_half_even (q / 2 ^ u) <= n)%Z).
    { apply round_half_even_upper.
      apply Qle_shift_div_r; [assumption|]. by rewrite <- E. }
    rewrite E. rewrite Zle_Qle in R. nra.
Qed.

(** A binary64 number is its own rounding. *)
Lemma to_binary64_exact (x : Q) : binary64 x -> (to_binary64 x == x)%Q.
Proof.
  intros Bx. assert (X0 : (0 < x)%Q).
  { destruct Bx as (m & k & Hm & _ & E). rewrite E.
    pose proof (two_power_pos k).
    assert (T : (0 < inject_Z m)%Q) by (change 0%Q with (inject_Z 0); rewrite <- Zlt_Qlt; lia).
    nra. }
  destruct (binary64_on_grid x x X0 (proj1 (ilog2_spec x X0)) Bx) as [n E].
  unfold to_binary64. destruct (Qeq_bool x 0) eqn:Z0.
  { apply Qeq_bool_iff in Z0. lra. }
  set (u := ulp_exponent x) in *. pose proof (two_power_pos u) as P.
  assert (D : (x / 2 ^ u == inject_Z n)%Q).
  { rewrite E at 1. field. lra. }
  rewrite (round_half_even_proper _ _ D), round_half_even_integer. by rewrite <- E.
Qed.

Lemma to_binary64_nonneg (q : Q) : (0 <= q)%Q -> (0 <= to_binary64 q)%Q.
Proof.
  intros Hq. unfold to_binary64. destruct (Qeq_bool q 0); [lra|].
  set (u := ulp_exponent q). pose proof (two_power_pos u) as P.
  assert (T : (0 <= q / 2 ^ u)%Q) by (apply Qle_shift_div_l; lra).
  pose proof (round_half_even_nonneg _ T) as N.
  rewrite Zle_Qle in N. change (inject_Z 0) with 0%Q in N. nra.
Qed.


Lemma ilog2_proper (x y : Q) : (0 < x)%Q -> (x == y)%Q -> ilog2 x = ilog2 y.
Proof.
  intros Hx E. assert (Hy : (0 < y)%Q) by lra.
  destruct (ilog2_spec x Hx) as [L1 U1]. destruct (ilog2_spec y Hy) as [L2 U2].
  destruct (Z.lt_trichotomy (ilog2 x) (ilog2 y)) as [H|[H|H]]; [exfalso|exact H|exfalso].
  - pose proof (two_power_le (ilog2 x + 1) (ilog2 y) ltac:(lia)). lra.
  - pose proof (two_power_le (ilog2 y + 1) (ilog2 x) ltac:(lia)). lra.
Qed.

#[global] Instance to_binary64_proper : Proper (Qeq ==> Qeq) to_binary64.
Proof.
  intros x y E. unfold to_binary64.
  destruct (Qeq_bool x 0) eqn:X0.
  - apply Qeq_bool_iff in X0. rewrite E in X0.
    by rewrite (proj2 (Qeq_bool_iff y 0) X0).
  - assert (Y0 : Qeq_bool y 0 = false).
    { apply not_true_is_false. intros H. apply Qeq_bool_iff in H.
      rewrite <- E in H. apply Qeq_bool_iff in H. congruence. }
    rewrite Y0.
    assert (U : ulp_exponent x = ulp_exponent y).
    { unfold ulp_exponent. f_equal. f_equal. apply ilog2_proper; [|by rewrite E].
      apply Qeq_bool_neq in X0. pose proof (Qabs_nonneg x) as H.
      destruct (Qlt_le_dec 0 (Qabs x)) as [|G]; [assumption|exfalso].
      assert (A0 : (Qabs x == 0)%Q) by lra.
      apply X0. revert A0. destruct x as [[|p|p] d]; unfold Qabs, Qeq; simpl; lia. }
    rewrite U.
    assert (D : (x / 2 ^ ulp_exponent y == y / 2 ^ ulp_exponent y)%Q) by (by rewrite E).
    by rewrite (round_half_even_proper _ _ D).
Qed.

Lemma round_half_even_ge (x : Q) (n : Z) :
  (inject_Z n <= x)%Q -> (n <= round_half_even x)%Z.
Proof.
  intros H. assert (F : (n <= Qfloor x)%Z).
  { rewrite <- (Qfloor_Z n). by apply Qfloor_resp_le. }
  unfold round_half_even.
  destruct (Qcompare _ _); [destruct (Z.even _)|..]; lia.
Qed.

Lemma binary64_pos (x : Q) : binary64 x -> (2 ^ (-1074) <= x)%Q.
Proof.
  intros (m & k & Hm & Hk & E). rewrite E.
  pose proof (two_power_le (-1074) k Hk) as P. pose proof (two_power_pos (-1074)).
  assert (M : (1 <= inject_Z m)%Q).
  { change 1%Q with (inject_Z 1). rewrite <- Zle_Qle. lia. }
  nra.
Qed.

(** Rounding is monotone at the binary64 numbers, from below as well. *)
Lemma to_binary64_lower (q x : Q) :
  binary64 x -> (x <= q)%Q -> (x <= to_binary64 q)%Q.
Proof.
  intros Bx Hx. pose proof (binary64_pos x Bx) as X0.
  pose proof (two_power_pos (-1074)) as P0.
  assert (Q0 : (0 < q)%Q) by lra.
  unfold to_binary64. destruct (Qeq_bool q 0) eqn:Z0.
  { apply Qeq_bool_iff in Z0. lra. }
  destruct (ilog2_spec q Q0) as [L U].
  assert (A : ulp_exponent q = Z.max (ilog2 q - 52) (-1074)).
  { unfold ulp_exponent. f_equal. f_equal. unfold ilog2. destruct q as [a b].
    cbn [Qabs Qnum Qden].
    assert (0 < a)%Z by (unfold Qlt in Q0; cbn in Q0; lia).
    by rewrite Z.abs_eq by lia. }
  set (e := ilog2 q) in *.
  assert (E0 : (-1074 <= e)%Z).
  { destruct (Z_le_gt_dec (-1074) e) as [|G]; [assumption|exfalso].
    pose proof (two_power_le (e + 1) (-1074) ltac:(lia)). lra. }
  pose proof (two_power_pos (ulp_exponent q)) as P.
  destruct (Qlt_le_dec x (2 ^ e)) as [Lt|Ge].
  - assert (R : (2 ^ (e - ulp_exponent q) <= round_half_even (q / 2 ^ ulp_exponent q))%Z).
    { apply round_half_even_ge. rewrite two_power_inject by lia.
      apply Qle_shift_div_l; [exact P|]. rewrite <- two_power_plus.
      by replace (e - ulp_exponent q + ulp_exponent q)%Z with e by lia. }
    rewrite Zle_Qle, two_power_inject in R by lia.
    assert (S : (2 ^ e == 2 ^ (e - ulp_exponent q) * 2 ^ ulp_exponent q)%Q).
    { rewrite <- two_power_plus.
      by replace (e - ulp_exponent q + ulp_exponent q)%Z with e by lia. }
    pose proof (two_power_pos (e - ulp_exponent q)). nra.
  - destruct (binary64_on_grid q x Q0 Ge Bx) as [n E].
    assert (R : (n <= round_half_even (q / 2 ^ ulp_exponent q))%Z).
    { apply round_half_even_ge. apply Qle_shift_div_l; [exact P|]. by rewrite <- E. }
    rewrite E. rewrite Zle_Qle in R. nra.
Qed.

(** A count below [2^53] is a float, and so is a sixteenth less. *)
Lemma count_binary64 (n : Z) : (0 < n < 2 ^ 53)%Z -> binary64 (inject_Z n).
Proof.
  intros H. exists n, 0%Z. split; [exact H|]. split; [lia|].
  change (2 ^ 0)%Q with 1%Q. ring.
Qed.

Lemma count_exact (n : Z) : (0 <= n < 2 ^ 53)%Z -> (to_binary64 (inject_Z n) == inject_Z n)%Q.
Proof.
  intros H. destruct (Z.eq_dec n 0%Z) as [->|N]; [reflexivity|].
  apply to_binary64_exact, count_binary64. lia.
Qed.

End Binary64.

(** ** Win rate *)

Section WinRate.
Import PyNum DataCleaner Tools.

(** The number of records whose Deal Status is [status]. *)
Definition status_count (status : string) (rs : list record) : nat :=
  length (List.filter (fun r => bool_decide (get r "Deal Status" = VStr status)) rs).

(** The records of the group [k] in grouping by the column [col]. *)
Definition group_of (col : string) (k : value) (rs : list record) : list record :=
  List.filter (fun r => bool_decide (group_key col r = k)) rs.

Definition hundred : Qc := Q2Qc 100.

(** Two binary64 numbers: the largest below 99.95, and the largest whose
    hundredfold does not exceed it. *)
Definition below_9995 : Q := inject_Z 1758338995139379 * 2 ^ (-44).
Definition ratio_bound : Q := inject_Z 2250673913778405 * 2 ^ (-51).

Lemma below_9995_binary64 : binary64 below_9995.
Proof.
  exists 1758338995139379%Z, (-44)%Z.
  split; [split; reflexivity|]. split; [discriminate|reflexivity].
Qed.

Lemma ratio_bound_binary64 : binary64 ratio_bound.
Proof.
  exists 2250673913778405%Z, (-51)%Z.
  split; [split; reflexivity|]. split; [discriminate|reflexivity].
Qed.

Lemma one_binary64 : binary64 1.
Proof.
  exists 1%Z, 0%Z. split; [split; reflexivity|]. split; [discriminate|reflexivity].
Qed.

Lemma hundred_binary64 : binary64 100.
Proof.
  exists 100%Z, 0%Z. split; [split; reflexivity|]. split; [discriminate|reflexivity].
Qed.

(** The float [round] sees in [pct]. *)
Definition scaled (a b : nat) : Q :=
  to_binary64 (to_binary64 (inject_Z (Z.of_nat a) / inject_Z (Z.of_nat b)) * 100).

Lemma pct_scaled a b :
  pct a b = Q2Qc (inject_Z (round_half_even (scaled a b * 10)) / 10).
Proof.
  unfold pct, round1. fold (scaled a b). f_equal. f_equal. f_equal.
  apply round_half_even_proper. simpl. by rewrite Qred_correct.
Qed.

Lemma ratio_nonneg a b : (0 <= inject_Z (Z.of_nat a) / inject_Z (Z.of_nat b))%Q.
Proof.
  destruct b as [|b].
  - change (inject_Z (Z.of_nat 0)) with 0%Q. unfold Qdiv. rewrite Qmult_comm.
    cbn. unfold Qle. simpl. lia.
  - apply Qle_shift_div_l.
    + change 0%Q with (inject_Z 0). rewrite <- Zlt_Qlt. lia.
    + rewrite Qmult_0_l. change 0%Q with (inject_Z 0). rewrite <- Zle_Qle. lia.
Qed.

Lemma scaled_upper a b (x y : Q) :
  binary64 x -> binary64 y ->
  (inject_Z (Z.of_nat a) / inject_Z (Z.of_nat b) <= x)%Q -> (x * 100 <= y)%Q ->
  (scaled a b <= y)%Q.
Proof.
  intros Bx By Hx Hy. unfold scaled.
  pose proof (ratio_nonneg a b) as N.
  pose proof (to_binary64_nonneg _ N) as N'.
  pose proof (to_binary64_upper _ x N Hx Bx) as U.
  apply to_binary64_upper; [lra|lra|exact By].
Qed.

Lemma scaled_nonneg a b : (0 <= scaled a b)%Q.
Proof.
  unfold scaled. apply to_binary64_nonneg.
  pose proof (to_binary64_nonneg _ (ratio_nonneg a b)). lra.
Qed.

Lemma tenths_eq (z n : Z) :
  Q2Qc (inject_Z z / 10) = Q2Qc (inject_Z n / 10) -> z = n.
Proof.
  intros H. apply (f_equal this) in H. simpl in H.
  assert (E : (inject_Z z / 10 == inject_Z n / 10)%Q).
  { by rewrite <- (Qred_correct (inject_Z z / 10)), H, Qred_correct. }
  unfold Qeq, Qdiv, Qmult, Qinv, inject_Z in E. simpl in E. lia.
Qed.

(** The rounding of the quotient shows: 23 of 80 is 28.75 exactly, and
    28.7 once the quotient and the product are floats; 49 of 80 is 61.25
    exactly, and 61.3. *)
Example pct_rounds_floats :
  pct 23 80 = Q2Qc (287 # 10) /\ pct 49 80 = Q2Qc (613 # 10)
  /\ pct 1 3 = Q2Qc (333 # 10) /\ pct 9999 10000 = hundred.
Proof. repeat split; apply Qc_is_canon; vm_compute; reflexivity. Qed.

(** All won: the quotient is 1, the product 100, and nothing is rounded. *)
Lemma pct_all a : 0 < a -> pct a a = hundred.
Proof.
  intros H. rewrite pct_scaled.
  assert (A : (0 < inject_Z (Z.of_nat a))%Q).
  { change 0%Q with (inject_Z 0). rewrite <- Zlt_Qlt. lia. }
  assert (R : (inject_Z (Z.of_nat a) / inject_Z (Z.of_nat a) == 1)%Q) by (field; lra).
  assert (S : (scaled a a == 100)%Q).
  { apply Qle_antisym.
    - apply (scaled_upper a a 1 100); [apply one_binary64|apply hundred_binary64|lra|lra].
    - unfold scaled.
      assert (B1 : binary64 (inject_Z (Z.of_nat a) / inject_Z (Z.of_nat a))).
      { destruct one_binary64 as (m & k & Hm & Hk & E). exists m, k.
        split; [exact Hm|]. split; [exact Hk|]. by rewrite R. }
      pose proof (to_binary64_exact _ B1) as E1.
      assert (B2 : binary64 (to_binary64 (inject_Z (Z.of_nat a) / inject_Z (Z.of_nat a)) * 100)).
      { destruct hundred_binary64 as (m & k & Hm & Hk & E). exists m, k.
        split; [exact Hm|]. split; [exact Hk|]. rewrite <- E, E1, R. reflexivity. }
      pose proof (to_binary64_exact _ B2) as E2. rewrite E2, E1, R. lra. }
  assert (T : (scaled a a * 10 == inject_Z 1000)%Q) by (rewrite S; reflexivity).
  rewrite (round_half_even_proper _ _ T), round_half_even_integer.
  apply Qc_is_canon. reflexivity.
Qed.

(** A reported 100 needs a ratio above [ratio_bound]. *)
Lemma pct_hundred a b :
  pct a b = hundred ->
  (ratio_bound < inject_Z (Z.of_nat a) / inject_Z (Z.of_nat b))%Q.
Proof.
  intros H. apply Qnot_le_lt. intros L.
  assert (U : (scaled a b <= below_9995)%Q).
  { apply (scaled_upper a b ratio_bound below_9995);
      [apply ratio_bound_binary64|apply below_9995_binary64|exact L|].
    vm_compute. discriminate. }
  rewrite pct_scaled in H. unfold hundred in H.
  assert (E : Q2Qc 100 = Q2Qc (inject_Z 1000 / 10)) by (apply Qc_is_canon; reflexivity).
  rewrite E in H. apply tenths_eq in H.
  pose proof (round_half_even_lower (scaled a b * 10)) as Lo. rewrite H in Lo.
  assert (V : (below_9995 * 10 < inject_Z 1000 - (1 # 2))%Q) by (vm_compute; reflexivity).
  lra.
Qed.

(** The rate lies between 0 and 100 and has one decimal. *)
Lemma pct_range a b :
  a <= b -> 0 < b ->
  exists z : Z, (0 <= z <= 1000)%Z /\ pct a b = Q2Qc (inject_Z z / 10).
Proof.
  intros Hab Hb. exists (round_half_even (scaled a b * 10)).
  split; [|apply pct_scaled].
  assert (B : (0 < inject_Z (Z.of_nat b))%Q).
  { change 0%Q with (inject_Z 0). rewrite <- Zlt_Qlt. lia. }
  assert (R : (inject_Z (Z.of_nat a) / inject_Z (Z.of_nat b) <= 1)%Q).
  { apply Qle_shift_div_r; [exact B|]. rewrite Qmult_1_l, <- Zle_Qle. lia. }
  assert (U : (scaled a b <= 100)%Q).
  { apply (scaled_upper a b 1 100); [apply one_binary64|apply hundred_binary64|exact R|lra]. }
  pose proof (scaled_nonneg a b) as N. split.
  - apply round_half_even_nonneg. lra.
  - apply round_half_even_upper. change (inject_Z 1000) with 1000%Q. lra.
Qed.

Lemma breakdown_count field (rs : list record) (d : gmap value nat) k :
  default 0 (foldl (fun d r => let k := group_key field r in
                               <[k := default 0 (d !! k) + 1]> d) d rs !! k)
  = default 0 (d !! k)
    + length (List.filter (fun r => bool_decide (group_key field r = k)) rs).
Proof.
  revert d. induction rs as [|r rs IH]; intros d; simpl; [lia|].
  rewrite IH. destruct (decide (group_key field r = k)) as [->|Hne].
  - rewrite lookup_insert_eq, bool_decide_eq_true_2 by done. simpl. lia.
  - rewrite lookup_insert_ne, bool_decide_eq_false_2 by done. simpl. lia.
Qed.

Lemma group_key_status (r : record) (status : string) :
  status <> "" -> status <> "Unknown" ->
  group_key "Deal Status" r = VStr status <-> get r "Deal Status" = VStr status.
Proof.
  intros Hne Hunk. unfold group_key, py_or.
  destruct (truthy (get r "Deal Status")) eqn:T; [reflexivity|].
  split.
  - intros [= H]. by subst.
  - intros H. rewrite H in T. simpl in T.
    apply negb_false_iff, String.eqb_eq in T. contradiction.
Qed.

Lemma breakdown_status (rs : list record) (status : string) :
  status <> "" -> status <> "Unknown" ->
  default 0 (breakdown "Deal Status" rs !! VStr status) = status_count status rs.
Proof.
  intros Hne Hunk. unfold breakdown. rewrite breakdown_count, lookup_empty. simpl.
  unfold status_count. f_equal. induction rs as [|r rs IH]; simpl; [reflexivity|].
  rewrite IH.
  destruct (decide (get r "Deal Status" = VStr status)) as [E|E].
  - rewrite !bool_decide_eq_true_2; [reflexivity|done|by apply group_key_status].
  - rewrite !bool_decide_eq_false_2; [reflexivity|done|].
    by rewrite group_key_status.
Qed.

Lemma win_rate_none won decided : win_rate won decided = None <-> decided = 0.
Proof.
  unfold win_rate. destruct decided; simpl; split; congruence || lia.
Qed.

Lemma win_rate_all_won won : 0 < won -> win_rate won (won + 0) = Some hundred.
Proof.
  intros H. unfold win_rate. rewrite Nat.add_0_r.
  destruct (Nat.ltb_spec 0 won); [|lia]. f_equal. by apply pct_all.
Qed.

Lemma win_rate_hundred won dead :
  win_rate won (won + dead) = Some hundred ->
  0 < won /\ 1998 * dead <= won
  /\ ((Z.of_nat (won + dead) < 2 ^ 40)%Z -> 1999 * dead <= won).
Proof.
  unfold win_rate. destruct (Nat.ltb_spec 0 (won + dead)) as [Hd|]; [|discriminate].
  intros H0. assert (H : pct won (won + dead) = hundred) by congruence.
  clear H0. apply pct_hundred in H.
  assert (D : (0 < inject_Z (Z.of_nat (won + dead)))%Q).
  { change 0%Q with (inject_Z 0). rewrite <- Zlt_Qlt. lia. }
  assert (M : (ratio_bound * inject_Z (Z.of_nat (won + dead)) < inject_Z (Z.of_nat won))%Q).
  { destruct (Qlt_le_dec (ratio_bound * inject_Z (Z.of_nat (won + dead)))
                         (inject_Z (Z.of_nat won))) as [|G]; [assumption|exfalso].
    apply Qle_shift_div_r in G; [|exact D]. lra. }
  clear H. rename M into H.
  assert (K : (2250673913778405 * Z.of_nat (won + dead) < 2251799813685248 * Z.of_nat won)%Z).
  { unfold ratio_bound in H.
    assert (P : (2 ^ (-51) == 1 # 2251799813685248)%Q) by reflexivity.
    rewrite P in H. unfold Qlt, Qmult, inject_Z in H. simpl in H. lia. }
  lia.
Qed.
Lemma group_records_lookup col (rs : list record) (g : gmap value (list record)) k :
  default [] (foldl (fun groups r =>
                       let key := group_key col r in
                       <[key := default [] (groups !! key) ++ [r]]> groups) g rs !! k)
  = default [] (g !! k) ++ group_of col k rs.
Proof.
  revert g. induction rs as [|r rs IH]; intros g; simpl; [by rewrite app_nil_r|].
  rewrite IH. unfold group_of. simpl.
  destruct (decide (group_key col r = k)) as [->|Hne].
  - rewrite lookup_insert_eq, bool_decide_eq_true_2 by done. simpl.
    by rewrite <- app_assoc.
  - by rewrite lookup_insert_ne, bool_decide_eq_false_2 by done.
Qed.

Lemma group_records_nonempty col (rs : list record) (g : gmap value (list record)) :
  (forall k v, g !! k = Some v -> v <> []) ->
  forall k v,
    foldl (fun groups r =>
             let key := group_key col r in
             <[key := default [] (groups !! key) ++ [r]]> groups) g rs !! k = Some v ->
    v <> [].
Proof.
  revert g. induction rs as [|r rs IH]; intros g Hg k v; simpl; [apply Hg|].
  apply IH. intros k' v'.
  destruct (decide (group_key col r = k')) as [->|Hne].
  - rewrite lookup_insert_eq. intros [= <-]. by destruct (default [] _).
  - rewrite lookup_insert_ne by done. apply Hg.
Qed.

Lemma aggregate_win_rate_lookup group_by cleaned k e :
  aggregate_win_rate group_by cleaned !! k = Some e ->
  e = win_rate_group k (group_of (deals_group_col group_by) k cleaned)
  /\ group_of (deals_group_col group_by) k cleaned <> [].
Proof.
  unfold aggregate_win_rate. rewrite map_lookup_imap.
  destruct (group_records _ cleaned !! k) as [v|] eqn:E; [|discriminate].
  simpl. intros [= <-].
  pose proof (group_records_lookup (deals_group_col group_by) cleaned ∅ k) as H.
  rewrite lookup_empty in H. simpl in H.
  unfold group_records in E. rewrite E in H. simpl in H. subst v.
  split; [reflexivity|].
  eapply group_records_nonempty; [|exact E].
  intros ? ?. by rewrite lookup_empty.
Qed.

Definition won_record : record := {[ "Deal Status" := VStr "Won" ]}.
Definition dead_record : record := {[ "Deal Status" := VStr "Dead" ]}.
Definition nearly_all_won : list record := repeat won_record 9999 ++ [dead_record].

Lemma status_count_repeat status r n :
  status_count status (repeat r n)
  = if bool_decide (get r "Deal Status" = VStr status) then n else 0.
Proof.
  unfold status_count. induction n as [|n IH]; simpl.
  - by destruct (bool_decide _).
  - destruct (bool_decide _) eqn:E; simpl; lia.
Qed.

Lemma status_count_app status a b :
  status_count status (a ++ b) = status_count status a + status_count status b.
Proof. unfold status_count. by rewrite List.filter_app, length_app. Qed.

(** C1, as stated, fails: with 9999 deals won and one dead the reported
    rate is 100.0 although a deal is dead. *)
Lemma win_rate_100_counterexample :
  ~ (win_rate_pct (query_deals_board_stats nearly_all_won) = Some hundred ->
     status_count "Dead" nearly_all_won = 0
     /\ 0 < status_count "Won" nearly_all_won).
Proof.
  assert (W : status_count "Won" nearly_all_won = 9999).
  { unfold nearly_all_won. rewrite status_count_app, status_count_repeat.
    reflexivity. }
  assert (D : status_count "Dead" nearly_all_won = 1).
  { unfold nearly_all_won. rewrite status_count_app, status_count_repeat.
    reflexivity. }
  intros H. rewrite D in H. cut (1 = 0 /\ 0 < status_count "Won" nearly_all_won); [lia|].
  apply H. unfold query_deals_board_stats. cbn [win_rate_pct].
  rewrite !breakdown_status by discriminate. rewrite W, D.
  unfold win_rate. cbn [Nat.ltb Nat.leb Nat.add]. f_equal.
  apply Qc_is_canon. vm_compute. reflexivity.
Qed.

(** C1 (amended): for every filtered set of deal records, with won and
    dead the numbers of records whose Deal Status is "Won" and "Dead",
    [query_deals_board] reports those two counts and
    win_rate_pct = round(won/(won+dead)*100, 1), computed in binary64 as
    the code computes it, when won+dead > 0, and null exactly when
    won+dead = 0; no other status enters the computation; the rate is
    100 whenever dead = 0 and won > 0, and a reported 100 needs won > 0
    and won >= 1998*dead, and won >= 1999*dead when fewer than 2^40
    deals are decided (the ratio rounds to 100.0 at one decimal), so
    dead need not be 0.  The same holds for the entry of every group of
    [aggregate_metrics] with metric "win_rate", over the records of that
    group. *)
Theorem win_rate_reported (filtered cleaned : list record) (group_by : string) :
  let st := query_deals_board_stats filtered in
  let won := status_count "Won" filtered in
  let dead := status_count "Dead" filtered in
  (won_count st = won /\ dead_count st = dead
   /\ win_rate_pct st
      = (if 0 <? won + dead then Some (pct won (won + dead)) else None)
   /\ (win_rate_pct st = None <-> won + dead = 0)
   /\ (dead = 0 -> 0 < won -> win_rate_pct st = Some hundred)
   /\ (win_rate_pct st = Some hundred ->
       0 < won /\ 1998 * dead <= won
       /\ ((Z.of_nat (won + dead) < 2 ^ 40)%Z -> 1999 * dead <= won)))
  /\ (forall k e,
        aggregate_win_rate group_by cleaned !! k = Some e ->
        let v := group_of (deals_group_col group_by) k cleaned in
        let won := status_count "Won" v in
        let dead := status_count "Dead" v in
        v <> []
        /\ entry_won e = won /\ entry_dead e = dead
        /\ entry_total_decided e = won + dead
        /\ entry_win_rate_pct e
           = (if 0 <? won + dead then Some (pct won (won + dead)) else None)
        /\ (entry_win_rate_pct e = None <-> won + dead = 0)
        /\ (dead = 0 -> 0 < won -> entry_win_rate_pct e = Some hundred)
        /\ (entry_win_rate_pct e = Some hundred ->
            0 < won /\ 1998 * dead <= won
            /\ ((Z.of_nat (won + dead) < 2 ^ 40)%Z -> 1999 * dead <= won))).
Proof.
  intros st won dead. split.
  - unfold st, query_deals_board_stats.
    cbn [won_count dead_count win_rate_pct].
    rewrite !breakdown_status by discriminate. fold won dead.
    do 3 (split; [reflexivity|]).
    split; [apply win_rate_none|].
    split; [intros Hd Hw; rewrite Hd; by apply win_rate_all_won|].
    intros Hr. by apply win_rate_hundred in Hr.
  - intros k e He v gwon gdead.
    destruct (aggregate_win_rate_lookup _ _ _ _ He) as [-> Hv].
    fold v in Hv |- *. unfold win_rate_group, count_status, count_if, py_eqb.
    cbn [entry_won entry_dead entry_total_decided entry_win_rate_pct].
    change (length (List.filter (fun r => bool_decide (get r "Deal Status" = VStr "Won")) v))
      with gwon.
    change (length (List.filter (fun r => bool_decide (get r "Deal Status" = VStr "Dead")) v))
      with gdead.
    split; [exact Hv|].
    do 4 (split; [reflexivity|]).
    split; [apply win_rate_none|].
    split; [intros Hd Hw; rewrite Hd; by apply win_rate_all_won|].
    intros Hr. by apply win_rate_hundred in Hr.
Qed.

End WinRate.

(** ** Cross-board join *)

Section CrossBoard.
Import PyNum DataCleaner Tools.

(** What a field adds to a total: its number, and 0 when it is null. *)
Definition contribution (v : value) : pyfloat :=
  match v with VNum x => x | _ => fzero end.

(** The total of [field] over [rs], null values counting as 0. *)
Definition field_total (field : string) (rs : list record) : pyfloat :=
  foldl (fun a r => fadd a (contribution (get r field))) fzero rs.

(** The work orders bearing the deal name [name]. *)
Definition bearing (name : value) (wos : list record) : list record :=
  List.filter (fun w => bool_decide (get w wo_name_field = name)) wos.

(** A value [sum] accepts: anything but a non-empty string. *)
Definition summable (v : value) : bool :=
  match v with VStr s => String.eqb s "" | _ => true end.

Definition numeric_or_null (v : value) : Prop :=
  v = VNone \/ exists x, v = VNum x.

Definition deal_typed (d : record) : Prop :=
  numeric_or_null (get d "Masked Deal value").

Definition wo_typed (w : record) : Prop :=
  numeric_or_null (get w amount_field) /\ numeric_or_null (get w billed_field)
  /\ numeric_or_null (get w collected_field)
  /\ numeric_or_null (get w receivable_field).

(** The names that are not null, as the claim words it. *)
Definition non_null_names (field : string) (rs : list record) : gset value :=
  list_to_set (List.filter (fun v => negb (is_none v)) (map (fun r => get r field) rs)).

Definition unnamed_deal : record := {[ "name" := VStr "" ]}.
Definition unnamed_wo : record := {[ "Deal name masked" := VStr "" ]}.

Lemma fadd_zero_r a : fadd a fzero = a.
Proof.
  destruct a as [q| |]; simpl; try reflexivity.
  f_equal. apply Qcplus_0_r.
Qed.

Lemma py_or_zero (v : value) x :
  py_or v (VNum fzero) = VNum x -> x = contribution v.
Proof.
  unfold py_or. destruct v as [|s|[q| |]]; simpl; try congruence.
  - destruct (negb (String.eqb s "")); congruence.
  - destruct (bool_decide (q = 0%Qc)) eqn:E; simpl; [|congruence].
    apply bool_decide_eq_true in E. subst. by intros [= <-].
Qed.

Lemma py_sum_none items :
  foldl (fun acc v => a ← acc; match v with VNum x => Some (fadd a x) | _ => None end)
        None items = (None : option pyfloat).
Proof. induction items; simpl; auto. Qed.

Lemma sum_field_eq field (rs : list record) :
  sum_field field rs
  = if forallb (fun r => summable (get r field)) rs
    then Some (field_total field rs) else None.
Proof.
  unfold sum_field, py_sum, field_total.
  cut (forall acc,
         foldl (fun acc v => a ← acc;
                             match v with VNum x => Some (fadd a x) | _ => None end)
               (Some acc) (money_items field rs)
         = if forallb (fun r => summable (get r field)) rs
           then Some (foldl (fun a r => fadd a (contribution (get r field))) acc rs)
           else None); [intros G; apply G|].
  unfold money_items.
  induction rs as [|r rs IH]; intros acc; [reflexivity|].
  cbn [List.filter forallb foldl].
  destruct (get r field) as [|s|x] eqn:E; cbn [is_none negb summable contribution andb].
  - rewrite fadd_zero_r. apply IH.
  - cbn [map foldl]. rewrite E. unfold py_or at 1. cbn [truthy].
    destruct (String.eqb s ""); cbn [negb mbind option_bind].
    + rewrite fadd_zero_r. apply IH.
    + apply py_sum_none.
  - cbn [map foldl]. rewrite E.
    destruct (py_or (VNum x) (VNum fzero)) as [|s|y] eqn:P.
    + unfold py_or in P. destruct (truthy (VNum x)); discriminate.
    + unfold py_or in P. destruct (truthy (VNum x)); discriminate.
    + apply py_or_zero in P. simpl in P. subst y. cbn [mbind option_bind].
      apply IH.
Qed.

Lemma numeric_summable v : numeric_or_null v -> summable v = true.
Proof. intros [->|[x ->]]; reflexivity. Qed.

Lemma sum_field_typed field (rs : list record) :
  Forall (fun r => numeric_or_null (get r field)) rs ->
  sum_field field rs = Some (field_total field rs).
Proof.
  intros H. rewrite sum_field_eq.
  assert (E : forallb (fun r => summable (get r field)) rs = true).
  { apply forallb_forall. intros r Hr. apply numeric_summable.
    rewrite List.Forall_forall in H. by apply H. }
  by rewrite E.
Qed.

Lemma sum_field_total field rs a :
  sum_field field rs = Some a -> a = field_total field rs.
Proof.
  rewrite sum_field_eq. destruct (forallb _ rs); congruence.
Qed.

Lemma format_currency_number x : is_Some (_format_currency (VNum x)).
Proof.
  unfold _format_currency.
  destruct (fge x _); [eauto|]. destruct (fge x _); eauto.
Qed.

Lemma format_currency_typed v : numeric_or_null v -> is_Some (_format_currency v).
Proof. intros [->|[x ->]]; [by eexists|apply format_currency_number]. Qed.

Lemma matching_wos_bearing wos name : matching_wos wos name = bearing name wos.
Proof. reflexivity. Qed.

Lemma elem_of_name_set field (rs : list record) n :
  n ∈ name_set field rs <-> truthy n = true /\ exists r, r ∈ rs /\ get r field = n.
Proof.
  unfold name_set. rewrite elem_of_list_to_set, list_elem_of_In, filter_In, in_map_iff.
  split.
  - intros [(r & <- & Hr) Ht]. split; [done|]. exists r.
    by rewrite list_elem_of_In.
  - intros [Ht (r & Hr & <-)]. split; [|done]. exists r.
    by rewrite <- list_elem_of_In.
Qed.

Lemma find_deal_some deals n :
  (exists d, d ∈ deals /\ get d "name" = n) ->
  exists d, find_deal deals n = Some d /\ d ∈ deals /\ get d "name" = n.
Proof.
  intros (d & Hd & Hn). unfold find_deal.
  destruct (List.find _ deals) as [d'|] eqn:F.
  - apply find_some in F as [Hin Heq]. exists d'.
    apply bool_decide_eq_true in Heq. by rewrite list_elem_of_In.
  - exfalso. apply list_elem_of_In in Hd.
    pose proof (find_none _ _ F d Hd) as C. unfold py_eqb in C.
    rewrite bool_decide_eq_true_2 in C by done. discriminate.
Qed.

Lemma named_deal_nonempty (d : record) n :
  truthy n = true -> get d "name" = n -> d <> ∅.
Proof.
  intros Ht Hn ->. unfold get in Hn. rewrite lookup_empty in Hn. simpl in Hn.
  by subst n.
Qed.

(** What [lifecycle_for] appends for a name, spelled out. *)
Definition entry_of (deals wos : list record) (e : lifecycle_entry) : Prop :=
  exists d, find_deal deals (deal_name e) = Some d
    /\ d ∈ deals /\ get d "name" = deal_name e
    /\ deal_status e = get d "Deal Status"
    /\ deal_stage e = get d "Deal Stage"
    /\ deal_value e = get d "Masked Deal value"
    /\ sector e = get d "Sector/service"
    /\ owner e = get d "Owner code"
    /\ work_order_count e = length (bearing (deal_name e) wos)
    /\ wo_total_amount e = field_total amount_field (bearing (deal_name e) wos)
    /\ wo_total_billed e = field_total billed_field (bearing (deal_name e) wos)
    /\ wo_total_collected e
       = field_total collected_field (bearing (deal_name e) wos)
    /\ wo_total_receivable e
       = field_total receivable_field (bearing (deal_name e) wos)
    /\ wo_statuses e
       = map (fun w => get w "Execution Status") (bearing (deal_name e) wos).

Lemma lifecycle_for_entry deals wos n r :
  truthy n = true -> (exists d, d ∈ deals /\ get d "name" = n) ->
  lifecycle_for deals wos n = Some r ->
  exists e, r = Some e /\ deal_name e = n /\ entry_of deals wos e.
Proof.
  intros Ht Hex. destruct (find_deal_some deals n Hex) as (d & Hf & Hd & Hn).
  unfold lifecycle_for. rewrite Hf.
  rewrite bool_decide_eq_false_2 by (by apply (named_deal_nonempty d n)).
  rewrite matching_wos_bearing.
  destruct (sum_field amount_field _) as [a|] eqn:Ea; [|discriminate].
  destruct (sum_field billed_field _) as [b|] eqn:Eb; [|discriminate].
  destruct (sum_field collected_field _) as [c|] eqn:Ec; [|discriminate].
  destruct (sum_field receivable_field _) as [v|] eqn:Ev; [|discriminate].
  cbn [mbind option_bind].
  destruct (_format_currency (get d "Masked Deal value")); [|discriminate].
  destruct (_format_currency (VNum a)); [|discriminate].
  destruct (_format_currency (VNum b)); [|discriminate].
  destruct (_format_currency (VNum c)); [|discriminate].
  destruct (_format_currency (VNum v)); [|discriminate].
  cbn [mbind option_bind]. intros [= <-]. eexists. split; [reflexivity|].
  split; [reflexivity|]. exists d. cbn.
  apply sum_field_total in Ea, Eb, Ec, Ev. by repeat split.
Qed.

Lemma lifecycle_for_total deals wos n :
  Forall deal_typed deals -> Forall wo_typed wos ->
  is_Some (lifecycle_for deals wos n).
Proof.
  intros Hd Hw. unfold lifecycle_for.
  destruct (find_deal deals n) as [d|] eqn:F; [|by eexists].
  destruct (bool_decide (d = ∅)); [by eexists|].
  assert (Hb : Forall wo_typed (matching_wos wos n)).
  { apply List.Forall_forall. intros w Hin. apply filter_In in Hin as [Hin _].
    rewrite List.Forall_forall in Hw. by apply Hw. }
  rewrite !sum_field_typed.
  2-5: eapply List.Forall_impl; [|exact Hb]; intros w (H1 & H2 & H3 & H4); done.
  cbn [mbind option_bind].
  assert (Hdt : deal_typed d).
  { apply find_some in F as [Hin _]. rewrite List.Forall_forall in Hd. by apply Hd. }
  destruct (format_currency_typed _ Hdt) as [t ->].
  destruct (format_currency_number (field_total amount_field (matching_wos wos n))) as [? ->].
  destruct (format_currency_number (field_total billed_field (matching_wos wos n))) as [? ->].
  destruct (format_currency_number (field_total collected_field (matching_wos wos n))) as [? ->].
  destruct (format_currency_number (field_total receivable_field (matching_wos wos n))) as [? ->].
  by eexists.
Qed.

Lemma build_lifecycle_total deals wos names :
  Forall deal_typed deals -> Forall wo_typed wos ->
  is_Some (build_lifecycle deals wos names).
Proof.
  intros Hd Hw. induction names as [|n names [l IH]]; simpl; [by eexists|].
  destruct (lifecycle_for_total deals wos n Hd Hw) as [r ->].
  rewrite IH. by eexists.
Qed.

Lemma build_lifecycle_entries deals wos names l :
  (forall n, n ∈ names ->
             truthy n = true /\ exists d, d ∈ deals /\ get d "name" = n) ->
  build_lifecycle deals wos names = Some l ->
  map deal_name l = names /\ Forall (entry_of deals wos) l.
Proof.
  revert l. induction names as [|n names IH]; intros l Hn; simpl.
  - intros [= <-]. split; [reflexivity|constructor].
  - destruct (lifecycle_for deals wos n) as [r|] eqn:E; [|discriminate].
    destruct (build_lifecycle deals wos names) as [rest|] eqn:B; [|discriminate].
    cbn [mbind option_bind]. intros [= <-].
    destruct (Hn n) as [Ht Hex]; [constructor|].
    destruct (lifecycle_for_entry deals wos n r Ht Hex E) as (e & -> & He & Hent).
    destruct (IH rest) as [Hm Hf]; [|reflexivity|].
    { intros m Hm. apply Hn. by constructor. }
    split; [simpl; by rewrite He, Hm|by constructor].
Qed.

(** C2, as stated, fails: a deal and a work order whose names are the
    empty string have a non-null name in common, yet no common deal is
    counted. *)
Lemma empty_name_counterexample :
  exists res,
    cross_board_join [unnamed_deal] [unnamed_wo] = Some res
    /\ common_deal_count res
       <> size (non_null_names "name" [unnamed_deal]
                ∩ non_null_names wo_name_field [unnamed_wo]).
Proof.
  destruct (cross_board_join [unnamed_deal] [unnamed_wo]) as [res|] eqn:E.
  - exists res. split; [reflexivity|].
    unfold cross_board_join in E.
    destruct (build_lifecycle _ _ _); [|discriminate].
    destruct (sum_field "Masked Deal value" _); [|discriminate].
    destruct (sum_field amount_field _); [|discriminate].
    destruct (sum_field billed_field _); [|discriminate].
    destruct (sum_field collected_field _); [|discriminate].
    cbn [mbind option_bind] in E. injection E as <-. cbn [common_deal_count].
    vm_compute. discriminate.
  - exfalso.
    assert (T : is_Some (cross_board_join [unnamed_deal] [unnamed_wo])).
    { unfold cross_board_join.
      destruct (build_lifecycle_total [unnamed_deal] [unnamed_wo]
                  (elements (name_set "name" [unnamed_deal]
                             ∩ name_set wo_name_field [unnamed_wo]))) as [l ->].
      - repeat constructor.
      - repeat constructor.
      - rewrite !sum_field_typed by (repeat constructor). by eexists. }
    rewrite E in T. by destruct T.
Qed.

(** C2 (amended): with D the set of deal names in the deals records and
    W the set of deal names in the work-order records, counting only
    names that are neither null nor empty, [cross_board_analysis]
    reports common_deal_count = |D ∩ W|, deals_only_count = |D \ W| and
    wo_only_count = |W \ D|; it produces exactly one lifecycle entry per
    common name, attached to the first deal record of that name, whose
    four work-order totals are sums over the work orders bearing that
    name, null values contributing 0; and it returns whenever the
    monetary fields hold numbers or null.  With D = {Alpha, Beta} and
    W = {Beta, Gamma} the counts are 1, 1, 1 and the only entry is for
    Beta. *)
Theorem cross_board_join_counts (deals wos : list record) :
  let D := name_set "name" deals in
  let W := name_set wo_name_field wos in
  (Forall deal_typed deals -> Forall wo_typed wos ->
   is_Some (cross_board_join deals wos))
  /\ (forall n, n ∈ D <-> truthy n = true /\ exists d, d ∈ deals /\ get d "name" = n)
  /\ (forall n, n ∈ W <-> truthy n = true
                          /\ exists w, w ∈ wos /\ get w wo_name_field = n)
  /\ forall res, cross_board_join deals wos = Some res ->
       common_deal_count res = size (D ∩ W)
       /\ deals_only_count res = size (D ∖ W)
       /\ wo_only_count res = size (W ∖ D)
       /\ length (lifecycle res) = size (D ∩ W)
       /\ NoDup (map deal_name (lifecycle res))
       /\ (forall n, n ∈ map deal_name (lifecycle res) <-> n ∈ D ∩ W)
       /\ Forall (entry_of deals wos) (lifecycle res)
       /\ (D = {[VStr "Alpha"; VStr "Beta"]} ->
           W = {[VStr "Beta"; VStr "Gamma"]} ->
           common_deal_count res = 1 /\ deals_only_count res = 1
           /\ wo_only_count res = 1
           /\ exists e, lifecycle res = [e] /\ deal_name e = VStr "Beta").
Proof.
  intros D W. split; [|split; [|split]].
  - intros Hd Hw. unfold cross_board_join.
    destruct (build_lifecycle_total deals wos
                (elements (name_set "name" deals ∩ name_set wo_name_field wos))
                Hd Hw) as [l ->].
    rewrite !sum_field_typed; [by eexists|..].
    all: eapply List.Forall_impl; [|first [exact Hw|exact Hd]].
    all: first [ intros w (H1 & H2 & H3 & H4); assumption | intros d H; exact H ].
  - intros n. apply elem_of_name_set.
  - intros n. apply elem_of_name_set.
  - intros res. unfold cross_board_join. fold D W.
    destruct (build_lifecycle deals wos (elements (D ∩ W))) as [l|] eqn:B;
      [|discriminate].
    destruct (sum_field "Masked Deal value" deals); [|discriminate].
    destruct (sum_field amount_field wos); [|discriminate].
    destruct (sum_field billed_field wos); [|discriminate].
    destruct (sum_field collected_field wos); [|discriminate].
    cbn [mbind option_bind]. intros [= <-].
    cbn [common_deal_count deals_only_count wo_only_count lifecycle].
    apply build_lifecycle_entries in B as [Hm Hf].
    2: { intros n Hn. apply elem_of_elements, elem_of_intersection in Hn as [Hn _].
         by apply elem_of_name_set in Hn. }
    assert (Hlen : length l = size (D ∩ W)).
    { rewrite <- (length_map deal_name), Hm. reflexivity. }
    do 3 (split; [reflexivity|]). split; [exact Hlen|].
    split; [rewrite Hm; apply NoDup_elements|].
    split; [intros n; rewrite Hm; apply elem_of_elements|].
    split; [exact Hf|].
    intros HD HW.
    assert (Hc : D ∩ W = {[VStr "Beta"]}).
    { rewrite HD, HW. apply set_eq. intros x.
      rewrite elem_of_intersection, !elem_of_union, !elem_of_singleton.
      split; [intros [[->| ->] [H| H]]; congruence|].
      intros ->. split; [by right|by left]. }
    assert (Hdo : D ∖ W = {[VStr "Alpha"]}).
    { rewrite HD, HW. apply set_eq. intros x.
      rewrite elem_of_difference, !elem_of_union, !elem_of_singleton.
      split.
      - intros [[->| ->] H]; [reflexivity|]. exfalso. apply H. by left.
      - intros ->. split; [by left|]. intros [H|H]; discriminate. }
    assert (Hwo : W ∖ D = {[VStr "Gamma"]}).
    { rewrite HD, HW. apply set_eq. intros x.
      rewrite elem_of_difference, !elem_of_union, !elem_of_singleton.
      split.
      - intros [[->| ->] H]; [|reflexivity]. exfalso. apply H. by right.
      - intros ->. split; [by right|]. intros [H|H]; discriminate. }
    rewrite Hc, Hdo, Hwo, !size_singleton. do 3 (split; [reflexivity|]).
    rewrite Hc, elements_singleton in Hm.
    destruct l as [|e [|e' l]]; try discriminate.
    exists e. split; [reflexivity|]. by injection Hm.
Qed.

End CrossBoard.

(** ** Monetary fields after cleaning *)

Section Money.
Import PyNum DataCleaner.

(** A finite float or null, as the claim words it. *)
Definition finite_or_null (v : value) : Prop :=
  v = VNone \/ exists q, v = VNum (FFin q).

(** A float of any kind, or null. *)
Definition float_or_null (v : value) : Prop :=
  v = VNone \/ exists x, v = VNum x.

(** What cleaning leaves in a monetary field that held [v]. *)
Definition cleaned_money (v : value) : value :=
  if truthy v then float_value (_parse_number v) else v.

Definition infinite_deal : record := {[ "Masked Deal value" := VStr "inf" ]}.

Lemma float_value_float_or_null o : float_or_null (float_value o).
Proof. destruct o; [right; eauto|by left]. Qed.

Lemma get_number_step_eq r f : get (number_step r f) f = cleaned_money (get r f).
Proof.
  unfold number_step, cleaned_money. destruct (truthy (get r f)); [|reflexivity].
  apply get_insert_eq.
Qed.

Lemma foldl_number_step_other (fields : list string) r f :
  f ∉ fields -> get (foldl number_step r fields) f = get r f.
Proof.
  revert r. induction fields as [|g fields IH]; intros r Hf; simpl; [reflexivity|].
  rewrite IH by (intros ?; apply Hf; by constructor).
  apply get_number_step_ne. intros ->. apply Hf. constructor.
Qed.

Lemma foldl_number_step_field (fields : list string) r f :
  NoDup fields -> f ∈ fields ->
  get (foldl number_step r fields) f = cleaned_money (get r f).
Proof.
  intros Hnd. revert r. induction Hnd as [|g fields Hg Hnd IH]; intros r Hf.
  - inversion Hf.
  - simpl. destruct (decide (f = g)) as [->|Hne].
    + rewrite foldl_number_step_other by done. apply get_number_step_eq.
    + rewrite IH by (by apply elem_of_cons in Hf as [?|?]).
      by rewrite get_number_step_ne.
Qed.

Lemma foldl_string_step_other parse (fields : list string) r f :
  f ∉ fields -> get (foldl (string_step parse) r fields) f = get r f.
Proof.
  revert r. induction fields as [|g fields IH]; intros r Hf; simpl; [reflexivity|].
  rewrite IH by (intros ?; apply Hf; by constructor).
  apply get_string_step_ne. intros ->. apply Hf. constructor.
Qed.

Lemma financial_fields_nodup : NoDup financial_fields.
Proof. apply (bool_decide_eq_true_1 (NoDup financial_fields)). vm_compute. reflexivity. Qed.

Lemma clean_deal_record_money r :
  get (clean_deal_record r) "Masked Deal value"
  = cleaned_money (get r "Masked Deal value").
Proof.
  unfold clean_deal_record, strip_step, date_step.
  rewrite !get_string_step_ne by discriminate.
  rewrite foldl_string_step_other.
  - apply get_number_step_eq.
  - unfold date_fields. intros H.
    repeat (apply elem_of_cons in H as [H|H]; [discriminate|]). inversion H.
Qed.

Lemma clean_wo_record_money r f :
  f ∈ financial_fields ->
  get (clean_wo_record r) f = cleaned_money (get r f).
Proof.
  intros Hf. unfold clean_wo_record, strip_step, quantity_step.
  assert (N1 : "Sector" <> f /\ "Execution Status" <> f /\ "Billing Status" <> f
               /\ f ∉ quantity_fields).
  { unfold financial_fields in Hf. unfold quantity_fields.
    repeat (apply elem_of_cons in Hf as [->|Hf]); try (by inversion Hf);
      (repeat split; try discriminate;
       intros H; repeat (apply elem_of_cons in H as [H|H]; [discriminate|]);
       inversion H). }
  destruct N1 as (N1 & N2 & N3 & N4).
  rewrite !get_string_step_ne by done.
  rewrite foldl_number_step_field by (done || apply financial_fields_nodup).
  rewrite foldl_string_step_other by done.
  destruct (is_typo r); [|reflexivity]. by rewrite get_insert_ne.
Qed.

Lemma cleaned_money_shape v :
  (truthy v = true -> float_or_null (cleaned_money v))
  /\ (truthy v = false -> cleaned_money v = v)
  /\ (forall s, cleaned_money v = VStr s -> s = "").
Proof.
  unfold cleaned_money. destruct (truthy v) eqn:T.
  - split; [intros _; apply float_value_float_or_null|].
    split; [discriminate|]. intros s H.
    destruct (float_value_float_or_null (_parse_number v)) as [E|[x E]];
      rewrite E in H; discriminate.
  - split; [discriminate|]. split; [reflexivity|]. intros s ->.
    simpl in T. by apply negb_false_iff, String.eqb_eq in T.
Qed.

Lemma wo_foldl_cleaned (rs : list record) acc n :
  (foldl wo_step (acc, n) rs).1 = acc ++ map clean_wo_record rs.
Proof.
  revert acc n. induction rs as [|r rs IH]; intros acc n; simpl.
  - by rewrite app_nil_r.
  - unfold wo_step at 2. simpl. rewrite IH. by rewrite <- app_assoc.
Qed.

Lemma clean_workorders_cleaned (rs : list record) :
  cleaned (clean_workorders rs) = map clean_wo_record rs.
Proof.
  unfold clean_workorders. pose proof (wo_foldl_cleaned rs [] 0) as H.
  destruct (foldl wo_step ([], 0) rs) as [c n]. exact H.
Qed.

(** C9, as stated, fails: the text "inf" is coerced to the float
    infinity, which is not finite. *)
Lemma infinite_value_counterexample :
  ~ Forall (fun r => finite_or_null (get r "Masked Deal value"))
           (cleaned (clean_deals [infinite_deal])).
Proof.
  rewrite clean_deals_cleaned.
  assert (H : _is_header_row infinite_deal = false) by reflexivity.
  cbn [List.filter map]. rewrite H. cbn [negb map]. intros F.
  apply List.Forall_inv in F as Hv.
  rewrite clean_deal_record_money in Hv.
  assert (E : cleaned_money (get infinite_deal "Masked Deal value")
              = VNum (FInf false)) by reflexivity.
  rewrite E in Hv. destruct Hv as [Hv|[q Hv]]; discriminate.
Qed.

(** C9 (amended): after cleaning, the Masked Deal value of every deal
    kept and each of the 8 financial fields of every work order holds
    what the numeric coercion returns for the raw value when that value
    is truthy - a float, which may be an infinity or a NaN, or null -
    and the raw value itself when it is falsy (null, the empty string or
    zero); so the field never holds a non-empty string, whatever the raw
    string was. *)
Theorem monetary_fields_after_cleaning (deals wos : list record) :
  (forall s, float_or_null (float_value (_parse_number (VStr s))))
  /\ Forall (fun c => exists r, r ∈ deals /\ c = clean_deal_record r
               /\ get c "Masked Deal value" = cleaned_money (get r "Masked Deal value")
               /\ (truthy (get r "Masked Deal value") = true ->
                   float_or_null (get c "Masked Deal value"))
               /\ forall s, get c "Masked Deal value" = VStr s -> s = "")
            (cleaned (clean_deals deals))
  /\ Forall2 (fun r c => c = clean_wo_record r
                /\ forall f, f ∈ financial_fields ->
                     get c f = cleaned_money (get r f)
                     /\ (truthy (get r f) = true -> float_or_null (get c f))
                     /\ forall s, get c f = VStr s -> s = "")
             wos (cleaned (clean_workorders wos)).
Proof.
  split; [intros s; apply float_value_float_or_null|]. split.
  - rewrite clean_deals_cleaned. apply List.Forall_forall. intros c Hc.
    apply in_map_iff in Hc as (r & <- & Hr). apply filter_In in Hr as [Hr _].
    exists r. rewrite clean_deal_record_money.
    destruct (cleaned_money_shape (get r "Masked Deal value")) as (A & _ & C).
    repeat split; try done. by apply list_elem_of_In.
  - rewrite clean_workorders_cleaned. induction wos as [|r wos IH]; simpl.
    + constructor.
    + constructor; [|exact IH]. split; [reflexivity|]. intros f Hf.
      rewrite (clean_wo_record_money r f Hf).
      destruct (cleaned_money_shape (get r f)) as (A & _ & C). by repeat split.
Qed.

End Money.

(** ** Caveat thresholds *)

Section Caveats.
Import PyNum DataCleaner.

(** Records whose [field] is null. *)
Definition missing (field : string) (rs : list record) : nat :=
  length (List.filter (fun r => bool_decide (get r field = VNone)) rs).

(** Records whose [field] is null, empty or zero. *)
Definition blank (field : string) (rs : list record) : nat :=
  length (List.filter (fun r => bool_decide (truthy (get r field) = false)) rs).

Lemma blank_le field (rs : list record) : blank field rs <= length rs.
Proof. unfold blank. apply List.filter_length_le. Qed.

Lemma count_if_ext p q (rs : list record) :
  (forall r, p r = q r) -> count_if p rs = length (List.filter q rs).
Proof.
  intros H. unfold count_if. f_equal. induction rs as [|r rs IH]; simpl; [done|].
  by rewrite H, IH.
Qed.

Lemma count_none field rs : count_if (field_is_none field) rs = missing field rs.
Proof.
  apply count_if_ext. intros r. unfold field_is_none.
  destruct (get r field); reflexivity.
Qed.

Lemma count_falsy field rs : count_if (field_is_falsy field) rs = blank field rs.
Proof.
  apply count_if_ext. intros r. unfold field_is_falsy.
  destruct (truthy (get r field)); reflexivity.
Qed.

Lemma gtb_frac_gt n total frac :
  gtb_frac n total frac = true
  <-> (to_binary64 (to_binary64 (inject_Z (Z.of_nat total)) * to_binary64 frac)
       < inject_Z (Z.of_nat n))%Q.
Proof.
  unfold gtb_frac.
  destruct (Qcompare_spec (inject_Z (Z.of_nat n))
              (to_binary64 (to_binary64 (inject_Z (Z.of_nat total)) * to_binary64 frac)))
    as [H|H|H]; split; intros; try discriminate; try reflexivity; try assumption; lra.
Qed.

Lemma gtb_half n total :
  (Z.of_nat total < 2 ^ 49)%Z ->
  gtb_frac n total (1 # 2) = true <-> total < 2 * n.
Proof.
  intros B. rewrite gtb_frac_gt.
  assert (H2 : (to_binary64 (1 # 2) == 1 # 2)%Q) by reflexivity.
  rewrite count_exact by lia.
  destruct total as [|t].
  { change (inject_Z (Z.of_nat 0)) with 0%Q.
    assert (Z : (0 * to_binary64 (1 # 2) == 0)%Q) by ring.
    assert (F : (to_binary64 (0 * to_binary64 (1 # 2)) == 0)%Q).
    { unfold to_binary64 at 1. by rewrite (proj2 (Qeq_bool_iff _ _) Z). }
    rewrite F. change 0%Q with (inject_Z 0). rewrite <- Zlt_Qlt. lia. }
  assert (X : binary64 (inject_Z (Z.of_nat (S t)) * to_binary64 (1 # 2))).
  { exists (Z.of_nat (S t)), (-1)%Z. split; [lia|]. split; [lia|].
    rewrite H2. reflexivity. }
  rewrite (to_binary64_exact _ X), H2.
  split; intros H.
  - unfold Qlt, Qmult, inject_Z in H. simpl in H. lia.
  - unfold Qlt, Qmult, inject_Z. simpl. lia.
Qed.

Lemma tenth_bounds :
  ((1 # 10) < to_binary64 (1 # 10))%Q
  /\ (to_binary64 (1 # 10) < (1 # 10) + (1 # 100000000000000000))%Q.
Proof. split; vm_compute; reflexivity. Qed.

Lemma gtb_tenth n total :
  n <= total -> (Z.of_nat total < 2 ^ 49)%Z ->
  gtb_frac n total (1 # 10) = true <-> total < 10 * n.
Proof.
  intros Hn B. rewrite gtb_frac_gt. rewrite count_exact by lia.
  destruct tenth_bounds as [T1 T2]. set (c := to_binary64 (1 # 10)) in *.
  set (N := inject_Z (Z.of_nat n)). set (T := inject_Z (Z.of_nat total)).
  assert (T0 : (0 <= T)%Q).
  { unfold T. change 0%Q with (inject_Z 0). rewrite <- Zle_Qle. lia. }
  assert (TB : (T <= 562949953421312)%Q).
  { unfold T. change 562949953421312%Q with (inject_Z (2 ^ 49)). rewrite <- Zle_Qle. lia. }
  split.
  - intros H. destruct (Nat.lt_ge_cases total (10 * n)) as [|G]; [assumption|exfalso].
    destruct n as [|n'].
    { pose proof (to_binary64_nonneg (T * c) ltac:(nra)) as P.
      unfold N in H. change (inject_Z (Z.of_nat 0)) with 0%Q in H. lra. }
    assert (BN : binary64 N) by (apply count_binary64; lia).
    assert (LE : (N <= T * c)%Q).
    { assert (G' : (10 * N <= T)%Q).
      { unfold N, T. change 10%Q with (inject_Z 10).
        rewrite <- inject_Z_mult, <- Zle_Qle. lia. }
      nra. }
    pose proof (to_binary64_lower (T * c) N BN LE). lra.
  - intros H.
    assert (H' : (T + 1 <= 10 * N)%Q).
    { unfold N, T. change 10%Q with (inject_Z 10). change 1%Q with (inject_Z 1).
      rewrite <- inject_Z_mult, <- inject_Z_plus, <- Zle_Qle. lia. }
    assert (BX : binary64 (N - (1 # 16))).
    { exists (16 * Z.of_nat n - 1)%Z, (-4)%Z. split; [lia|]. split; [lia|].
      change (2 ^ (-4))%Q with (1 # 16)%Q.
      unfold N, Qeq, Qminus, Qplus, Qopp, Qmult, inject_Z. simpl. lia. }
    assert (LE : (T * c <= N - (1 # 16))%Q) by nra.
    pose proof (to_binary64_upper (T * c) (N - (1 # 16)) ltac:(nra) LE BX). lra.
Qed.

Lemma elem_of_when {A} (b : bool) (x y : A) : y ∈ when b x <-> b = true /\ y = x.
Proof.
  unfold when. destruct b.
  - rewrite list_elem_of_singleton. split; [by intros ->|by intros [_ ->]].
  - split; [inversion 1|intros [? _]; discriminate].
Qed.

Ltac caveat_cases :=
  rewrite ?elem_of_app, ?elem_of_when;
  split;
  [ intros H;
    repeat match type of H with
           | _ \/ _ => destruct H as [H|H]
           end;
    destruct H as [Hb He]; try discriminate; injection He as -> -> ->;
    repeat split; try reflexivity; assumption
  | intros (Hb & -> & -> & ->); tauto ].

(** Ten deals: one without a closure probability, five with an empty
    one, four with a probability. *)
Definition blank_probabilities : list record :=
  [ {[ "name" := VStr "Deal 1" ]} ]
  ++ replicate 5 {[ "name" := VStr "Deal"; "Closure Probability" := VStr "" ]}
  ++ replicate 4 {[ "name" := VStr "Deal"; "Closure Probability" := VStr "High" ]}.

Lemma probability_caveat_emitted (records : list record) n :
  records <> [] ->
  count_if (field_is_falsy "Closure Probability") records = n ->
  gtb_frac n (length records) (1 # 2) = true ->
  DealsNoProbability n (length records) (pct n (length records))
  ∈ _generate_deals_caveats records.
Proof.
  intros Hne <- Hgt. unfold _generate_deals_caveats.
  destruct records as [|r records]; [done|].
  rewrite !elem_of_app, !elem_of_when. right. right. left. by split.
Qed.

(** C6, as stated, fails: in a cleaned deals set in which 10% of the
    closure probabilities are null the caveat is emitted all the same,
    because the empty ones are counted too. *)
Lemma empty_probability_counterexample :
  cleaned (clean_deals blank_probabilities) = blank_probabilities
  /\ 10 * missing "Closure Probability" blank_probabilities
     = length blank_probabilities
  /\ DealsNoProbability 6 10 (Q2Qc 60)
     ∈ caveats (clean_deals blank_probabilities).
Proof.
  assert (E : cleaned (clean_deals blank_probabilities) = blank_probabilities)
    by (vm_compute; reflexivity).
  split; [exact E|]. split; [reflexivity|].
  assert (C : caveats (clean_deals blank_probabilities)
              = _generate_deals_caveats (cleaned (clean_deals blank_probabilities))).
  { unfold clean_deals. by destruct (foldl deals_step ([], 0) blank_probabilities). }
  rewrite C, E.
  assert (P : pct 6 10 = Q2Qc 60) by (apply Qc_is_canon; vm_compute; reflexivity).
  rewrite <- P.
  apply (probability_caveat_emitted blank_probabilities 6);
    [discriminate|reflexivity|reflexivity].
Qed.

(** C6 (amended): with no record left exactly one "no records" caveat is
    emitted.  Otherwise the deal-value caveat is emitted exactly when
    some record has a null value, and it reports the valued count; the
    close-date and closure-probability caveats exactly when more than
    half of the records hold no close date, no probability: null, an
    empty string or zero; the tentative-close-date caveat exactly when
    more than a tenth hold none; the collected-amount and billed-value
    caveats of work orders exactly when some record has a null value;
    the billing-status caveat exactly when more than half of the records
    hold none.  Each caveat reports the count, the total and the
    percentage round(count/total*100, 1).  So 60% of null, empty or
    zero closure probabilities emit the caveat and 10% do not.  The
    four thresholds are compared as the floats total*0.5 and total*0.1;
    below 2^49 records these decide as the exact halves and tenths. *)
Theorem caveat_thresholds (records : list record) :
  let total := length records in
  (records = [] ->
   _generate_deals_caveats records = [NoDealRecords]
   /\ _generate_wo_caveats records = [NoWorkOrderRecords])
  /\ (records <> [] ->
      (NoDealRecords ∉ _generate_deals_caveats records)
      /\ (NoWorkOrderRecords ∉ _generate_wo_caveats records)
      /\ (forall n t p v,
            DealsNoValue n t p v ∈ _generate_deals_caveats records
            <-> 0 < missing "Masked Deal value" records
                /\ n = missing "Masked Deal value" records /\ t = total
                /\ p = pct n t /\ v = total - n)
      /\ (forall n t p,
            WoNoCollection n t p ∈ _generate_wo_caveats records
            <-> 0 < missing collected_field records
                /\ n = missing collected_field records /\ t = total /\ p = pct n t)
      /\ (forall n t p,
            WoNoBilledValue n t p ∈ _generate_wo_caveats records
            <-> 0 < missing billed_field records
                /\ n = missing billed_field records /\ t = total /\ p = pct n t)
      /\ ((Z.of_nat total < 2 ^ 49)%Z ->
          (forall n t p,
             DealsNoCloseDate n t p ∈ _generate_deals_caveats records
             <-> total < 2 * blank "Close Date (A)" records
                 /\ n = blank "Close Date (A)" records /\ t = total /\ p = pct n t)
          /\ (forall n t p,
                DealsNoProbability n t p ∈ _generate_deals_caveats records
                <-> total < 2 * blank "Closure Probability" records
                    /\ n = blank "Closure Probability" records /\ t = total
                    /\ p = pct n t)
          /\ (forall n t p,
                DealsNoTentativeDate n t p ∈ _generate_deals_caveats records
                <-> total < 10 * blank "Tentative Close Date" records
                    /\ n = blank "Tentative Close Date" records /\ t = total
                    /\ p = pct n t)
          /\ (forall n t p,
                WoNoBillingStatus n t p ∈ _generate_wo_caveats records
                <-> total < 2 * blank "Billing Status" records
                    /\ n = blank "Billing Status" records /\ t = total
                    /\ p = pct n t)
          /\ (10 * blank "Closure Probability" records = 6 * total ->
              exists n t p,
                DealsNoProbability n t p ∈ _generate_deals_caveats records)
          /\ (10 * blank "Closure Probability" records = total ->
              forall n t p,
                DealsNoProbability n t p ∉ _generate_deals_caveats records))).
Proof.
  intros total. split; [intros ->; by split|]. intros Hne.
  assert (Ht : 0 < total) by (unfold total; destruct records; simpl; [done|lia]).
  assert (D : _generate_deals_caveats records
              = when (0 <? missing "Masked Deal value" records)
                     (DealsNoValue (missing "Masked Deal value" records) total
                        (pct (missing "Masked Deal value" records) total)
                        (total - missing "Masked Deal value" records))
                ++ when (gtb_frac (blank "Close Date (A)" records) total (1 # 2))
                        (DealsNoCloseDate (blank "Close Date (A)" records) total
                           (pct (blank "Close Date (A)" records) total))
                ++ when (gtb_frac (blank "Closure Probability" records) total (1 # 2))
                        (DealsNoProbability (blank "Closure Probability" records) total
                           (pct (blank "Closure Probability" records) total))
                ++ when (gtb_frac (blank "Tentative Close Date" records) total (1 # 10))
                        (DealsNoTentativeDate (blank "Tentative Close Date" records) total
                           (pct (blank "Tentative Close Date" records) total))).
  { unfold _generate_deals_caveats. destruct records; [done|].
    by rewrite count_none, !count_falsy. }
  assert (W : _generate_wo_caveats records
              = when (0 <? missing collected_field records)
                     (WoNoCollection (missing collected_field records) total
                        (pct (missing collected_field records) total))
                ++ when (0 <? missing billed_field records)
                        (WoNoBilledValue (missing billed_field records) total
                           (pct (missing billed_field records) total))
                ++ when (gtb_frac (blank "Billing Status" records) total (1 # 2))
                        (WoNoBillingStatus (blank "Billing Status" records) total
                           (pct (blank "Billing Status" records) total))).
  { unfold _generate_wo_caveats. destruct records; [done|].
    by rewrite !count_none, count_falsy. }
  rewrite D, W. clear D W.
  split.
  { rewrite !elem_of_app, !elem_of_when. intros H.
    repeat match type of H with _ \/ _ => destruct H as [H|H] end;
      destruct H as [_ H]; discriminate. }
  split.
  { rewrite !elem_of_app, !elem_of_when. intros H.
    repeat match type of H with _ \/ _ => destruct H as [H|H] end;
      destruct H as [_ H]; discriminate. }
  split.
  { intros n t p v. rewrite <- Nat.ltb_lt.
    rewrite ?elem_of_app, ?elem_of_when. split.
    - intros H. repeat match type of H with _ \/ _ => destruct H as [H|H] end;
        destruct H as [Hb He]; try discriminate. injection He as -> -> -> ->.
      by repeat split.
    - intros (Hb & -> & -> & -> & ->). tauto. }
  split; [intros n t p; rewrite <- Nat.ltb_lt; caveat_cases|].
  split; [intros n t p; rewrite <- Nat.ltb_lt; caveat_cases|].
  intros B.
  assert (P : forall n t p,
            DealsNoProbability n t p
              ∈ when (0 <? missing "Masked Deal value" records)
                     (DealsNoValue (missing "Masked Deal value" records) total
                        (pct (missing "Masked Deal value" records) total)
                        (total - missing "Masked Deal value" records))
                ++ when (gtb_frac (blank "Close Date (A)" records) total (1 # 2))
                        (DealsNoCloseDate (blank "Close Date (A)" records) total
                           (pct (blank "Close Date (A)" records) total))
                ++ when (gtb_frac (blank "Closure Probability" records) total (1 # 2))
                        (DealsNoProbability (blank "Closure Probability" records) total
                           (pct (blank "Closure Probability" records) total))
                ++ when (gtb_frac (blank "Tentative Close Date" records) total (1 # 10))
                        (DealsNoTentativeDate (blank "Tentative Close Date" records) total
                           (pct (blank "Tentative Close Date" records) total))
            <-> total < 2 * blank "Closure Probability" records
                /\ n = blank "Closure Probability" records /\ t = total
                /\ p = pct n t).
  { intros n t p. rewrite <- (gtb_half _ _ B). caveat_cases. }
  split; [intros n t p; rewrite <- (gtb_half _ _ B); caveat_cases|].
  split; [exact P|].
  assert (BL : blank "Tentative Close Date" records <= total) by apply blank_le.
  split; [intros n t p; rewrite <- (gtb_tenth _ _ BL B); caveat_cases|].
  split; [intros n t p; rewrite <- (gtb_half _ _ B); caveat_cases|].
  split.
  - intros H. eexists _, _, _. apply P. repeat split; [lia|..]; reflexivity.
  - intros H n t p Hin. apply P in Hin as [Hlt _]. lia.
Qed.

Lemma caveat_thresholds_witness :
  exists n t p,
    DealsNoProbability n t p ∈ _generate_deals_caveats blank_probabilities.
Proof.
  destruct (caveat_thresholds blank_probabilities) as [_ H].
  destruct (H ltac:(discriminate)) as (_ & _ & _ & _ & _ & B).
  destruct (B ltac:(vm_compute; reflexivity)) as (_ & _ & _ & _ & S & _).
  apply S. reflexivity.
Defined.

End Caveats.

(** ** Retries of [execute_query] *)

Section Retries.
Import MondayClient.

(** A 429 response whose Retry-After, if any, is an integer: the delay
    the server specifies, 5 seconds when it gives none. *)
Definition rate_limited (p : post_outcome) (delay : Z) : Prop :=
  exists h b, p = Responded 429 h b /\ retry_delay h = Some delay.

(** A timeout or a response with a 5xx status. *)
Definition transient (p : post_outcome) : Prop :=
  p = TimedOut \/ exists s h b, p = Responded s h b /\ (500 <= s)%Z.

(** What one iteration does with the response it meets: it goes on to the
    next iteration after a sleep, or it leaves the function. *)
Definition on_response (attempt : nat) (p : post_outcome) : Z + outcome :=
  match p with
  | TimedOut =>
      if attempt <? 2 then inl (2 ^ Z.of_nat attempt)%Z else inr (Raised ApiTimeout)
  | TransportFailed what => inr (Raised (Uncaught what))
  | Responded s h b =>
      if (s =? 429)%Z then
        match retry_delay h with
        | Some d => inl d
        | None => inr (Raised (Uncaught "ValueError"))
        end
      else if is_success s then inr (read_body b)
      else if (attempt <? 2) && (500 <=? s)%Z then inl (2 ^ Z.of_nat attempt)%Z
      else inr (Raised (ApiError s))
  end.

Definition always_rate_limited : nat -> post_outcome :=
  fun _ => Responded 429 (HeaderInt 1) NotJson.

Lemma raise_errors_never_exhausts result : raise_errors result <> MaxRetriesExceeded.
Proof. unfold raise_errors. repeat case_match; discriminate. Qed.

Lemma read_body_never_exhausts b : read_body b <> Raised MaxRetriesExceeded.
Proof.
  destruct b as [|result]; [discriminate|]. cbn [read_body]. unfold on_result.
  destruct (has_errors result) as [[|]|]; try discriminate.
  intros [= H]. by apply raise_errors_never_exhausts in H.
Qed.

Lemma attempts_step n i rs sl :
  attempts (S n) i rs sl
  = match on_response i (rs i) with
    | inl d => attempts n (S i) rs (sl ++ [d])
    | inr o => (o, sl)
    end.
Proof.
  cbn [attempts]. unfold on_response, max_retries. cbn [Nat.sub].
  destruct (rs i) as [|w|s h b]; try reflexivity.
  - by destruct (i <? 2).
  - destruct (s =? 429)%Z; [by destruct (retry_delay h)|].
    destruct (is_success s); [reflexivity|].
    by destruct ((i <? 2) && (500 <=? s)%Z).
Qed.

Lemma execute_query_unrolled rs :
  execute_query rs
  = match on_response 0 (rs 0) with
    | inl d0 =>
        match on_response 1 (rs 1) with
        | inl d1 =>
            match on_response 2 (rs 2) with
            | inl d2 => (Raised MaxRetriesExceeded, [d0; d1; d2])
            | inr o => (o, [d0; d1])
            end
        | inr o => (o, [d0])
        end
    | inr o => (o, [])
    end.
Proof.
  unfold execute_query, max_retries. rewrite attempts_step.
  destruct (on_response 0 _); [|reflexivity]. rewrite attempts_step.
  destruct (on_response 1 _); [|reflexivity]. rewrite attempts_step.
  destruct (on_response 2 _); reflexivity.
Qed.

Lemma on_response_continue i p d :
  on_response i p = inl d
  <-> rate_limited p d \/ (i < 2 /\ transient p /\ d = (2 ^ Z.of_nat i)%Z).
Proof.
  unfold on_response, rate_limited, transient. split.
  - destruct p as [|w|s h b].
    + destruct (Nat.ltb_spec i 2); [|discriminate]. intros [= <-]. right. eauto.
    + discriminate.
    + destruct (Z.eqb_spec s 429) as [->|Hs].
      * destruct (retry_delay h) eqn:E; [|discriminate]. intros [= <-]. left. eauto.
      * destruct (is_success s); [discriminate|].
        destruct (Nat.ltb_spec i 2); [|discriminate].
        destruct (Z.leb_spec 500 s); [|discriminate]. simpl. intros [= <-].
        right. repeat split; try done. right. eauto.
  - intros [(h & b & -> & Hd)|(Hi & Ht & ->)].
    + simpl. by rewrite Hd.
    + apply Nat.ltb_lt in Hi.
      destruct Ht as [->|(s & h & b & -> & Hs)]; rewrite Hi; [reflexivity|].
      assert (E1 : (s =? 429)%Z = false) by (apply Z.eqb_neq; lia).
      assert (E2 : is_success s = false).
      { unfold is_success. apply andb_false_iff. right. apply Z.leb_gt. lia. }
      assert (E3 : (500 <=? s)%Z = true) by (by apply Z.leb_le).
      by rewrite E1, E2, E3.
Qed.

Lemma on_response_rate_limited i p d : rate_limited p d -> on_response i p = inl d.
Proof. intros H. apply on_response_continue. by left. Qed.

(** C3, as stated, fails: three rate-limit responses in a row, and nothing
    else, end in the retry-exhaustion failure. *)
Lemma rate_limit_exhausts_counterexample :
  ~ ((forall i, rate_limited (always_rate_limited i) 1) ->
     (execute_query always_rate_limited).1 <> Raised MaxRetriesExceeded).
Proof.
  intros H. apply H; [|reflexivity].
  intros i. exists (HeaderInt 1), NotJson. by split.
Qed.

(** C3 (amended): a rate-limit (429) response is followed by a sleep of
    the server-specified delay (5 seconds without a Retry-After header)
    and by another request only if one of the 3 attempts is left: every
    429 uses up an attempt like a retried timeout or 5xx response does.
    [execute_query] fails with "max retries exceeded" exactly when the
    third attempt meets a 429 after two attempts that were retried (after
    a 429, a timeout or a 5xx response); three 429 responses in a row
    therefore exhaust the attempts.  At most three requests are made. *)
Theorem rate_limit_uses_attempts (responses : nat -> post_outcome) :
  let r := execute_query responses in
  let retried i := exists d, on_response i (responses i) = inl d in
  (forall i, retried i <-> exists d,
       rate_limited (responses i) d
       \/ (i < 2 /\ transient (responses i) /\ d = (2 ^ Z.of_nat i)%Z))
  /\ (forall i d, i < 3 -> (forall j, j < i -> retried j) ->
      rate_limited (responses i) d -> r.2 !! i = Some d)
  /\ (r.1 = Raised MaxRetriesExceeded
      <-> retried 0 /\ retried 1 /\ exists d, rate_limited (responses 2) d)
  /\ ((forall i, i < 3 -> exists d, rate_limited (responses i) d) ->
      r.1 = Raised MaxRetriesExceeded /\ length r.2 = 3)
  /\ length r.2 <= 3
  /\ (forall responses', (forall i, i < 3 -> responses' i = responses i) ->
      execute_query responses' = r).
Proof.
  intros r retried.
  assert (R : r = execute_query responses) by reflexivity.
  rewrite execute_query_unrolled in R.
  split.
  { intros i. unfold retried. split; intros [d H]; exists d;
      by apply on_response_continue. }
  split.
  { intros i d Hi Hprev Hrl.
    pose proof (on_response_rate_limited i _ _ Hrl) as Hi'.
    destruct i as [|[|[|i]]]; [| | |lia].
    - rewrite Hi' in R. rewrite R.
      destruct (on_response 1 _); [destruct (on_response 2 _)|]; reflexivity.
    - destruct (Hprev 0) as [d0 H0]; [lia|]. rewrite H0, Hi' in R. rewrite R.
      destruct (on_response 2 _); reflexivity.
    - destruct (Hprev 0) as [d0 H0]; [lia|]. destruct (Hprev 1) as [d1 H1]; [lia|].
      rewrite H0, H1, Hi' in R. by rewrite R. }
  split.
  { unfold retried. rewrite R. split.
    - destruct (on_response 0 _) as [d0|o0] eqn:E0.
      + destruct (on_response 1 _) as [d1|o1] eqn:E1.
        * destruct (on_response 2 _) as [d2|o2] eqn:E2.
          -- intros _. split; [eauto|]. split; [eauto|]. exists d2.
             apply on_response_continue in E2 as [E2|(Hlt & _)]; [done|lia].
          -- simpl. intros ->. exfalso. revert E2. unfold on_response.
             destruct (responses 2) as [|w|s h b]; simpl; try discriminate.
             destruct (s =? 429)%Z; [destruct (retry_delay h); discriminate|].
             destruct (is_success s); [|discriminate].
             intros [= Hb]. by apply read_body_never_exhausts in Hb.
        * simpl. intros ->. exfalso. revert E1. unfold on_response.
          destruct (responses 1) as [|w|s h b]; simpl; try discriminate.
          destruct (s =? 429)%Z; [destruct (retry_delay h); discriminate|].
          destruct (is_success s);
            [intros [= Hb]; by apply read_body_never_exhausts in Hb|].
          destruct (500 <=? s)%Z; discriminate.
      + simpl. intros ->. exfalso. revert E0. unfold on_response.
        destruct (responses 0) as [|w|s h b]; simpl; try discriminate.
        destruct (s =? 429)%Z; [destruct (retry_delay h); discriminate|].
        destruct (is_success s);
          [intros [= Hb]; by apply read_body_never_exhausts in Hb|].
        destruct (500 <=? s)%Z; discriminate.
    - intros ([d0 ->] & [d1 ->] & [d2 H2]).
      by rewrite (on_response_rate_limited 2 _ _ H2). }
  split.
  { intros Hall.
    destruct (Hall 0) as [d0 H0]; [lia|]. destruct (Hall 1) as [d1 H1]; [lia|].
    destruct (Hall 2) as [d2 H2]; [lia|].
    rewrite (on_response_rate_limited 0 _ _ H0), (on_response_rate_limited 1 _ _ H1),
      (on_response_rate_limited 2 _ _ H2) in R. by rewrite R. }
  split.
  { rewrite R. destruct (on_response 0 _); [|simpl; lia].
    destruct (on_response 1 _); [|simpl; lia].
    destruct (on_response 2 _); simpl; lia. }
  intros rs' Heq. rewrite R, execute_query_unrolled.
  by rewrite !Heq by lia.
Qed.

End Retries.

(** ** Truncation of tool results *)

Section Truncation.
Import Graph.

(** No key of the dictionary is one of the six flag keys. *)
Definition flag_free (d : dict) : Prop :=
  forall k, k ∈ item_keys ->
    (k +:+ "_truncated" ∉ keys d) /\ (k +:+ "_total" ∉ keys d).

(** The entries [truncate_entry] assigns for one entry of the result. *)
Definition writes (kv : string * json) : dict :=
  match kv.2 with
  | JList l =>
      if bool_decide (kv.1 ∈ item_keys) && (max_items <? length l) then
        [ (kv.1, JList (take max_items l));
          (kv.1 +:+ "_truncated", JBool true);
          (kv.1 +:+ "_total", JInt (Z.of_nat (length l))) ]
      else [kv]
  | _ => [kv]
  end.

(** An item list too long to be passed on whole. *)
Definition long_list (k : string) (v : json) : Prop :=
  k ∈ item_keys /\ exists l, v = JList l /\ max_items < length l.

Definition assign (a : dict) (kv : string * json) : dict := dict_set kv.1 kv.2 a.

Definition sample_result : dict :=
  [ ("total_deals", JInt 120); ("deals", JList (replicate 120 JNull));
    ("caveats", JList []) ].

Lemma dict_get_none k (d : dict) : dict_get k d = None <-> k ∉ keys d.
Proof.
  induction d as [|[k' v] d IH]; simpl.
  - split; [intros _ H; inversion H|done].
  - destruct (String.eqb_spec k' k) as [->|Hne].
    + split; [discriminate|]. intros H. exfalso. apply H. constructor.
    + rewrite IH. split.
      * intros H Hin. apply elem_of_cons in Hin as [->|Hin]; [done|by apply H].
      * intros H Hin. apply H. by constructor.
Qed.

Lemma dict_get_elem k v (d : dict) : dict_get k d = Some v -> (k, v) ∈ d.
Proof.
  induction d as [|[k' v'] d IH]; simpl; [discriminate|].
  destruct (String.eqb_spec k' k) as [->|Hne].
  - intros [= ->]. constructor.
  - intros H. constructor. by apply IH.
Qed.

Lemma elem_dict_get k v (d : dict) : NoDup (keys d) -> (k, v) ∈ d -> dict_get k d = Some v.
Proof.
  induction d as [|[k' v'] d IH]; simpl; intros Hnd Hin; [inversion Hin|].
  apply NoDup_cons in Hnd as [Hk Hnd].
  apply elem_of_cons in Hin as [[= -> ->]|Hin].
  - by rewrite String.eqb_refl.
  - destruct (String.eqb_spec k' k) as [->|Hne]; [|by apply IH].
    exfalso. apply Hk. apply list_elem_of_fmap. by exists (k, v).
Qed.

Lemma dict_set_fresh k v (d : dict) : k ∉ keys d -> dict_set k v d = d ++ [(k, v)].
Proof.
  induction d as [|[k' v'] d IH]; simpl; intros H; [reflexivity|].
  destruct (String.eqb_spec k' k) as [->|Hne].
  - exfalso. apply H. constructor.
  - rewrite IH; [reflexivity|]. intros Hin. apply H. by constructor.
Qed.

Lemma foldl_assign_fresh (ws acc : dict) :
  NoDup (keys (acc ++ ws)) -> foldl assign acc ws = acc ++ ws.
Proof.
  revert acc. induction ws as [|[k v] ws IH]; intros acc Hnd; simpl.
  - by rewrite app_nil_r.
  - unfold assign at 2. simpl. rewrite dict_set_fresh.
    + rewrite IH; rewrite <- app_assoc; [reflexivity|exact Hnd].
    + unfold keys in Hnd. rewrite map_app in Hnd. simpl in Hnd.
      apply NoDup_app in Hnd as (_ & Hd & _). intros Hin.
      apply (Hd k Hin). constructor.
Qed.

Lemma truncate_entry_writes acc kv : truncate_entry acc kv = foldl assign acc (writes kv).
Proof.
  destruct kv as [k v]. unfold truncate_entry, writes, assign. simpl.
  destruct (bool_decide (k ∈ item_keys)); simpl; destruct v; try reflexivity.
  by destruct (max_items <? length items).
Qed.

Lemma foldl_truncate_writes (d acc : dict) :
  foldl truncate_entry acc d = foldl assign acc (concat (map writes d)).
Proof.
  revert acc. induction d as [|kv d IH]; intros acc; simpl; [reflexivity|].
  by rewrite foldl_app, IH, truncate_entry_writes.
Qed.

Lemma writes_cases kv :
  (long_list kv.1 kv.2
   /\ exists l, kv.2 = JList l /\ max_items < length l
        /\ writes kv = [ (kv.1, JList (take max_items l));
                         (kv.1 +:+ "_truncated", JBool true);
                         (kv.1 +:+ "_total", JInt (Z.of_nat (length l))) ])
  \/ (~ long_list kv.1 kv.2 /\ writes kv = [kv]).
Proof.
  destruct kv as [k v]. unfold writes, long_list. simpl.
  destruct v; try (right; split; [intros (_ & l & ? & _); discriminate|reflexivity]).
  destruct (decide (k ∈ item_keys)) as [Hk|Hk].
  - rewrite bool_decide_eq_true_2 by done. simpl.
    destruct (Nat.ltb_spec max_items (length items)).
    + left. split; [split; eauto|]. eauto.
    + right. split; [|reflexivity]. intros (_ & l & [= <-] & ?). lia.
  - rewrite bool_decide_eq_false_2 by done. right. split; [|reflexivity].
    by intros [? _].
Qed.

Lemma keys_writes (d : dict) x :
  x ∈ keys (concat (map writes d)) ->
  x ∈ keys d
  \/ exists k v, (k, v) ∈ d /\ long_list k v
                 /\ (x = k +:+ "_truncated" \/ x = k +:+ "_total").
Proof.
  induction d as [|kv d IH]; [inversion 1|]. cbn [map concat].
  unfold keys in *. rewrite map_app, elem_of_app. intros [H|H].
  - destruct (writes_cases kv) as [(Hl & l & _ & _ & E)|[_ E]];
      rewrite E in H; simpl in H.
    + apply elem_of_cons in H as [->|H]; [left; constructor|].
      right. exists kv.1, kv.2. destruct kv. split; [constructor|]. split; [done|].
      apply elem_of_cons in H as [->|H]; [by left|].
      apply list_elem_of_singleton in H. by right.
    + apply list_elem_of_singleton in H. subst. left. constructor.
  - destruct (IH H) as [Hin|(k & v & Hin & Hl & Hx)].
    + left. by constructor.
    + right. exists k, v. split; [by constructor|done].
Qed.

Lemma flag_names k k' :
  k ∈ item_keys -> k' ∈ item_keys ->
  k +:+ "_truncated" <> k' +:+ "_total"
  /\ (k +:+ "_truncated" = k' +:+ "_truncated" -> k = k')
  /\ (k +:+ "_total" = k' +:+ "_total" -> k = k').
Proof.
  unfold item_keys. intros Hk Hk'.
  repeat (apply elem_of_cons in Hk as [->|Hk]); try (by inversion Hk);
    repeat (apply elem_of_cons in Hk' as [->|Hk']); try (by inversion Hk');
    repeat split; simpl; first [discriminate | intros _; reflexivity | intros E; discriminate E].
Qed.

Lemma key_of_elem k v (d : dict) : (k, v) ∈ d -> k ∈ keys d.
Proof. intros H. apply list_elem_of_fmap. by exists (k, v). Qed.

Lemma writes_nodup (d : dict) :
  NoDup (keys d) -> flag_free d -> NoDup (keys (concat (map writes d))).
Proof.
  induction d as [|[k v] d IH]; intros Hnd Hff; [constructor|].
  cbn [map concat]. apply NoDup_cons in Hnd as [Hk Hnd].
  assert (Hff' : flag_free d).
  { intros k0 Hk0. destruct (Hff k0 Hk0) as [A B].
    split; intros Hin; [apply A|apply B]; by constructor. }
  specialize (IH Hnd Hff').
  assert (Hrest : forall x, x ∈ keys (concat (map writes d)) ->
            x <> k /\ (k ∈ item_keys ->
                       x <> k +:+ "_truncated" /\ x <> k +:+ "_total")).
  { intros x Hx. apply keys_writes in Hx as [Hin|(k0 & v0 & Hin & [Hk0 _] & Hx)].
    - split; [by intros ->|]. intros Hki. destruct (Hff k Hki) as [A B].
      split; intros ->; [apply A|apply B]; by constructor.
    - assert (Hne : k0 <> k) by (intros ->; apply Hk; by eapply key_of_elem).
      split.
      + intros ->. destruct (Hff k0 Hk0) as [A B].
        destruct Hx as [Hx|Hx]; [apply A|apply B]; rewrite <- Hx; constructor.
      + intros Hki. destruct (flag_names k0 k Hk0 Hki) as (F1 & F2 & F3).
        destruct (flag_names k k0 Hki Hk0) as (G1 & _ & _).
        destruct Hx as [-> | ->]; split; try done; try (intros E; by apply Hne, F2);
          try (intros E; by apply Hne, F3); try (intros E; by apply G1). }
  unfold keys in *. rewrite map_app. apply NoDup_app. split; [|split; [|exact IH]].
  - destruct (writes_cases (k, v)) as [([Hki _] & l & _ & _ & ->)|[_ ->]]; simpl.
    + destruct (Hff k Hki) as [A B].
      destruct (flag_names k k Hki Hki) as (F1 & _ & _).
      apply NoDup_cons. split.
      { intros Hin. apply elem_of_cons in Hin as [E|Hin].
        - apply A. rewrite <- E. constructor.
        - apply list_elem_of_singleton in Hin. apply B. rewrite <- Hin. constructor. }
      apply NoDup_cons. split; [|apply NoDup_singleton].
      intros Hin. by apply list_elem_of_singleton in Hin.
    + apply NoDup_singleton.
  - intros x Hx Hin. destruct (Hrest x Hin) as [N1 N2].
    destruct (writes_cases (k, v)) as [([Hki _] & l & _ & _ & E)|[_ E]];
      rewrite E in Hx; simpl in Hx.
    + destruct (N2 Hki) as [N3 N4].
      repeat (apply elem_of_cons in Hx as [Hx|Hx]; [done|]). inversion Hx.
    + by apply list_elem_of_singleton in Hx.
Qed.

Lemma truncate_view (d : dict) :
  NoDup (keys d) -> flag_free d ->
  _truncate_result (JDict d) = JDict (concat (map writes d)).
Proof.
  intros Hnd Hff. simpl. f_equal. rewrite foldl_truncate_writes.
  apply (foldl_assign_fresh _ []). by apply writes_nodup.
Qed.

Lemma elem_of_concat_writes (d : dict) kv e :
  kv ∈ d -> e ∈ writes kv -> e ∈ concat (map writes d).
Proof.
  intros Hkv He. apply list_elem_of_In, in_concat. exists (writes kv).
  split; [apply in_map|]; by apply list_elem_of_In.
Qed.

(** The five tools return dictionaries without flag keys and without a
    repeated key. *)
Lemma tool_results_unflagged (d : dict) :
  keys d ∈ [ Tools.query_deals_board_keys; Tools.query_workorders_board_keys;
             Tools.cross_board_analysis_keys; Tools.aggregate_metrics_keys;
             Tools.get_data_summary_keys ] ->
  NoDup (keys d) /\ flag_free d.
Proof.
  intros H. unfold flag_free, item_keys.
  repeat (apply elem_of_cons in H as [->|H]); try (by inversion H);
    (split;
     [ apply (bool_decide_eq_true_1 (NoDup _)); vm_compute; reflexivity
     | intros k Hk;
       repeat (apply elem_of_cons in Hk as [->|Hk]); try (by inversion Hk);
       split; apply (bool_decide_eq_true_1 (_ ∉ _)); vm_compute; reflexivity ]).
Qed.

(** C7: truncation of a tool result (a dictionary without repeated keys
    that does not already carry one of the flag keys, as is every result
    of the five tools) cuts each list under deals, work_orders and
    lifecycle that has more than 50 entries to its first 50 and adds
    beside it the flag key_truncated = true and key_total = the original
    length; every other entry, and every such list of at most 50 entries,
    keeps its value; no other key appears; and a result with no such long
    list is returned as it is. *)
Theorem truncate_result_frame (d : dict) :
  NoDup (keys d) -> flag_free d ->
  exists t,
    _truncate_result (JDict d) = JDict t
    /\ (forall k l, k ∈ item_keys -> dict_get k d = Some (JList l) ->
          max_items < length l ->
          dict_get k t = Some (JList (take max_items l))
          /\ length (take max_items l) = max_items
          /\ dict_get (k +:+ "_truncated") t = Some (JBool true)
          /\ dict_get (k +:+ "_total") t = Some (JInt (Z.of_nat (length l))))
    /\ (forall k v, dict_get k d = Some v -> ~ long_list k v -> dict_get k t = Some v)
    /\ (forall x, x ∈ keys t ->
          x ∈ keys d
          \/ exists k v, dict_get k d = Some v /\ long_list k v
                         /\ (x = k +:+ "_truncated" \/ x = k +:+ "_total"))
    /\ ((forall k v, dict_get k d = Some v -> ~ long_list k v) -> t = d).
Proof.
  intros Hnd Hff. exists (concat (map writes d)).
  pose proof (writes_nodup d Hnd Hff) as Hnt.
  split; [by apply truncate_view|]. split; [|split; [|split]].
  - intros k l Hk Hget Hlen. apply dict_get_elem in Hget.
    assert (W : writes (k, JList l)
                = [ (k, JList (take max_items l));
                    (k +:+ "_truncated", JBool true);
                    (k +:+ "_total", JInt (Z.of_nat (length l))) ]).
    { unfold writes. simpl. rewrite bool_decide_eq_true_2 by done.
      apply Nat.ltb_lt in Hlen. by rewrite Hlen. }
    split; [|split; [|split]].
    + apply elem_dict_get; [done|]. eapply elem_of_concat_writes; [exact Hget|].
      rewrite W. constructor.
    + rewrite length_take. lia.
    + apply elem_dict_get; [done|]. eapply elem_of_concat_writes; [exact Hget|].
      rewrite W. constructor. constructor.
    + apply elem_dict_get; [done|]. eapply elem_of_concat_writes; [exact Hget|].
      rewrite W. do 2 constructor. constructor.
  - intros k v Hget Hshort. apply dict_get_elem in Hget.
    apply elem_dict_get; [done|]. eapply elem_of_concat_writes; [exact Hget|].
    destruct (writes_cases (k, v)) as [[Hl _]|[_ ->]]; [done|constructor].
  - intros x Hx. apply keys_writes in Hx as [Hx|(k & v & Hin & Hl & Hx)]; [by left|].
    right. exists k, v. split; [by apply elem_dict_get|done].
  - intros Hshort. clear Hnt Hff. induction d as [|[k v] d IH]; [reflexivity|].
    apply NoDup_cons in Hnd as [Hk Hnd]. cbn [map concat].
    destruct (writes_cases (k, v)) as [[Hl _]|[_ ->]].
    + exfalso. apply (Hshort k v); [|exact Hl]. simpl. by rewrite String.eqb_refl.
    + cbn [app]. f_equal. apply IH; [done|]. intros k' v' Hget. apply Hshort. simpl.
      destruct (String.eqb_spec k k') as [->|]; [|done].
      exfalso. apply Hk. eapply key_of_elem. by apply dict_get_elem.
Qed.

Lemma truncate_result_frame_witness :
  NoDup (keys sample_result) /\ flag_free sample_result
  /\ exists t,
      _truncate_result (JDict sample_result) = JDict t
      /\ dict_get "deals" t = Some (JList (replicate 50 JNull))
      /\ dict_get "deals_truncated" t = Some (JBool true)
      /\ dict_get "deals_total" t = Some (JInt 120)
      /\ dict_get "total_deals" t = Some (JInt 120).
Proof.
  assert (Hnd : NoDup (keys sample_result)).
  { apply (bool_decide_eq_true_1 (NoDup _)). vm_compute. reflexivity. }
  assert (Hff : flag_free sample_result).
  { intros k Hk. unfold item_keys in Hk.
    repeat (apply elem_of_cons in Hk as [->|Hk]); try (by inversion Hk);
      split; apply (bool_decide_eq_true_1 (_ ∉ _)); vm_compute; reflexivity. }
  split; [exact Hnd|]. split; [exact Hff|].
  destruct (truncate_result_frame sample_result Hnd Hff) as (t & Ht & Hlong & Hkeep & _).
  exists t. split; [exact Ht|].
  destruct (Hlong "deals" (replicate 120 JNull)) as (A & _ & B & C);
    [repeat constructor|reflexivity|vm_compute; lia|].
  split; [exact A|]. split; [exact B|]. split; [exact C|].
  apply Hkeep; [reflexivity|]. intros [Hin _]. unfold item_keys in Hin.
  repeat (apply elem_of_cons in Hin as [Hin|Hin]; [discriminate|]). inversion Hin.
Defined.

End Truncation.

(** ** Tool execution *)

Section Dispatch.
Import PyNum Graph.

(** The clock never runs backwards. *)
Definition monotone (e : env) : Prop :=
  forall a b, a <= b -> (time e a <= time e b)%Q.

(** The payload of a failed call. *)
Definition error_payload (message : string) : json :=
  JDict [("error", JStr message)].

(** A result whose caveats [extend] cannot walk through. *)
Definition caveats_unreadable (result : json) (message : string) : Prop :=
  exists d, result = JDict d
    /\ iterate (default (JList []) (dict_get "caveats" d)) = inr message.

Definition count_keys : list string :=
  [ "total_deals"; "total_work_orders"; "common_deal_count" ].

Definition echo_env : env :=
  mk_env (fun name => if String.eqb name "echo" then Some ToolReturned else None)
         (fun n => inject_Z (Z.of_nat n)) (fun _ => "").

Lemma elapsed_nonneg (a b : Q) : (a <= b)%Q -> (0 <= elapsed_ms a b)%Z.
Proof.
  intros H. unfold elapsed_ms. apply round_half_even_nonneg, to_binary64_nonneg.
  assert (N : (0 <= to_binary64 (b - a))%Q) by (apply to_binary64_nonneg; lra).
  lra.
Qed.

Lemma jget_missing (d : dict) k : k ∉ keys d -> jget d k = JNull.
Proof. intros H. unfold jget. by rewrite (proj2 (dict_get_none k d) H). Qed.

(** What [run_call] appends for one call, case by case. *)
Lemma run_call_spec (e : env) (tick : nat) (tc : tool_call) :
  exists m t cs tick' ms,
    run_call e tick tc = (m, t, cs, tick')
    /\ tick < tick'
    /\ tool_call_id m = call_id tc
    /\ tool_name t = call_name tc /\ parameters t = call_args tc
    /\ duration_ms t = Some ms
    /\ (monotone e -> (0 <= ms)%Z)
    /\ (status t = "error" \/ status t = "completed")
    /\ (status t = "error" ->
        cs = []
        /\ exists message,
            content m = error_payload message
            /\ result_summary t = Some (ErrorText ("Error: " +:+ message)))
    /\ (tool_map e (call_name tc) = None ->
        status t = "error"
        /\ content m = error_payload ("Unknown tool: " +:+ call_name tc))
    /\ (forall f message,
          tool_map e (call_name tc) = Some f ->
          f (call_args tc) = ToolRaised message ->
          status t = "error" /\ content m = error_payload message)
    /\ (forall f result,
          tool_map e (call_name tc) = Some f ->
          f (call_args tc) = ToolReturned result ->
          (status t = "completed" /\ content m = _truncate_result result
           /\ (forall d, result = JDict d ->
                 items_returned t = Some (items_count d)
                 /\ result_summary t = Some (ItemsReturned (items_count d) ms)
                 /\ iterate (default (JList []) (dict_get "caveats" d)) = inl cs))
          \/ (exists message, caveats_unreadable result message
                /\ status t = "error" /\ content m = error_payload message)).
Proof.
  unfold run_call.
  assert (Mono : forall k, tick <= k -> monotone e ->
                           (0 <= elapsed_ms (time e tick) (time e k))%Z).
  { intros k Hk Hm. apply elapsed_nonneg. by apply Hm. }
  destruct (tool_map e (call_name tc)) as [f|] eqn:Hf.
  - destruct (f (call_args tc)) as [result|message] eqn:Hr.
    + destruct result as [| | | | | |d].
      7: { destruct (iterate (default (JList []) (dict_get "caveats" d)))
             as [cs|message] eqn:Hit.
           - eexists _, _, _, _, _. split; [reflexivity|]. cbn.
             split; [lia|]. do 4 (split; [reflexivity|]).
             split; [apply Mono; lia|]. split; [by right|].
             split; [discriminate|]. split; [discriminate|].
             split; [intros ? ? [= <-]; congruence|].
             intros f' r' [= <-] Hr'. rewrite Hr in Hr'. injection Hr' as <-.
             left. split; [reflexivity|]. split; [reflexivity|].
             intros d' [= <-]. by rewrite Hit.
           - eexists _, _, _, _, _. split; [reflexivity|]. cbn.
             split; [lia|]. do 4 (split; [reflexivity|]).
             split; [apply Mono; lia|]. split; [by left|].
             split; [intros _; split; [reflexivity|]; by eexists|].
             split; [discriminate|].
             split; [intros ? ? [= <-]; congruence|].
             intros f' r' [= <-] Hr'. rewrite Hr in Hr'. injection Hr' as <-.
             right. exists message. split; [by exists d|]. by split. }
      all: eexists _, _, _, _, _; (split; [reflexivity|]); cbn;
        (split; [lia|]); do 4 (split; [reflexivity|]);
        (split; [apply Mono; lia|]); (split; [by right|]);
        (split; [discriminate|]); (split; [discriminate|]);
        (split; [intros ? ? [= <-]; congruence|]);
        intros f' r' [= <-] Hr'; rewrite Hr in Hr'; injection Hr' as <-;
        left; (split; [reflexivity|]); (split; [reflexivity|]);
        intros d' ?; discriminate.
    + eexists _, _, _, _, _. split; [reflexivity|]. cbn.
      split; [lia|]. do 4 (split; [reflexivity|]).
      split; [apply Mono; lia|]. split; [by left|].
      split; [intros _; split; [reflexivity|]; by eexists|].
      split; [discriminate|].
      split; [intros f' m' [= <-] Hr'; rewrite Hr in Hr'; by injection Hr' as <-|].
      intros f' r' [= <-] Hr'. congruence.
  - eexists _, _, _, _, _. split; [reflexivity|]. cbn.
    split; [lia|]. do 4 (split; [reflexivity|]).
    split; [apply Mono; lia|]. split; [by left|].
    split; [intros _; split; [reflexivity|]; by eexists|].
    split; [done|]. split; discriminate.
Qed.

Lemma run_calls_snoc e tick calls tc :
  run_calls e tick (calls ++ [tc]) = loop_step e (run_calls e tick calls) tc.
Proof. unfold run_calls. by rewrite foldl_app. Qed.

(** After the loop, the i-th message and trace are those of the i-th
    call, run at some position of the clock. *)
Lemma run_calls_spec e tick calls :
  let st := run_calls e tick calls in
  length (new_messages st) = length calls
  /\ length (new_traces st) = length calls
  /\ tick <= clock st
  /\ forall i tc, calls !! i = Some tc ->
       exists tk m t cs tk',
         run_call e tk tc = (m, t, cs, tk')
         /\ new_messages st !! i = Some m /\ new_traces st !! i = Some t.
Proof.
  induction calls as [|tc calls IH] using rev_ind.
  - simpl. repeat split; done.
  - rewrite run_calls_snoc. destruct IH as (Hm & Ht & Hc & Hi).
    unfold loop_step.
    destruct (run_call_spec e (clock (run_calls e tick calls)) tc)
      as (m & t & cs & tk' & ms & Hrun & Hlt & _).
    rewrite Hrun. cbn. rewrite !length_app, Hm, Ht. simpl.
    split; [reflexivity|]. split; [reflexivity|]. split; [lia|].
    intros i tc' Hlook.
    destruct (decide (i < length calls)) as [Hlt'|Hge].
    + rewrite lookup_app_l in Hlook by done.
      destruct (Hi i tc' Hlook) as (tk0 & m0 & t0 & cs0 & tk0' & Hr0 & Hm0 & Ht0).
      exists tk0, m0, t0, cs0, tk0'. split; [done|].
      rewrite !lookup_app_l by (rewrite ?Hm, ?Ht; done). done.
    + assert (i = length calls) as ->.
      { apply lookup_lt_Some in Hlook. rewrite length_app in Hlook. simpl in Hlook. lia. }
      rewrite list_lookup_middle in Hlook by done. injection Hlook as <-.
      exists (clock (run_calls e tick calls)), m, t, cs, tk'. split; [done|].
      split; by apply list_lookup_middle.
Qed.

Lemma dedup_total seen xs :
  Forall (fun c => is_Some (hash_key c)) xs -> is_Some (dedup seen xs).
Proof.
  intros H. revert seen. induction H as [|x xs [k Hk] _ IH]; intros seen; simpl.
  - by eexists.
  - rewrite Hk. simpl. destruct (bool_decide (k ∈ seen)); [apply IH|].
    destruct (IH (k :: seen)) as [l ->]. by eexists.
Qed.

(** A step on a wall clock that is set back ten seconds after the first
    reading, and knows no tool. *)
Definition rewound_env : env :=
  mk_env (fun _ => None) (fun n => match n with 0 => 10%Q | _ => 0%Q end)
         (fun _ => "").

(** C8, as stated, fails: the duration is the difference of two readings
    of [time.time()], and it is negative when the clock was set back in
    between. *)
Lemma clock_set_back_counterexample :
  exists t,
    new_traces (run_calls rewound_env 0 [mk_tool_call "nope" JNull "call_1"]) !! 0
    = Some t
    /\ status t = "error" /\ duration_ms t = Some (-10000)%Z.
Proof. eexists. split; [reflexivity|]. split; vm_compute; reflexivity. Qed.

(** C8 (amended): every tool call of a step - one that names an unknown
    tool and one whose tool raises included - gets exactly one
    tool-result message carrying its identifier and exactly one trace
    entry, in the order of the calls.  The trace has a duration, which
    is not negative when the clock does not run backwards; its status is "error" on a failure,
    with the payload {error: message} in the message, and "completed"
    otherwise, with the truncated result.  A failed call collects no
    caveat, so a step returns whenever the caveats it gathers can be put
    in a set. *)
Theorem tool_calls_always_answered
  (e : env) (tick : nat) (calls : list tool_call)
  (state_traces : list trace) (state_caveats : list json) :
  let st := run_calls e tick calls in
  length (new_messages st) = length calls
  /\ length (new_traces st) = length calls
  /\ (forall i tc, calls !! i = Some tc ->
      exists m t ms,
        new_messages st !! i = Some m /\ new_traces st !! i = Some t
        /\ tool_call_id m = call_id tc /\ tool_name t = call_name tc
        /\ duration_ms t = Some ms /\ (monotone e -> (0 <= ms)%Z)
        /\ (status t = "error" \/ status t = "completed")
        /\ (status t = "error" -> exists message, content m = error_payload message)
        /\ (tool_map e (call_name tc) = None ->
            status t = "error"
            /\ content m = error_payload ("Unknown tool: " +:+ call_name tc))
        /\ (forall f message,
              tool_map e (call_name tc) = Some f ->
              f (call_args tc) = ToolRaised message ->
              status t = "error" /\ content m = error_payload message)
        /\ (forall f result,
              tool_map e (call_name tc) = Some f ->
              f (call_args tc) = ToolReturned result ->
              (status t = "completed" /\ content m = _truncate_result result)
              \/ (exists message, caveats_unreadable result message
                    /\ status t = "error" /\ content m = error_payload message)))
  /\ (forall u,
        tool_execution_node e tick calls state_traces state_caveats = Some u ->
        messages u = new_messages st
        /\ tool_traces u = state_traces ++ new_traces st)
  /\ (Forall (fun c => is_Some (hash_key c)) (state_caveats ++ new_caveats st) ->
      is_Some (tool_execution_node e tick calls state_traces state_caveats)).
Proof.
  intros st. destruct (run_calls_spec e tick calls) as (Hm & Ht & _ & Hi).
  split; [exact Hm|]. split; [exact Ht|]. split; [|split].
  - intros i tc Hlook.
    destruct (Hi i tc Hlook) as (tk & m & t & cs & tk' & Hrun & Hmi & Hti).
    destruct (run_call_spec e tk tc)
      as (m' & t' & cs' & tk'' & ms & Hrun' & _ & Hid & Hname & _ & Hdur & Hpos
          & Hst & Herr & Hunk & Hraise & Hret).
    rewrite Hrun in Hrun'. injection Hrun' as <- <- <- <-.
    exists m, t, ms. do 7 (split; [assumption|]).
    split; [intros Hs; destruct (Herr Hs) as [_ (msg & Hc & _)]; by exists msg|].
    split; [exact Hunk|]. split; [exact Hraise|].
    intros f result Hf Hr. destruct (Hret f result Hf Hr) as [(A & B & _)|H]; [by left|by right].
  - intros u. unfold tool_execution_node. fold st.
    destruct (dedup [] _); [|discriminate]. simpl. by intros [= <-].
  - intros H. unfold tool_execution_node. fold st.
    destruct (dedup_total [] _ H) as [l ->]. by eexists.
Qed.

Lemma echo_env_monotone : monotone echo_env.
Proof.
  intros a b H. simpl. rewrite <- Zle_Qle. lia.
Qed.

(** A step with a call to a known tool and a call to an unknown one, on
    a clock that advances by one second at each reading: both calls are
    answered, the second with an error, and the step returns. *)
Lemma tool_calls_always_answered_witness :
  let calls := [ mk_tool_call "echo" (JDict [("total_deals", JInt 3)]) "call_1";
                 mk_tool_call "nope" JNull "call_2" ] in
  let st := run_calls echo_env 0 calls in
  length (new_messages st) = 2
  /\ (exists m t,
        new_messages st !! 1 = Some m /\ new_traces st !! 1 = Some t
        /\ tool_call_id m = "call_2" /\ status t = "error"
        /\ content m = error_payload "Unknown tool: nope"
        /\ exists ms, duration_ms t = Some ms /\ (0 <= ms)%Z)
  /\ is_Some (tool_execution_node echo_env 0 calls [] []).
Proof.
  intros calls st.
  destruct (tool_calls_always_answered echo_env 0 calls [] [])
    as (Hm & _ & Hi & _ & Hs).
  split; [exact Hm|]. split.
  - destruct (Hi 1 (mk_tool_call "nope" JNull "call_2") eq_refl)
      as (m & t & ms & H1 & H2 & H3 & _ & H5 & H6 & _ & _ & H9 & _).
    destruct (H9 eq_refl) as [Hst Hc].
    exists m, t. do 5 (split; [assumption|]).
    exists ms. split; [assumption|]. apply H6, echo_env_monotone.
  - apply Hs. vm_compute. repeat constructor.
Defined.

Example items_count_first_truthy :
  items_count [("total_deals", JInt 5)] = JInt 5
  /\ items_count [("total_deals", JInt 0); ("common_deal_count", JInt 2)] = JInt 2
  /\ items_count [("caveats", JList [])] = JInt 0.
Proof. repeat split. Qed.

(** C10: for a call whose tool returns a dictionary that is processed
    without error, the trace's items_returned and its summary hold the
    first truthy value among the result's total_deals, total_work_orders
    and common_deal_count, and 0 when none is truthy.  A result that has
    none of these three keys - as the results of aggregate_metrics and
    get_data_summary, whatever they aggregated - reports 0, and so does a
    result in which each of the three is absent or 0. *)
Theorem items_returned_sniffed (e : env) (tick : nat) (tc : tool_call) (d : dict) :
  (forall f cs,
     tool_map e (call_name tc) = Some f ->
     f (call_args tc) = ToolReturned (JDict d) ->
     iterate (default (JList []) (dict_get "caveats" d)) = inl cs ->
     exists m t tick' ms,
       run_call e tick tc = (m, t, cs, tick') /\ status t = "completed"
       /\ items_returned t = Some (items_count d)
       /\ result_summary t = Some (ItemsReturned (items_count d) ms)
       /\ duration_ms t = Some ms)
  /\ (jtruthy (jget d "total_deals") = true -> items_count d = jget d "total_deals")
  /\ (jtruthy (jget d "total_deals") = false ->
      jtruthy (jget d "total_work_orders") = true ->
      items_count d = jget d "total_work_orders")
  /\ (jtruthy (jget d "total_deals") = false ->
      jtruthy (jget d "total_work_orders") = false ->
      jtruthy (jget d "common_deal_count") = true ->
      items_count d = jget d "common_deal_count")
  /\ (jtruthy (jget d "total_deals") = false ->
      jtruthy (jget d "total_work_orders") = false ->
      jtruthy (jget d "common_deal_count") = false ->
      items_count d = JInt 0)
  /\ ((forall k, k ∈ count_keys -> k ∉ keys d) -> items_count d = JInt 0)
  /\ (keys d = Tools.aggregate_metrics_keys \/ keys d = Tools.get_data_summary_keys ->
      items_count d = JInt 0)
  /\ ((forall k, k ∈ count_keys ->
         dict_get k d = None \/ dict_get k d = Some (JInt 0)) ->
      items_count d = JInt 0).
Proof.
  assert (Z3 : forall a b c,
             jtruthy a = false -> jtruthy b = false -> jtruthy c = false ->
             jor (jor (jor a b) c) (JInt 0) = JInt 0).
  { intros a b c Ha Hb Hc. unfold jor. by rewrite Ha, Hb, Hc. }
  assert (Zabs : (forall k, k ∈ count_keys -> k ∉ keys d) -> items_count d = JInt 0).
  { intros H. unfold items_count.
    rewrite !jget_missing by (apply H; unfold count_keys; repeat constructor).
    reflexivity. }
  split; [|split; [|split; [|split; [|split; [|split; [|split]]]]]].
  - intros f cs Hf Hr Hit. unfold run_call. rewrite Hf, Hr, Hit.
    eexists _, _, _, _. by repeat split.
  - intros Ha. unfold items_count, jor. by rewrite !Ha.
  - intros Ha Hb. unfold items_count, jor. by rewrite Ha, !Hb.
  - intros Ha Hb Hc. unfold items_count, jor. by rewrite Ha, Hb, !Hc.
  - intros Ha Hb Hc. by apply Z3.
  - exact Zabs.
  - intros [H|H]; apply Zabs; intros k Hk; rewrite H; unfold count_keys in Hk;
      repeat (apply elem_of_cons in Hk as [->|Hk]); try (by inversion Hk);
      apply (bool_decide_eq_true_1 (_ ∉ _)); vm_compute; reflexivity.
  - intros H. apply Z3.
    all: match goal with
         | |- jtruthy (jget _ ?k) = false =>
             unfold jget; destruct (H k) as [-> | ->];
             [unfold count_keys; repeat constructor|reflexivity|reflexivity]
         end.
Qed.

End Dispatch.

(** * Further properties *)

(** ** Quantities *)

Section Quantities.
Import PyStr PyNum DataCleaner.

(** The characters [re.sub(r"[^\d.]", "", value)] keeps. *)
Definition quantity_char (c : ascii) : bool := is_digit c || Ascii.eqb c ".".

Fixpoint count_chars (p : ascii -> bool) (s : string) : nat :=
  match s with
  | EmptyString => 0
  | String c s' => (if p c then 1 else 0) + count_chars p s'
  end.

Fixpoint all_chars (p : ascii -> bool) (s : string) : bool :=
  match s with
  | EmptyString => true
  | String c s' => p c && all_chars p s'
  end.

Definition is_dot (c : ascii) : bool := Ascii.eqb c ".".

(** Not negative: a finite number at least 0, or plus infinity. *)
Definition non_negative (x : pyfloat) : Prop :=
  x = FInf false \/ exists q, x = FFin q /\ (0 <= q)%Qc.

Lemma all_chars_keep p s : all_chars p (keep p s) = true.
Proof.
  induction s as [|c s IH]; simpl; [reflexivity|].
  destruct (p c) eqn:E; simpl; [by rewrite E|exact IH].
Qed.

Lemma keep_all_chars p s : all_chars p s = true -> keep p s = s.
Proof.
  induction s as [|c s IH]; simpl; [reflexivity|].
  intros [Hc Hs]%andb_true_iff. rewrite Hc. by rewrite IH.
Qed.

Lemma keep_keep p s : keep p (keep p s) = keep p s.
Proof. apply keep_all_chars, all_chars_keep. Qed.

Lemma count_chars_keep p q s :
  (forall c, q c = true -> p c = true) ->
  count_chars q (keep p s) = count_chars q s.
Proof.
  intros H. induction s as [|c s IH]; simpl; [reflexivity|].
  destruct (p c) eqn:E; simpl; [by rewrite IH|].
  destruct (q c) eqn:Eq; [|exact IH]. apply H in Eq. congruence.
Qed.

Lemma quantity_char_facts (c : ascii) :
  quantity_char c = true ->
  is_space c = false /\ lower c = c /\ c <> "_"%char /\ c <> "-"%char
  /\ c <> "+"%char /\ c <> "i"%char /\ c <> "n"%char /\ c <> "e"%char
  /\ (is_digit c = false -> c = "."%char).
Proof.
  intros H.
  pose proof (for_all_ascii
    (fun c => implb (quantity_char c)
                (negb (is_space c) && Ascii.eqb (lower c) c
                 && negb (Ascii.eqb c "_") && negb (Ascii.eqb c "-")
                 && negb (Ascii.eqb c "+") && negb (Ascii.eqb c "i")
                 && negb (Ascii.eqb c "n") && negb (Ascii.eqb c "e")
                 && (is_digit c || Ascii.eqb c ".")))) as A.
  specialize (A ltac:(vm_compute; reflexivity) c). cbv beta in A.
  rewrite H in A. cbn [implb] in A.
  repeat (apply andb_true_iff in A as [A ?]).
  repeat match goal with
         | X : negb _ = true |- _ => apply negb_true_iff in X
         end.
  repeat split; try assumption.
  - by apply Ascii.eqb_eq.
  - intros ->. discriminate.
  - intros ->. discriminate.
  - intros ->. discriminate.
  - intros ->. discriminate.
  - intros ->. discriminate.
  - intros ->. discriminate.
  - intros Hd. apply Ascii.eqb_eq. rewrite Hd in *. assumption.
Qed.

Lemma drop_underscores_plain prev s :
  all_chars quantity_char s = true -> prev <> "_"%char ->
  drop_underscores prev s = Some s.
Proof.
  revert prev. induction s as [|c s IH]; intros prev Hs Hp; simpl.
  - destruct (Ascii.eqb_spec prev "_"); [done|reflexivity].
  - simpl in Hs. apply andb_true_iff in Hs as [Hc Hs].
    destruct (quantity_char_facts c Hc) as (_ & _ & Hu & _).
    destruct (Ascii.eqb_spec c "_"); [done|].
    destruct (Ascii.eqb_spec prev "_"); [done|]. simpl.
    by rewrite (IH c Hs Hu).
Qed.

Lemma lstrip_plain s : all_chars quantity_char s = true -> lstrip s = s.
Proof.
  destruct s as [|c s]; simpl; [reflexivity|].
  intros [Hc _]%andb_true_iff.
  destruct (quantity_char_facts c Hc) as (-> & _). reflexivity.
Qed.

Lemma rstrip_plain s : all_chars quantity_char s = true -> rstrip s = s.
Proof.
  induction s as [|c s IH]; simpl; [reflexivity|].
  intros [Hc Hs]%andb_true_iff. rewrite (IH Hs).
  destruct (quantity_char_facts c Hc) as (-> & _). by destruct s.
Qed.

Lemma lower_str_plain s : all_chars quantity_char s = true -> lower_str s = s.
Proof.
  unfold lower_str. induction s as [|c s IH]; simpl; [reflexivity|].
  intros [Hc Hs]%andb_true_iff.
  destruct (quantity_char_facts c Hc) as (_ & -> & _). by rewrite IH.
Qed.

Lemma digit_val_nonneg c : is_digit c = true -> (0 <= digit_val c)%Z.
Proof.
  unfold is_digit, in_range, digit_val. intros [H _]%andb_true_iff.
  apply N.leb_le in H. lia.
Qed.

Lemma digits_val_nonneg s acc :
  all_chars is_digit s = true -> (0 <= acc)%Z -> (0 <= digits_val acc s)%Z.
Proof.
  revert acc. induction s as [|c s IH]; intros acc Hs Ha; simpl; [exact Ha|].
  simpl in Hs. apply andb_true_iff in Hs as [Hc Hs].
  apply IH; [exact Hs|]. pose proof (digit_val_nonneg c Hc). lia.
Qed.

Lemma span_spec p s :
  let '(a, b) := span p s in
  s = a +:+ b /\ all_chars p a = true
  /\ match b with String c _ => p c = false | EmptyString => True end.
Proof.
  induction s as [|c s IH]; simpl; [done|].
  destruct (p c) eqn:E.
  - destruct (span p s) as [a b]. destruct IH as (-> & Ha & Hb).
    simpl. by rewrite E.
  - by simpl.
Qed.

Lemma all_chars_app p a b :
  all_chars p (a +:+ b) = all_chars p a && all_chars p b.
Proof.
  induction a as [|c a IH]; simpl; [reflexivity|]. by rewrite IH, andb_assoc.
Qed.

Lemma count_chars_app p a b :
  count_chars p (a +:+ b) = count_chars p a + count_chars p b.
Proof. induction a as [|c a IH]; simpl; [reflexivity|]. rewrite IH. lia. Qed.

Lemma Qpower_10_pos z : (0 < Qpower 10 z)%Q.
Proof. by apply Qpower_0_lt. Qed.

(** A literal without a sign denotes a number that is not negative. *)
Lemma parse_decimal_nonneg s q : parse_decimal s = Some q -> (0 <= q)%Q.
Proof.
  unfold parse_decimal.
  pose proof (span_spec is_digit s) as H1. destruct (span is_digit s) as [ip r1].
  destruct H1 as (_ & Hip & _).
  assert (H2 : forall r, let '(fp, r2) := span is_digit r in all_chars is_digit fp = true).
  { intros r. pose proof (span_spec is_digit r) as H. destruct (span is_digit r).
    tauto. }
  assert (M : forall fp, all_chars is_digit fp = true ->
                         (0 <= inject_Z (digits_val 0 (ip +:+ fp)))%Q).
  { intros fp Hfp. change 0%Q with (inject_Z 0). rewrite <- Zle_Qle.
    apply digits_val_nonneg; [|lia]. by rewrite all_chars_app, Hip, Hfp. }
  assert (K : forall fp r2 (Hfp : all_chars is_digit fp = true),
             (if String.eqb (ip +:+ fp) "" then None else
              let mant := digits_val 0 (ip +:+ fp) in
              let scale := (- Z.of_nat (String.length fp))%Z in
              match r2 with
              | EmptyString => Some (inject_Z mant * Qpower 10 scale)%Q
              | String e r3 =>
                  if Ascii.eqb (lower e) "e" then
                    let '(eneg, r4) := take_sign r3 in
                    let '(ed, r5) := span is_digit r4 in
                    if String.eqb ed "" || negb (String.eqb r5 "") then None else
                    let ev := digits_val 0 ed in
                    Some (inject_Z mant
                          * Qpower 10 (scale + (if eneg then - ev else ev)))%Q
                  else None
              end) = Some q -> (0 <= q)%Q).
  { intros fp r2 Hfp. destruct (String.eqb (ip +:+ fp) ""); [discriminate|].
    cbv zeta. destruct r2 as [|e r3].
    - intros [= <-]. apply Qmult_le_0_compat; [by apply M|].
      apply Qlt_le_weak, Qpower_10_pos.
    - destruct (Ascii.eqb (lower e) "e"); [|discriminate].
      destruct (take_sign r3) as [eneg r4]. destruct (span is_digit r4) as [ed r5].
      destruct (String.eqb ed "" || negb (String.eqb r5 "")); [discriminate|].
      intros [= <-]. apply Qmult_le_0_compat; [by apply M|].
      apply Qlt_le_weak, Qpower_10_pos. }
  destruct r1 as [|c r].
  - intros H. exact (K "" "" eq_refl H).
  - destruct (Ascii.eqb_spec c ".") as [->|Hc].
    + specialize (H2 r). destruct (span is_digit r) as [fp r2].
      intros H. exact (K fp r2 H2 H).
    + assert (E : match String c r with
                  | String "." r0 => span is_digit r0
                  | _ => (EmptyString, String c r)
                  end = (EmptyString, String c r)).
      { destruct c as [[] [] [] [] [] [] [] []]; try reflexivity. by destruct Hc. }
      rewrite E. intros H. exact (K "" (String c r) eq_refl H).
Qed.

Lemma count_digits_all a :
  all_chars is_digit a = true ->
  count_chars is_digit a = String.length a /\ count_chars is_dot a = 0.
Proof.
  induction a as [|c a IH]; simpl; [done|].
  intros [Hc Ha]%andb_true_iff. destruct (IH Ha) as [-> ->]. rewrite Hc.
  split; [reflexivity|]. unfold is_dot.
  destruct (Ascii.eqb_spec c ".") as [->|]; [discriminate|reflexivity].
Qed.

Lemma eqb_empty s : String.eqb s "" = true <-> String.length s = 0.
Proof. destruct s; simpl; [done|]. split; discriminate. Qed.

Lemma length_append a b : String.length (a +:+ b) = String.length a + String.length b.
Proof. induction a as [|c a IH]; simpl; [reflexivity|]. by rewrite IH. Qed.

Lemma is_Some_guard {A} (b : bool) (x : A) :
  is_Some (if b then None else Some x) <-> b = false.
Proof. destruct b; split; intros H; try done; by destruct H. Qed.

(** On digits and dots [float] accepts exactly the texts with a digit
    and at most one dot. *)
Lemma parse_decimal_plain n :
  all_chars quantity_char n = true ->
  is_Some (parse_decimal n)
  <-> 0 < count_chars is_digit n /\ count_chars is_dot n <= 1.
Proof.
  intros Hn. unfold parse_decimal.
  pose proof (span_spec is_digit n) as H1. destruct (span is_digit n) as [ip r1].
  destruct H1 as (-> & Hip & Hr1).
  rewrite all_chars_app in Hn. apply andb_true_iff in Hn as [_ Hr].
  rewrite !count_chars_app. destruct (count_digits_all ip Hip) as [-> ->].
  destruct r1 as [|c r].
  - cbn [count_chars]. rewrite is_Some_guard.
    destruct (String.eqb (ip +:+ "") "") eqn:E.
    + apply eqb_empty in E. rewrite length_append in E. split; [done|lia].
    + split; [intros _|done]. split; [|lia].
      destruct (String.length ip) eqn:L; [|lia].
      assert (E' : String.eqb (ip +:+ "") "" = true).
      { apply eqb_empty. rewrite length_append, L. reflexivity. }
      congruence.
  - cbn [all_chars] in Hr. apply andb_true_iff in Hr as [Hc Hr].
    destruct (quantity_char_facts c Hc) as (_ & _ & _ & _ & _ & _ & _ & _ & Hdot).
    rewrite (Hdot Hr1). clear Hdot Hc Hr1 c.
    pose proof (span_spec is_digit r) as H2. destruct (span is_digit r) as [fp r2].
    destruct H2 as (-> & Hfp & Hr2).
    rewrite all_chars_app in Hr. apply andb_true_iff in Hr as [_ Hr].
    change (count_chars is_digit (String "." (fp +:+ r2)))
      with (count_chars is_digit (fp +:+ r2)).
    change (count_chars is_dot (String "." (fp +:+ r2)))
      with (S (count_chars is_dot (fp +:+ r2))).
    rewrite !count_chars_app. destruct (count_digits_all fp Hfp) as [-> ->].
    destruct r2 as [|e r3].
    + cbn [count_chars]. rewrite is_Some_guard.
      destruct (String.eqb (ip +:+ fp) "") eqn:E.
      * apply eqb_empty in E. rewrite length_append in E. split; [done|lia].
      * split; [intros _|done]. split; [|lia].
        destruct (String.length ip + String.length fp) eqn:L; [|lia].
        assert (E' : String.eqb (ip +:+ fp) "" = true).
        { apply eqb_empty. by rewrite length_append. }
        congruence.
    + cbn [all_chars] in Hr. apply andb_true_iff in Hr as [He Hr].
      destruct (quantity_char_facts e He) as (_ & _ & _ & _ & _ & _ & _ & _ & Hdot).
      rewrite (Hdot Hr2).
      change (Ascii.eqb (lower ".") "e") with false. cbv zeta.
      change (count_chars is_dot (String "." r3)) with (S (count_chars is_dot r3)).
      split.
      * destruct (String.eqb (ip +:+ fp) ""); intros [x Hx]; discriminate.
      * lia.
Qed.

Lemma py_float_plain n :
  all_chars quantity_char n = true -> n <> "" ->
  py_float n
  = (q ← parse_decimal n;
     Some (if Qle_bool overflow_threshold q then FInf false else FFin (Q2Qc q))).
Proof.
  intros Hn Hne. unfold py_float.
  rewrite drop_underscores_plain by (exact Hn || discriminate).
  cbn [mbind option_bind]. unfold strip. rewrite lstrip_plain, rstrip_plain by exact Hn.
  destruct n as [|c n]; [done|]. cbn [all_chars] in Hn.
  apply andb_true_iff in Hn as [Hc Hn'].
  destruct (quantity_char_facts c Hc) as (_ & _ & _ & Hm & Hp & Hi & Hnn & _).
  assert (T : take_sign (String c n) = (false, String c n)).
  { unfold take_sign. destruct c as [[] [] [] [] [] [] [] []]; try reflexivity;
      [by destruct Hp|by destruct Hm]. }
  rewrite T. rewrite lower_str_plain by (cbn [all_chars]; by rewrite Hc, Hn').
  assert (E1 : String.eqb (String c n) "inf" = false).
  { apply String.eqb_neq. intros [= -> _]. by destruct Hi. }
  assert (E2 : String.eqb (String c n) "infinity" = false).
  { apply String.eqb_neq. intros [= -> _]. by destruct Hi. }
  assert (E3 : String.eqb (String c n) "nan" = false).
  { apply String.eqb_neq. intros [= -> _]. by destruct Hnn. }
  rewrite E1, E2, E3. cbn [orb].
  destruct (parse_decimal (String c n)) as [q|]; [|reflexivity].
  cbn [mbind option_bind]. by destruct (Qle_bool overflow_threshold q).
Qed.

(** X1. [_parse_quantity] reads the digits and dots of a quantity and
    nothing else: every other character - a unit, a sign, an exponent
    letter, a thousands separator - is dropped before the number is
    read.  It gives a number exactly when the text holds at least one
    digit and at most one dot, and that number is never negative and
    never a NaN. *)
Theorem parse_quantity_reads_digits (s : string) :
  _parse_quantity s = _parse_quantity (keep quantity_char s)
  /\ (is_Some (_parse_quantity s)
      <-> 0 < count_chars is_digit s /\ count_chars is_dot s <= 1)
  /\ (forall x, _parse_quantity s = Some x -> non_negative x).
Proof.
  assert (F : forall t, _parse_quantity t
                        = if String.eqb (keep quantity_char t) "" then None
                          else py_float (keep quantity_char t)).
  { intros t. unfold _parse_quantity. fold quantity_char.
    destruct t as [|c t]; [reflexivity|]. reflexivity. }
  assert (P : forall t, keep quantity_char t <> "" ->
                        _parse_quantity t
                        = (q ← parse_decimal (keep quantity_char t);
                           Some (if Qle_bool overflow_threshold q
                                 then FInf false else FFin (Q2Qc q)))).
  { intros t Hne. rewrite F. apply String.eqb_neq in Hne as E. rewrite E.
    apply py_float_plain; [apply all_chars_keep|exact Hne]. }
  split; [by rewrite !F, keep_keep|]. split.
  - rewrite <- (count_chars_keep quantity_char is_digit s),
            <- (count_chars_keep quantity_char is_dot s).
    2: { intros c Hc. unfold quantity_char. unfold is_dot in Hc. rewrite Hc.
         apply orb_true_r. }
    2: { intros c Hc. unfold quantity_char. by rewrite Hc. }
    rewrite <- parse_decimal_plain by apply all_chars_keep.
    destruct (String.eqb_spec (keep quantity_char s) "") as [E|Hne].
    + rewrite F, E.
      change (is_Some (@None pyfloat) <-> is_Some (@None Q)).
      split; intros [? ?]; discriminate.
    + rewrite (P s Hne). destruct (parse_decimal (keep quantity_char s)); simpl.
      * split; intros _; by eexists.
      * split; intros [? ?]; discriminate.
  - intros x. destruct (String.eqb_spec (keep quantity_char s) "") as [E|Hne].
    + rewrite F, E. discriminate.
    + rewrite (P s Hne).
      destruct (parse_decimal (keep quantity_char s)) as [q|] eqn:D; [|discriminate].
      cbn [mbind option_bind]. intros [= <-].
      destruct (Qle_bool overflow_threshold q); [by left|right].
      exists (Q2Qc q). split; [reflexivity|].
      apply parse_decimal_nonneg in D. unfold Qcle. simpl.
      by rewrite (Qred_correct q).
Qed.

End Quantities.

(** ** What cleaning keeps, fixes and logs *)

Section CleaningLog.
Import PyStr PyNum DataCleaner.

(** The raw value is the misspelt billing status. *)
Definition misspelt (r : record) : bool :=
  bool_decide (get r "Billing Status" = VStr "BIlled").

(** A text without white space at either end. *)
Definition stripped (v : value) : Prop :=
  forall s, v = VStr s -> strip s = s.

Definition text_fields : list string :=
  [ "Sector/service"; "Deal Stage"; "Deal Status"; "Owner code" ].

Lemma lstrip_head s :
  match s with String c _ => is_space c = false | EmptyString => True end ->
  lstrip s = s.
Proof. destruct s as [|c s]; simpl; [done|]. by intros ->. Qed.

Lemma lstrip_shape s :
  match lstrip s with String c _ => is_space c = false | EmptyString => True end.
Proof.
  induction s as [|c s IH]; simpl; [done|].
  destruct (is_space c) eqn:E; [exact IH|exact E].
Qed.

Lemma rstrip_head s :
  match s with String c _ => is_space c = false | EmptyString => True end ->
  match rstrip s with String c _ => is_space c = false | EmptyString => True end.
Proof.
  destruct s as [|c s]; simpl; [done|]. intros E.
  destruct (rstrip s); [by rewrite E|exact E].
Qed.

Lemma rstrip_rstrip s : rstrip (rstrip s) = rstrip s.
Proof.
  induction s as [|c s IH]; simpl; [reflexivity|].
  destruct (rstrip s) as [|d r] eqn:E.
  - destruct (is_space c) eqn:Ec; simpl; [reflexivity|by rewrite Ec].
  - change (rstrip (String c (String d r)))
      with (match rstrip (String d r) with
            | EmptyString => if is_space c then EmptyString else String c EmptyString
            | r' => String c r'
            end).
    by rewrite IH.
Qed.

Lemma strip_strip s : strip (strip s) = strip s.
Proof.
  unfold strip.
  rewrite (lstrip_head (rstrip (lstrip s))) by apply rstrip_head, lstrip_shape.
  apply rstrip_rstrip.
Qed.

Lemma is_typo_misspelt r : is_typo r = misspelt r.
Proof.
  unfold is_typo, misspelt, py_eqb.
  destruct (bool_decide_reflect (get r "Billing Status" = VStr "BIlled")) as [->|];
    [reflexivity|apply andb_false_r].
Qed.

Lemma clean_wo_record_billing r :
  get (clean_wo_record r) "Billing Status"
  = if misspelt r then VStr "Billed" else get r "Billing Status".
Proof.
  unfold clean_wo_record, strip_step, quantity_step.
  rewrite !get_string_step_ne by discriminate.
  rewrite foldl_number_step_other
    by (apply (bool_decide_eq_true_1 (_ ∉ _)); vm_compute; reflexivity).
  rewrite foldl_string_step_other
    by (apply (bool_decide_eq_true_1 (_ ∉ _)); vm_compute; reflexivity).
  rewrite is_typo_misspelt. destruct (misspelt r); [apply get_insert_eq|reflexivity].
Qed.

Lemma wo_foldl_count (rs : list record) acc n :
  (foldl wo_step (acc, n) rs).2 = n + count_if misspelt rs.
Proof.
  revert acc n. induction rs as [|r rs IH]; intros acc n; simpl; [unfold count_if; simpl; lia|].
  unfold wo_step at 2. cbn [fst snd]. rewrite IH, is_typo_misspelt.
  unfold count_if. simpl. destruct (misspelt r); simpl; lia.
Qed.

Lemma deals_foldl_count (rs : list record) acc n :
  (foldl deals_step (acc, n) rs).2 = n + count_if _is_header_row rs.
Proof.
  revert acc n. induction rs as [|r rs IH]; intros acc n; simpl; [unfold count_if; simpl; lia|].
  unfold deals_step at 2. unfold count_if. simpl.
  destruct (_is_header_row r); cbn [fst snd]; rewrite IH; unfold count_if; simpl; lia.
Qed.

Lemma get_strip_step_ne r k k' : k <> k' -> get (strip_step r k) k' = get r k'.
Proof. apply get_string_step_ne. Qed.

Lemma get_strip_step_eq (r : record) k :
  get (strip_step r k) k
  = match get r k with VStr s => VStr (strip s) | v => v end.
Proof.
  unfold strip_step, string_step.
  destruct (get r k) as [|s|y] eqn:E; rewrite ?E; try reflexivity.
  destruct (truthy (VStr s)) eqn:T; [apply get_insert_eq|].
  rewrite E. simpl in T. apply negb_false_iff, String.eqb_eq in T. by subst.
Qed.

Lemma get_dates_step_text r k :
  k ∈ text_fields ->
  get (foldl date_step (number_step r "Masked Deal value") date_fields) k = get r k.
Proof.
  intros Hk. unfold date_step. rewrite foldl_string_step_other.
  - apply get_number_step_ne. intros <-. revert Hk.
    apply (bool_decide_eq_true_1 (_ ∉ _)). vm_compute. reflexivity.
  - unfold text_fields in Hk.
    repeat (apply elem_of_cons in Hk as [->|Hk]); try (by inversion Hk);
      apply (bool_decide_eq_true_1 (_ ∉ _)); vm_compute; reflexivity.
Qed.

Lemma clean_deal_record_text r f :
  f ∈ text_fields ->
  get (clean_deal_record r) f
  = match get r f with VStr s => VStr (strip s) | v => v end.
Proof.
  intros Hf. unfold clean_deal_record. cbv zeta.
  pose proof (get_dates_step_text r f Hf) as B.
  unfold text_fields in Hf.
  repeat (apply elem_of_cons in Hf as [->|Hf]); try (by inversion Hf).
  - rewrite !get_strip_step_ne by discriminate. by rewrite get_strip_step_eq, B.
  - rewrite !get_strip_step_ne by discriminate.
    by rewrite get_strip_step_eq, get_strip_step_ne, B.
  - rewrite !get_strip_step_ne by discriminate.
    by rewrite get_strip_step_eq, !get_strip_step_ne, B.
  - by rewrite get_strip_step_eq, !get_strip_step_ne, B.
Qed.

Lemma header_match_cleaned r chk :
  chk ∈ header_checks ->
  header_match (clean_deal_record r) chk = header_match r chk.
Proof.
  intros H. unfold header_match.
  assert (Hf : chk.1 ∈ text_fields).
  { unfold header_checks in H.
    repeat (apply elem_of_cons in H as [->|H]); try (by inversion H);
      apply (bool_decide_eq_true_1 (_ ∈ _)); vm_compute; reflexivity. }
  rewrite (clean_deal_record_text r _ Hf).
  destruct (get r chk.1) as [|s|x]; try reflexivity.
  rewrite strip_strip.
  destruct (String.eqb_spec (strip s) chk.2) as [E|]; [|by rewrite !andb_false_r].
  rewrite !andb_true_r. rewrite E.
  assert (N : chk.2 <> "").
  { unfold header_checks in H.
    repeat (apply elem_of_cons in H as [->|H]); try (by inversion H); discriminate. }
  assert (N' : s <> "") by (intros ->; by apply N).
  simpl. apply String.eqb_neq in N, N'. by rewrite N, N'.
Qed.

Lemma is_header_row_cleaned r :
  _is_header_row (clean_deal_record r) = _is_header_row r.
Proof.
  unfold _is_header_row, suspicious_matches. f_equal. f_equal.
  apply filter_ext_in. intros chk H. apply header_match_cleaned.
  by apply list_elem_of_In.
Qed.

(** X2. [clean_workorders] drops no work order and keeps their order;
    it rewrites the billing status "BIlled" to "Billed" and leaves every
    other billing status as it is, so no cleaned work order is left with
    the misspelt status; and its log holds one entry, with the number
    of records rewritten, exactly when there was one. *)
Theorem clean_workorders_fixes_typo (rs : list record) :
  let c := clean_workorders rs in
  let fixes := count_if misspelt rs in
  Forall2 (fun r k =>
             get k "Billing Status"
             = if misspelt r then VStr "Billed" else get r "Billing Status")
          rs (cleaned c)
  /\ Forall (fun k => get k "Billing Status" <> VStr "BIlled") (cleaned c)
  /\ cleaning_log c = (if 0 <? fixes then [FixedTypos fixes] else [])
  /\ (cleaning_log c = [] <-> Forall (fun r => misspelt r = false) rs).
Proof.
  intros c fixes.
  assert (L : cleaning_log c = if 0 <? fixes then [FixedTypos fixes] else []).
  { unfold c, clean_workorders. pose proof (wo_foldl_count rs [] 0) as H.
    destruct (foldl wo_step ([], 0) rs) as [cl n]. simpl in H. subst n. reflexivity. }
  split; [|split; [|split]].
  - unfold c. rewrite clean_workorders_cleaned. clear.
    induction rs as [|r rs' IH]; simpl; constructor;
      [apply clean_wo_record_billing|apply IH].
  - unfold c. rewrite clean_workorders_cleaned. apply List.Forall_forall.
    intros k [r [<- _]]%in_map_iff. rewrite clean_wo_record_billing.
    destruct (misspelt r) eqn:E; [discriminate|].
    unfold misspelt in E. by apply bool_decide_eq_false_1 in E.
  - exact L.
  - rewrite L. unfold fixes, count_if. clear. induction rs as [|r rs IH]; simpl.
    + split; [constructor|reflexivity].
    + destruct (misspelt r) eqn:E; simpl.
      * split; [discriminate|]. intros H. apply List.Forall_inv in H. congruence.
      * rewrite IH. split; [by constructor|]. intros H. by apply List.Forall_inv_tail in H.
Qed.

(** X3. [clean_deals] returns, in the order given, the rows that are not
    header rows, each one cleaned, and nothing else: the rows kept and
    the header rows add up to the rows given.  Its log holds one entry, with the number of header rows, exactly
    when one was removed.  In every row kept the sector, stage, status
    and owner code have no white space left at either end, and no row
    kept is a header row - cleaning what was cleaned would remove
    nothing more. *)
Theorem clean_deals_removes_headers (rs : list record) :
  let c := clean_deals rs in
  let headers := count_if _is_header_row rs in
  cleaned c
  = map clean_deal_record (List.filter (fun r => negb (_is_header_row r)) rs)
  /\ length (cleaned c) + headers = length rs
  /\ cleaning_log c = (if 0 <? headers then [RemovedHeaderRows headers] else [])
  /\ Forall (fun k => _is_header_row k = false
                      /\ forall f, f ∈ text_fields -> stripped (get k f))
            (cleaned c)
  /\ cleaning_log (clean_deals (cleaned c)) = [].
Proof.
  intros c headers.
  assert (K : Forall (fun k => _is_header_row k = false) (cleaned c)).
  { unfold c. rewrite clean_deals_cleaned. apply List.Forall_forall.
    intros k [r [<- Hr]]%in_map_iff. apply filter_In in Hr as [_ Hr].
    rewrite is_header_row_cleaned. by apply negb_true_iff. }
  assert (C : forall l, cleaning_log (clean_deals l)
                        = if 0 <? count_if _is_header_row l
                          then [RemovedHeaderRows (count_if _is_header_row l)] else []).
  { intros l. unfold clean_deals. pose proof (deals_foldl_count l [] 0) as H.
    destruct (foldl deals_step ([], 0) l) as [cl n]. simpl in H. subst n. reflexivity. }
  split; [apply clean_deals_cleaned|]. split; [|split; [|split]].
  - unfold c, headers, count_if. rewrite clean_deals_cleaned, length_map.
    clear. induction rs as [|r rs IH]; simpl; [reflexivity|].
    destruct (_is_header_row r); simpl; lia.
  - apply C.
  - apply List.Forall_forall. intros k Hk. split.
    + rewrite List.Forall_forall in K. by apply K.
    + unfold c in Hk. rewrite clean_deals_cleaned in Hk.
      apply in_map_iff in Hk as [r [<- _]]. intros f Hf s.
      rewrite (clean_deal_record_text r f Hf).
      destruct (get r f); try discriminate. intros [= <-]. apply strip_strip.
  - rewrite C. replace (count_if _is_header_row (cleaned c)) with 0; [reflexivity|].
    unfold count_if. induction K as [|k l Hk _ IH]; simpl; [reflexivity|].
    rewrite Hk. exact IH.
Qed.

End CleaningLog.

(** ** Filters of the query tools *)

Section Filters.
Import PyStr PyNum StrpTime DataCleaner Tools.

(** The record passes every filter that is not [None]. *)
Definition passes (filters : list (string * filter_value)) (r : record) : bool :=
  forallb (fun kv => match kv.2 with
                     | Scalar VNone => true
                     | fv => selects kv.1 fv r
                     end) filters.

(** The record agrees with a tool argument: an argument that is [None]
    or empty asks for nothing. *)
Definition agrees (r : record) (column : string) (arg : option string) : Prop :=
  match arg with
  | Some s => s <> "" -> get r column = VStr s
  | None => True
  end.

(** The tentative close date lies in the window of the bounds given. *)
Definition in_window (date_from date_to : option string) (r : record) : bool :=
  match get r "Tentative Close Date" with
  | VStr t =>
      negb (String.eqb t "")
      && negb (given date_from && ltb t (default "" date_from))
      && negb (given date_to && ltb (default "" date_to) t)
  | _ => false
  end.

(** A tentative close date that is a number other than zero. *)
Definition numeric_date (r : record) : bool :=
  match get r "Tentative Close Date" with
  | VNum x => truthy (VNum x)
  | _ => false
  end.

(** Calendar order of two dates. *)
Definition before (a b : fields) : Prop :=
  (year a < year b
   \/ (year a = year b
       /\ (month a < month b \/ (month a = month b /\ day a < day b))))%Z.

Lemma filter_all {A} (p : A -> bool) l :
  (forall x, p x = true) -> List.filter p l = l.
Proof.
  intros H. induction l as [|x l IH]; simpl; [reflexivity|]. by rewrite H, IH.
Qed.

Lemma filter_step_filter filtered kv :
  filter_step filtered kv = List.filter (passes [kv]) filtered.
Proof.
  unfold filter_step, passes. cbn [forallb].
  destruct kv as [k [[| |]|]]; cbn [fst snd];
    try (apply filter_ext; intros r; by rewrite andb_true_r).
  symmetry. by apply filter_all.
Qed.

Lemma filter_filter {A} (p q : A -> bool) l :
  List.filter q (List.filter p l) = List.filter (fun x => p x && q x) l.
Proof.
  induction l as [|x l IH]; simpl; [reflexivity|].
  destruct (p x); simpl; [destruct (q x); by rewrite IH|exact IH].
Qed.

Lemma filter_records_filter rs fs :
  _filter_records rs fs = List.filter (passes fs) rs.
Proof.
  unfold _filter_records. revert rs. induction fs as [|kv fs IH]; intros rs; simpl.
  - symmetry. by apply filter_all.
  - rewrite IH, filter_step_filter, filter_filter. apply filter_ext.
    intros r. unfold passes. cbn [forallb]. by rewrite andb_true_r.
Qed.

Lemma passes_app fs gs r : passes (fs ++ gs) r = passes fs r && passes gs r.
Proof. unfold passes. apply forallb_app. Qed.

Lemma passes_arg r column arg :
  passes (arg_filter column arg) r = true <-> agrees r column arg.
Proof.
  unfold arg_filter, agrees. destruct arg as [s|]; [|done].
  destruct (String.eqb_spec s "") as [->|Hs]; [done|].
  unfold passes, selects, py_eqb. cbn [forallb fst snd]. rewrite andb_true_r.
  rewrite bool_decide_eq_true. tauto.
Qed.

(** X4. [_filter_records] keeps, in their order, exactly the records
    that pass every filter whose value is not [None]: a scalar must
    equal the record's value, a list must contain it.  The order in
    which the filters are listed does not change the result, and
    filtering never adds a record.  For [query_deals_board] this means:
    a record is returned when it agrees with every argument given, and
    an argument that is [None] or the empty string asks for nothing. *)
Theorem filter_records_conjunctive
  (rs : list record) (fs : list (string * filter_value))
  (status sector stage owner closure_probability : option string) :
  _filter_records rs fs = List.filter (passes fs) rs
  /\ (forall fs', fs ≡ₚ fs' -> _filter_records rs fs' = _filter_records rs fs)
  /\ (forall k, _filter_records rs ((k, Scalar VNone) :: fs) = _filter_records rs fs)
  /\ length (_filter_records rs fs) <= length rs
  /\ (forall r,
        r ∈ _filter_records rs
              (deals_filters status sector stage owner closure_probability)
        <-> r ∈ rs /\ agrees r "Deal Status" status
            /\ agrees r "Sector/service" sector /\ agrees r "Deal Stage" stage
            /\ agrees r "Owner code" owner
            /\ agrees r "Closure Probability" closure_probability).
Proof.
  split; [apply filter_records_filter|]. split; [|split; [|split]].
  - intros fs' Hp. rewrite !filter_records_filter. apply filter_ext. intros r.
    unfold passes. apply eq_true_iff_eq. rewrite !forallb_forall.
    split; intros H x Hx; apply H; revert Hx; rewrite <- !list_elem_of_In;
      by rewrite Hp.
  - intros k. rewrite !filter_records_filter. reflexivity.
  - rewrite filter_records_filter. apply filter_length_le.
  - intros r. rewrite filter_records_filter, list_elem_of_In, filter_In.
    rewrite <- list_elem_of_In. unfold deals_filters.
    rewrite !passes_app, !andb_true_iff, !passes_arg. tauto.
Qed.

Lemma filter_map_comm {A B} (f : A -> B) (p : B -> bool) l :
  List.filter p (map f l) = map f (List.filter (fun x => p (f x)) l).
Proof.
  induction l as [|x l IH]; simpl; [reflexivity|].
  destruct (p (f x)); simpl; by rewrite IH.
Qed.

(** X5. Cleaning and filtering compose as a user of
    [query_workorders_board] expects: asked for the billing status
    "Billed", the tool returns the work orders whose raw status was
    "Billed" and those whose raw status was the misspelt "BIlled", and
    no others; asked for "BIlled" it returns nothing. *)
Theorem billed_filter_finds_typos (raw : list record) :
  let cleaned_wo := cleaned (clean_workorders raw) in
  let billed := List.filter (fun r => bool_decide (get r "Billing Status" = VStr "Billed")
                                      || misspelt r) raw in
  _filter_records cleaned_wo
    (workorders_filters None None None (Some "Billed") None None None)
  = map clean_wo_record billed
  /\ _filter_records cleaned_wo
       (workorders_filters None None None (Some "BIlled") None None None)
     = [].
Proof.
  intros cleaned_wo billed. subst cleaned_wo billed.
  rewrite clean_workorders_cleaned, !filter_records_filter.
  assert (P : forall s r,
             passes (workorders_filters None None None (Some s) None None None)
                    (clean_wo_record r)
             = if String.eqb s "" then true
               else bool_decide ((if misspelt r then VStr "Billed"
                                  else get r "Billing Status") = VStr s)).
  { intros s r. unfold workorders_filters, arg_filter. cbn [app].
    destruct (String.eqb s ""); cbn [app]; [reflexivity|].
    unfold passes, selects, py_eqb. cbn [forallb fst snd].
    by rewrite andb_true_r, clean_wo_record_billing. }
  split.
  - rewrite filter_map_comm. f_equal. apply filter_ext. intros r. rewrite P.
    change (String.eqb "Billed" "") with false. cbv iota.
    destruct (misspelt r); [|by rewrite orb_false_r].
    rewrite orb_true_r. by apply bool_decide_eq_true_2.
  - rewrite filter_map_comm.
    replace (List.filter _ raw) with (@nil record); [reflexivity|].
    symmetry. induction raw as [|r raw IH]; [reflexivity|]. cbn [List.filter].
    rewrite P. change (String.eqb "BIlled" "") with false. cbv iota.
    destruct (misspelt r) eqn:E.
    + by rewrite bool_decide_eq_false_2.
    + unfold misspelt in E. by rewrite E.
Qed.

Lemma date_keeps_text date_from date_to r :
  numeric_date r = false ->
  date_keeps date_from date_to r = Some (in_window date_from date_to r).
Proof.
  unfold numeric_date. intros Hn. unfold date_keeps, in_window.
  destruct (get r "Tentative Close Date") as [|t|x] eqn:E; [reflexivity| |].
  - cbn [truthy negb]. destruct (String.eqb t ""); cbn [negb andb]; [reflexivity|].
    destruct (given date_from && ltb t (default "" date_from)); [reflexivity|].
    by destruct (given date_to && ltb (default "" date_to) t).
  - by rewrite Hn.
Qed.

Lemma date_loop_none date_from date_to (rs : list record) :
  foldl (fun (acc : option (list record)) r =>
           date_filtered ← acc;
           appended ← date_keeps date_from date_to r;
           Some (if appended : bool then date_filtered ++ [r] else date_filtered))
        None rs = None.
Proof. induction rs as [|r rs IH]; simpl; [reflexivity|exact IH]. Qed.

Lemma date_loop_text date_from date_to (rs acc : list record) :
  Forall (fun r => numeric_date r = false) rs ->
  foldl (fun (acc : option (list record)) r =>
           date_filtered ← acc;
           appended ← date_keeps date_from date_to r;
           Some (if appended : bool then date_filtered ++ [r] else date_filtered))
        (Some acc) rs
  = Some (acc ++ List.filter (in_window date_from date_to) rs).
Proof.
  intros H. revert acc. induction H as [|r rs Hr _ IH]; intros acc; simpl.
  - by rewrite app_nil_r.
  - rewrite (date_keeps_text _ _ r Hr). simpl.
    destruct (in_window date_from date_to r); rewrite IH; [|reflexivity].
    by rewrite <- app_assoc.
Qed.

Lemma date_loop_number date_from date_to (rs acc : list record) :
  given date_from || given date_to = true ->
  Exists (fun r => numeric_date r = true) rs ->
  foldl (fun (acc : option (list record)) r =>
           date_filtered ← acc;
           appended ← date_keeps date_from date_to r;
           Some (if appended : bool then date_filtered ++ [r] else date_filtered))
        (Some acc) rs
  = None.
Proof.
  intros Hg H. revert acc. induction rs as [|r rs IH]; intros acc.
  - by apply Exists_nil in H.
  - simpl. destruct (date_keeps date_from date_to r) as [b|] eqn:K; simpl.
    + apply IH. apply Exists_cons in H as [N|H]; [|exact H].
      unfold date_keeps, numeric_date in K, N.
      destruct (get r "Tentative Close Date"); try discriminate.
      rewrite N, Hg in K. discriminate.
    + apply date_loop_none.
Qed.

(** X6. The date filter of [query_deals_board].  With no bound given
    (each is [None] or empty) every record is returned, dated or not.
    With a bound given, a record without a tentative close date is
    left out, and the records returned are, in their order, those whose
    date is a text not below [date_from] and not above [date_to] in the
    order of strings; should a record hold a number other than zero as
    its date, the comparison with the bound fails and nothing is
    returned. *)
Theorem date_window_selects (date_from date_to : option string) (filtered : list record) :
  (given date_from = false -> given date_to = false ->
   date_filter date_from date_to filtered = Some filtered)
  /\ (given date_from || given date_to = true ->
      (Forall (fun r => numeric_date r = false) filtered ->
       date_filter date_from date_to filtered
       = Some (List.filter (in_window date_from date_to) filtered))
      /\ (Exists (fun r => numeric_date r = true) filtered ->
          date_filter date_from date_to filtered = None)
      /\ (forall l r, date_filter date_from date_to filtered = Some l -> r ∈ l ->
          exists t, get r "Tentative Close Date" = VStr t /\ t <> ""
                    /\ (given date_from = true -> ltb t (default "" date_from) = false)
                    /\ (given date_to = true -> ltb (default "" date_to) t = false))).
Proof.
  split.
  - intros H1 H2. unfold date_filter. by rewrite H1, H2.
  - intros Hg. unfold date_filter. rewrite Hg.
    split; [intros H; by rewrite date_loop_text|].
    split; [by apply date_loop_number|].
    intros l r Hl Hr.
    destruct (decide (Forall (fun r => numeric_date r = false) filtered)) as [F|F].
    + rewrite date_loop_text in Hl by exact F. injection Hl as <-.
      apply list_elem_of_In, filter_In in Hr as [_ Hw]. unfold in_window in Hw.
      destruct (get r "Tentative Close Date") as [|t|]; try discriminate.
      exists t. split; [reflexivity|].
      apply andb_true_iff in Hw as [[Hne Hf]%andb_true_iff Ht].
      apply negb_true_iff in Hne, Hf, Ht. apply String.eqb_neq in Hne.
      split; [exact Hne|].
      split; intros G; rewrite G in *; simpl in *; assumption.
    + apply not_Forall_Exists in F; [|intros x; apply _].
      rewrite date_loop_number in Hl; [discriminate|exact Hg|].
      eapply List.Exists_impl; [|exact F]. intros a Ha. simpl in Ha.
      by destruct (numeric_date a).
Qed.

Lemma code_digit_char d :
  (0 <= d < 10)%Z -> Z.of_N (code (digit_char d)) = (48 + d)%Z.
Proof.
  intros H. unfold code, digit_char. rewrite Z.mod_small by lia.
  rewrite N_ascii_embedding by lia. lia.
Qed.

Lemma ltb_digit a b s t :
  (0 <= a < 10)%Z -> (0 <= b < 10)%Z ->
  ltb (String (digit_char a) s) (String (digit_char b) t)
  = if (a <? b)%Z then true else if (b <? a)%Z then false else ltb s t.
Proof.
  intros Ha Hb. cbn [ltb].
  pose proof (code_digit_char a Ha) as Ca. pose proof (code_digit_char b Hb) as Cb.
  destruct (N.ltb_spec (code (digit_char a)) (code (digit_char b)));
    destruct (N.ltb_spec (code (digit_char b)) (code (digit_char a)));
    destruct (Z.ltb_spec a b); destruct (Z.ltb_spec b a); try reflexivity; lia.
Qed.

Lemma pad2_app n s :
  pad2 n +:+ s = String (digit_char (n / 10)) (String (digit_char n) s).
Proof. reflexivity. Qed.

Lemma ltb_pad2 a b s t :
  (0 <= a < 100)%Z -> (0 <= b < 100)%Z ->
  ltb (pad2 a +:+ s) (pad2 b +:+ t)
  = if (a <? b)%Z then true else if (b <? a)%Z then false else ltb s t.
Proof.
  intros Ha Hb. rewrite !pad2_app.
  assert (Da : digit_char a = digit_char (a mod 10)).
  { unfold digit_char. by rewrite Z.mod_mod. }
  assert (Db : digit_char b = digit_char (b mod 10)).
  { unfold digit_char. by rewrite Z.mod_mod. }
  rewrite Da, Db.
  rewrite ltb_digit by (split; [apply Z.div_pos|apply Z.div_lt_upper_bound]; lia).
  rewrite ltb_digit by (apply Z.mod_pos_bound; lia).
  destruct (Z.ltb_spec (a / 10) (b / 10)); destruct (Z.ltb_spec (b / 10) (a / 10));
    destruct (Z.ltb_spec (a mod 10) (b mod 10));
    destruct (Z.ltb_spec (b mod 10) (a mod 10));
    destruct (Z.ltb_spec a b); destruct (Z.ltb_spec b a); try reflexivity;
    exfalso; Z.div_mod_to_equations; lia.
Qed.

Lemma days_in_month_le y m : (days_in_month y m <= 31)%Z.
Proof.
  unfold days_in_month.
  repeat match goal with
         | |- context [if ?b then _ else _] => destruct b
         end; lia.
Qed.

Lemma ltb_irrefl s : ltb s s = false.
Proof.
  induction s as [|c s IH]; cbn [ltb]; [reflexivity|]. by rewrite N.ltb_irrefl.
Qed.

Lemma ltb_iso (a b : fields) :
  valid a = true -> valid b = true ->
  (1000 <= year a)%Z -> (1000 <= year b)%Z ->
  ltb (strftime_iso a) (strftime_iso b) = true <-> before a b.
Proof.
  unfold valid. rewrite !andb_true_iff, !Z.leb_le.
  intros Ha Hb Ya Yb.
  pose proof (days_in_month_le (year a) (month a)).
  pose proof (days_in_month_le (year b) (month b)).
  assert (S : forall f, (1000 <= year f)%Z ->
                        strftime_iso f
                        = pad2 (year f / 100)
                          +:+ (pad2 (year f mod 100)
                               +:+ String "-" (pad2 (month f)
                                               +:+ String "-" (pad2 (day f) +:+ "")))).
  { intros f Hf. rewrite strftime_iso_padded by exact Hf. reflexivity. }
  rewrite (S a Ya), (S b Yb).
  rewrite ltb_pad2 by (split; [apply Z.div_pos|apply Z.div_lt_upper_bound]; lia).
  rewrite ltb_pad2 by (apply Z.mod_pos_bound; lia).
  change (ltb (String "-" ?s) (String "-" ?t)) with (ltb s t).
  rewrite ltb_pad2 by lia.
  change (ltb (String "-" ?s) (String "-" ?t)) with (ltb s t).
  rewrite ltb_pad2 by lia. cbn [ltb]. unfold before.
  destruct (Z.ltb_spec (year a / 100) (year b / 100));
    destruct (Z.ltb_spec (year b / 100) (year a / 100));
    destruct (Z.ltb_spec (year a mod 100) (year b mod 100));
    destruct (Z.ltb_spec (year b mod 100) (year a mod 100));
    destruct (Z.ltb_spec (month a) (month b));
    destruct (Z.ltb_spec (month b) (month a));
    destruct (Z.ltb_spec (day a) (day b));
    destruct (Z.ltb_spec (day b) (day a));
    (split; [intros E; try discriminate E|intros E; try reflexivity]);
    Z.div_mod_to_equations; lia.
Qed.

(** X7. Dates as cleaning writes them compare as calendar dates: for
    two dates that [strptime] accepted, of the year 1000 or later (from
    then on [strftime] writes the year in four digits), the ISO text of
    the first is below the ISO text of the second in the order of
    strings exactly when the first date is earlier, and the two texts are equal exactly when the dates are the
    same day.  So the date window of [query_deals_board] is a window of
    calendar dates whenever its bounds are written the same way. *)
Theorem iso_dates_order (a b : fields) :
  valid a = true -> valid b = true ->
  (1000 <= year a)%Z -> (1000 <= year b)%Z ->
  (ltb (strftime_iso a) (strftime_iso b) = true <-> before a b)
  /\ (strftime_iso a = strftime_iso b
      <-> year a = year b /\ month a = month b /\ day a = day b).
Proof.
  intros Ha Hb Ya Yb. split; [by apply ltb_iso|]. split.
  - intros E.
    assert (N1 : ~ before a b).
    { intros B. apply (ltb_iso a b Ha Hb Ya Yb) in B. rewrite E, ltb_irrefl in B.
      discriminate. }
    assert (N2 : ~ before b a).
    { intros B. apply (ltb_iso b a Hb Ha Yb Ya) in B. rewrite E, ltb_irrefl in B.
      discriminate. }
    unfold before in N1, N2. lia.
  - intros (Ey & Em & Ed). unfold strftime_iso. by rewrite Ey, Em, Ed.
Qed.

Lemma iso_dates_order_witness :
  ltb (strftime_iso (mk_fields 2024 1 31 0 0 0 0))
      (strftime_iso (mk_fields 2024 2 1 0 0 0 0)) = true.
Proof.
  apply (iso_dates_order (mk_fields 2024 1 31 0 0 0 0) (mk_fields 2024 2 1 0 0 0 0));
    [reflexivity|reflexivity|simpl; lia|simpl; lia|].
  right. split; [reflexivity|]. left. reflexivity.
Defined.

End Filters.

(** ** Breakdowns, groups and rates *)

Section Aggregates.
Import PyNum DataCleaner Tools.

(** The sum of the counts of a breakdown. *)
Definition tally (d : gmap value nat) : nat :=
  map_fold (fun _ n acc => n + acc) 0 d.

(** The records that fall under the key [k]. *)
Definition bucket (field : string) (k : value) (rs : list record) : nat :=
  length (group_of field k rs).

(** The field is missing, empty or zero, or spells "Unknown" itself. *)
Definition unknown (field : string) (r : record) : bool :=
  negb (truthy (get r field)) || bool_decide (get r field = VStr "Unknown").

Lemma tally_insert (d : gmap value nat) k n :
  d !! k = None -> tally (<[k := n]> d) = n + tally d.
Proof.
  intros H. unfold tally. rewrite map_fold_insert_L; [reflexivity| |exact H].
  intros. lia.
Qed.

Lemma tally_bump (d : gmap value nat) k :
  tally (<[k := default 0 (d !! k) + 1]> d) = tally d + 1.
Proof.
  destruct (d !! k) as [v|] eqn:E; simpl.
  - rewrite <- (insert_delete_eq d). rewrite tally_insert by apply lookup_delete_eq.
    rewrite <- (insert_delete_id d k v E) at 2.
    rewrite tally_insert by apply lookup_delete_eq. lia.
  - rewrite tally_insert by exact E. lia.
Qed.

Lemma group_of_app col k (a b : list record) :
  group_of col k (a ++ b) = group_of col k a ++ group_of col k b.
Proof. unfold group_of. apply List.filter_app. Qed.

Lemma group_of_single col k (r : record) :
  group_of col k [r] = if bool_decide (group_key col r = k) then [r] else [].
Proof. reflexivity. Qed.

Lemma breakdown_snoc field rs r :
  breakdown field (rs ++ [r])
  = <[group_key field r := default 0 (breakdown field rs !! group_key field r) + 1]>
      (breakdown field rs).
Proof. unfold breakdown. by rewrite foldl_app. Qed.

Lemma group_records_snoc col rs r :
  group_records col (rs ++ [r])
  = <[group_key col r := default [] (group_records col rs !! group_key col r) ++ [r]]>
      (group_records col rs).
Proof. unfold group_records. by rewrite foldl_app. Qed.

Lemma breakdown_lookup field rs k :
  breakdown field rs !! k
  = if bucket field k rs =? 0 then None else Some (bucket field k rs).
Proof.
  unfold bucket.
  induction rs as [|r rs IH] using rev_ind; [reflexivity|].
  rewrite breakdown_snoc, group_of_app, length_app.
  destruct (decide (group_key field r = k)) as [<-|Hk].
  - rewrite lookup_insert_eq, IH, group_of_single.
    rewrite bool_decide_eq_true_2 by reflexivity. cbn [length].
    destruct (length (group_of field (group_key field r) rs)) as [|n]; simpl.
    + reflexivity.
    + replace (n + 1 =? 0) with false by (symmetry; apply Nat.eqb_neq; lia).
      reflexivity.
  - rewrite lookup_insert_ne by exact Hk. rewrite IH, group_of_single.
    rewrite bool_decide_eq_false_2 by exact Hk. cbn [length].
    by rewrite Nat.add_0_r.
Qed.

Lemma group_records_full col rs k :
  group_records col rs !! k
  = match group_of col k rs with [] => None | v => Some v end.
Proof.
  induction rs as [|r rs IH] using rev_ind; [reflexivity|].
  rewrite group_records_snoc, group_of_app.
  destruct (decide (group_key col r = k)) as [<-|Hk].
  - rewrite lookup_insert_eq, IH, group_of_single.
    rewrite bool_decide_eq_true_2 by reflexivity.
    by destruct (group_of col (group_key col r) rs).
  - rewrite lookup_insert_ne by exact Hk. rewrite IH, group_of_single.
    rewrite bool_decide_eq_false_2 by exact Hk. by rewrite app_nil_r.
Qed.

Lemma tally_breakdown field rs : tally (breakdown field rs) = length rs.
Proof.
  induction rs as [|r rs IH] using rev_ind; [reflexivity|].
  rewrite breakdown_snoc, tally_bump, IH, length_app. reflexivity.
Qed.

Lemma group_key_truthy field r : truthy (group_key field r) = true.
Proof.
  unfold group_key, py_or. destruct (truthy (get r field)) eqn:E; [exact E|reflexivity].
Qed.

(** X8. The breakdowns of the query tools count every record once: the
    counts add up to the number of records; the count under a key is
    the number of records with that key; a key is listed only when some
    record has it; and a record whose field is missing, empty or zero
    is counted under "Unknown", together with those that spell
    "Unknown" themselves.  The grouping of [aggregate_metrics] keeps
    under each key the records of that key in their order, leaves no
    group empty, and its metric "count" is the same breakdown. *)
Theorem breakdown_counts_every_record (field : string) (rs : list record) :
  tally (breakdown field rs) = length rs
  /\ (forall k, default 0 (breakdown field rs !! k) = bucket field k rs)
  /\ (forall k n, breakdown field rs !! k = Some n ->
        0 < n /\ truthy k = true /\ exists r, r ∈ rs /\ group_key field r = k)
  /\ default 0 (breakdown field rs !! VStr "Unknown") = count_if (unknown field) rs
  /\ (forall k v, group_records field rs !! k = Some v ->
        v <> [] /\ v = group_of field k rs)
  /\ (forall r, r ∈ rs ->
        exists v, group_records field rs !! group_key field r = Some v /\ r ∈ v)
  /\ aggregate_count field rs = breakdown field rs.
Proof.
  split; [apply tally_breakdown|]. split; [|split; [|split; [|split; [|split]]]].
  - intros k. rewrite breakdown_lookup. by destruct (bucket field k rs).
  - intros k n. rewrite breakdown_lookup.
    destruct (bucket field k rs) as [|m] eqn:E; [discriminate|].
    intros [= <-]. split; [lia|].
    unfold bucket in E. destruct (group_of field k rs) as [|r l] eqn:G; [discriminate|].
    assert (Hr : In r (group_of field k rs)) by (rewrite G; by left).
    unfold group_of in Hr. apply filter_In in Hr as [Hr Hk].
    apply bool_decide_eq_true_1 in Hk. split.
    + rewrite <- Hk. apply group_key_truthy.
    + exists r. split; [by apply list_elem_of_In|exact Hk].
  - rewrite breakdown_lookup.
    replace (count_if (unknown field) rs) with (bucket field (VStr "Unknown") rs);
      [by destruct (bucket field (VStr "Unknown") rs)|].
    unfold bucket, group_of, count_if. f_equal. apply filter_ext. intros r.
    unfold unknown, group_key, py_or. destruct (truthy (get r field)); [reflexivity|].
    by rewrite bool_decide_eq_true_2.
  - intros k v. rewrite group_records_full.
    destruct (group_of field k rs) eqn:G; [discriminate|]. by intros [= <-].
  - intros r Hr. rewrite group_records_full.
    assert (Hin : r ∈ group_of field (group_key field r) rs).
    { unfold group_of. apply list_elem_of_In, filter_In. split.
      - by apply list_elem_of_In.
      - by apply bool_decide_eq_true_2. }
    destruct (group_of field (group_key field r) rs) as [|x l] eqn:G.
    + by apply elem_of_nil in Hin.
    + by exists (x :: l).
  - apply map_eq. intros k. unfold aggregate_count.
    rewrite lookup_fmap, group_records_full, breakdown_lookup. unfold bucket.
    by destruct (group_of field k rs).
Qed.

(** X9. A win rate, whenever one is reported, lies between 0 and 100
    and has one decimal; the line that states it says "no decided
    deals" exactly when the rate is null, and the decided deals never
    outnumber the deals of the set. *)
Theorem win_rate_in_range (filtered : list record) :
  let st := query_deals_board_stats filtered in
  (forall r, win_rate_pct st = Some r ->
     (0 <= r)%Qc /\ (r <= Q2Qc 100)%Qc
     /\ exists tenths : Z, r = Q2Qc (inject_Z tenths / 10))
  /\ (IMPORTANT_win_rate st = NoDecidedDeals <-> win_rate_pct st = None)
  /\ won_count st + dead_count st <= total_deals st.
Proof.
  intros st. split; [|split].
  - intros r. unfold st, query_deals_board_stats. cbn [win_rate_pct].
    rewrite !breakdown_status by discriminate.
    set (won := status_count "Won" filtered).
    set (dead := status_count "Dead" filtered).
    unfold win_rate. destruct (0 <? won + dead) eqn:D; [|discriminate].
    apply Nat.ltb_lt in D. intros H.
    assert (Hr : r = pct won (won + dead)) by congruence. clear H.
    destruct (pct_range won (won + dead)) as (z & [N M] & E); [lia|exact D|].
    rewrite Hr, E. clear Hr E.
    assert (B : (0 <= inject_Z z / 10)%Q /\ (inject_Z z / 10 <= 100)%Q).
    { rewrite Zle_Qle in N, M. change (inject_Z 0) with 0%Q in N.
      change (inject_Z 1000) with 1000%Q in M.
      unfold Qdiv. change (/ 10)%Q with (1 # 10)%Q. split; lra. }
    split; [|split].
    + unfold Qcle. change (this 0%Qc) with 0%Q. cbn [this Q2Qc].
      rewrite (Qred_correct (inject_Z z / 10)). tauto.
    + unfold Qcle. cbn [this Q2Qc].
      rewrite (Qred_correct (inject_Z z / 10)), (Qred_correct 100).
      tauto.
    + by exists z.
  - unfold st, query_deals_board_stats. cbn [IMPORTANT_win_rate win_rate_pct].
    destruct (win_rate _ _); split; intros; (discriminate || reflexivity).
  - unfold st, query_deals_board_stats. cbn [won_count dead_count total_deals].
    rewrite !breakdown_status by discriminate. unfold status_count.
    clear. induction filtered as [|r l IH]; simpl; [lia|].
    destruct (bool_decide_reflect (get r "Deal Status" = VStr "Won")) as [E|];
      destruct (bool_decide_reflect (get r "Deal Status" = VStr "Dead")) as [E'|];
      simpl; try lia.
    rewrite E in E'. discriminate.
Qed.

Definition beta_deal : record :=
  {[ "name" := VStr "Beta"; "Masked Deal value" := VNum (FFin (Q2Qc 500)) ]}.

Definition beta_wo : record :=
  {[ "Deal name masked" := VStr "Beta";
     "Amount in Rupees (Excl of GST) (Masked)" := VNum (FFin (Q2Qc 200)) ]}.

Lemma size_split (D W : gset value) : size (D ∩ W) + size (D ∖ W) = size D.
Proof.
  rewrite <- size_union.
  2: { apply elem_of_disjoint. intros x.
       rewrite elem_of_intersection, elem_of_difference. tauto. }
  f_equal. apply set_eq. intros x.
  rewrite elem_of_union, elem_of_intersection, elem_of_difference.
  destruct (decide (x ∈ W)); tauto.
Qed.

Lemma size_name_set field (rs : list record) : size (name_set field rs) <= length rs.
Proof.
  unfold name_set.
  induction rs as [|r rs IH]; cbn [map List.filter]; [by rewrite list_to_set_nil, size_empty|].
  destruct (truthy (get r field)); cbn [length]; [|lia].
  rewrite list_to_set_cons, size_union_alt, size_singleton.
  match goal with
  | |- context [size (?X ∖ ?Y)] =>
      assert (size (X ∖ Y) <= size X)
        by (apply subseteq_size; intros x Hx; apply elem_of_difference in Hx; tauto)
  end.
  lia.
Qed.

(** X10. The three counts of [cross_board_analysis] split the names:
    the common names and the names found only in deals make up the
    names of the deals, and likewise for the work orders, so the
    common names never outnumber the records of either board.  Every
    lifecycle entry stands for at least one work order, and the two
    summaries count every record of their board. *)
Theorem join_counts_partition (deals wos : list record) (res : join_result) :
  cross_board_join deals wos = Some res ->
  common_deal_count res + deals_only_count res = size (name_set "name" deals)
  /\ common_deal_count res + wo_only_count res = size (name_set wo_name_field wos)
  /\ common_deal_count res <= length deals
  /\ common_deal_count res <= length wos
  /\ Forall (fun e => 1 <= work_order_count e <= length wos
                      /\ length (wo_statuses e) = work_order_count e)
            (lifecycle res)
  /\ ds_total_deals (deals_summary res) = length deals
  /\ tally (ds_status_breakdown (deals_summary res)) = length deals
  /\ ws_total_work_orders (wo_summary res) = length wos
  /\ tally (ws_execution_breakdown (wo_summary res)) = length wos.
Proof.
  unfold cross_board_join.
  set (D := name_set "name" deals). set (W := name_set wo_name_field wos).
  destruct (build_lifecycle deals wos (elements (D ∩ W))) as [l|] eqn:B;
    [|discriminate].
  destruct (sum_field "Masked Deal value" deals); [|discriminate].
  destruct (sum_field amount_field wos); [|discriminate].
  destruct (sum_field billed_field wos); [|discriminate].
  destruct (sum_field collected_field wos); [|discriminate].
  cbn [mbind option_bind]. intros [= <-].
  cbn [common_deal_count deals_only_count wo_only_count lifecycle deals_summary
       wo_summary ds_total_deals ds_status_breakdown ws_total_work_orders
       ws_execution_breakdown].
  pose proof (size_name_set "name" deals) as SD.
  pose proof (size_name_set wo_name_field wos) as SW. fold D in SD. fold W in SW.
  pose proof (size_split D W) as S1. pose proof (size_split W D) as S2.
  assert (C : D ∩ W = W ∩ D).
  { apply set_eq. intros x. rewrite !elem_of_intersection. tauto. }
  rewrite <- C in S2.
  split; [exact S1|]. split; [exact S2|]. split; [lia|]. split; [lia|].
  split; [|by rewrite !tally_breakdown].
  apply build_lifecycle_entries in B as [Hm Hf].
  2: { intros n Hn. apply elem_of_elements, elem_of_intersection in Hn as [Hn _].
       by apply elem_of_name_set in Hn. }
  apply List.Forall_forall. intros e He.
  rewrite List.Forall_forall in Hf. pose proof (Hf e He) as Hent.
  destruct Hent as (d & _ & _ & _ & _ & _ & _ & _ & _ & Hc & _ & _ & _ & _ & Hs).
  assert (Hn : deal_name e ∈ W).
  { assert (Hin : deal_name e ∈ elements (D ∩ W)).
    { rewrite <- Hm. apply list_elem_of_fmap. exists e.
      split; [reflexivity|by apply list_elem_of_In]. }
    apply elem_of_elements, elem_of_intersection in Hin. tauto. }
  apply elem_of_name_set in Hn as [_ (w & Hw & Hname)].
  rewrite Hs, length_map, Hc. split; [|reflexivity]. split.
  - assert (Hb : w ∈ bearing (deal_name e) wos).
    { unfold bearing. apply list_elem_of_In, filter_In. split.
      - by apply list_elem_of_In.
      - by apply bool_decide_eq_true_2. }
    destruct (bearing (deal_name e) wos); [by apply elem_of_nil in Hb|simpl; lia].
  - unfold bearing. apply filter_length_le.
Qed.

Lemma join_counts_partition_witness :
  exists res,
    cross_board_join [beta_deal] [beta_wo] = Some res
    /\ common_deal_count res + deals_only_count res = size (name_set "name" [beta_deal])
    /\ Forall (fun e => 1 <= work_order_count e <= 1
                        /\ length (wo_statuses e) = work_order_count e)
              (lifecycle res).
Proof.
  destruct (cross_board_join [beta_deal] [beta_wo]) as [res|] eqn:E.
  - exists res. split; [reflexivity|].
    destruct (join_counts_partition [beta_deal] [beta_wo] res E)
      as (H1 & _ & _ & _ & H5 & _).
    split; [exact H1|exact H5].
  - exfalso. vm_compute in E. discriminate E.
Defined.

End Aggregates.

(** ** Results handed back by the dispatcher *)

Section Results.
Import PyNum Graph.

(** The key under which a caveat is kept in a set. *)
Definition same_caveat (a b : json) : Prop := hash_key a = hash_key b.

(** A caveat that is a text. *)
Definition is_text (c : json) : Prop := exists s, c = JStr s.

Definition caveat_call : tool_call :=
  mk_tool_call "echo"
               (JDict [("caveats", JList [JStr "a"; JStr "b"; JStr "a"])]) "call_1".

Lemma writes_not_long (d : dict) e :
  e ∈ concat (map writes d) -> ~ long_list e.1 e.2.
Proof.
  intros He. apply list_elem_of_In, in_concat in He as (ws & Hws & He).
  apply in_map_iff in Hws as (kv & <- & _).
  destruct (writes_cases kv) as [(_ & l & _ & _ & W)|[Hn W]]; rewrite W in He.
  - cbn [In] in He. destruct He as [<-|[<-|[<-|[]]]]; cbn [fst snd].
    + intros (_ & l' & [= <-] & Hl). rewrite length_take in Hl. lia.
    + intros (_ & l' & E & _). discriminate.
    + intros (_ & l' & E & _). discriminate.
  - destruct He as [<-|[]]. exact Hn.
Qed.

Lemma writes_settled (t : dict) :
  (forall e, e ∈ t -> ~ long_list e.1 e.2) -> concat (map writes t) = t.
Proof.
  induction t as [|e t IH]; intros H; [reflexivity|]. cbn [map concat].
  rewrite IH by (intros x Hx; apply H; by right).
  destruct (writes_cases e) as [(Hl & _)|[_ ->]]; [|reflexivity].
  exfalso. apply (H e); [by left|exact Hl].
Qed.

(** X11. Truncating a tool result bounds it and is stable: in the
    result no key is repeated, none of the lists under deals,
    work_orders and lifecycle has more than 50 entries, and truncating
    the result again changes nothing; a value that is not a dictionary
    is handed back as it is. *)
Theorem truncate_result_settles (d : dict) :
  NoDup (keys d) -> flag_free d ->
  exists t,
    _truncate_result (JDict d) = JDict t
    /\ NoDup (keys t)
    /\ (forall k l, k ∈ item_keys -> dict_get k t = Some (JList l) ->
          length l <= max_items)
    /\ _truncate_result (JDict t) = JDict t
    /\ (forall v, (forall d', v <> JDict d') -> _truncate_result v = v).
Proof.
  intros Hnd Hff. exists (concat (map writes d)).
  pose proof (writes_nodup d Hnd Hff) as Hnt.
  split; [by apply truncate_view|]. split; [exact Hnt|]. split; [|split].
  - intros k l Hk Hget. apply dict_get_elem in Hget.
    pose proof (writes_not_long d _ Hget) as Hn. cbn [fst snd] in Hn.
    destruct (le_gt_dec (length l) max_items) as [|Hgt]; [assumption|].
    exfalso. apply Hn. split; [exact Hk|]. exists l. split; [reflexivity|lia].
  - unfold _truncate_result. f_equal.
    rewrite foldl_truncate_writes, (writes_settled _ (writes_not_long d)).
    apply (foldl_assign_fresh _ []). exact Hnt.
  - intros v Hv. destruct v; try reflexivity. by destruct (Hv entries).
Qed.

Lemma truncate_result_settles_witness :
  exists t,
    _truncate_result (JDict sample_result) = JDict t
    /\ dict_get "deals" t = Some (JList (replicate 50 JNull))
    /\ _truncate_result (JDict t) = JDict t.
Proof.
  destruct (truncate_result_settles sample_result) as (t & Ht & _ & _ & Hi & _).
  - apply (bool_decide_eq_true_1 (NoDup (keys sample_result))). vm_compute. reflexivity.
  - intros k Hk. unfold item_keys in Hk.
    repeat (apply elem_of_cons in Hk as [->|Hk]); try (by inversion Hk);
      split; apply (bool_decide_eq_true_1 (_ ∉ _)); vm_compute; reflexivity.
  - exists t. split; [exact Ht|]. split; [|exact Hi].
    vm_compute in Ht. injection Ht as <-. reflexivity.
Defined.

Lemma dedup_spec xs :
  forall seen out, dedup seen xs = Some out ->
    NoDup (map hash_key out)
    /\ (forall c, c ∈ out -> c ∈ xs /\ forall k, hash_key c = Some k -> k ∉ seen)
    /\ (forall c k, c ∈ xs -> hash_key c = Some k -> k ∉ seen ->
          exists c', c' ∈ out /\ same_caveat c' c).
Proof.
  induction xs as [|x xs IH]; intros seen out; cbn [dedup].
  - intros [= <-]. split; [constructor|]. split; [intros c Hc; by apply elem_of_nil in Hc|].
    intros c k Hc; by apply elem_of_nil in Hc.
  - destruct (hash_key x) as [kx|] eqn:Hx; [|discriminate]. cbn [mbind option_bind].
    destruct (bool_decide_reflect (kx ∈ seen)) as [Hin|Hnin].
    + intros H. destruct (IH _ _ H) as (N & A & B).
      split; [exact N|]. split.
      * intros c Hc. destruct (A c Hc) as [A1 A2]. split; [by right|exact A2].
      * intros c k Hc Hk Hs. apply elem_of_cons in Hc as [->|Hc].
        -- rewrite Hx in Hk. injection Hk as <-. contradiction.
        -- by apply (B c k).
    + destruct (dedup (kx :: seen) xs) as [rest|] eqn:D; [|discriminate].
      cbn [fmap option_fmap option_map]. intros [= <-].
      destruct (IH _ _ D) as (N & A & B).
      split; [|split].
      * cbn [map]. constructor; [|exact N].
        intros Hm. apply list_elem_of_fmap in Hm as (c & Hc & Hcin).
        destruct (A c Hcin) as [_ A2]. rewrite Hx in Hc. symmetry in Hc.
        apply (A2 kx Hc). by left.
      * intros c Hc. apply elem_of_cons in Hc as [->|Hc].
        -- split; [by left|]. intros k Hk. rewrite Hx in Hk. by injection Hk as <-.
        -- destruct (A c Hc) as [A1 A2]. split; [by right|].
           intros k Hk Hs. apply (A2 k Hk). by right.
      * intros c k Hc Hk Hs.
        destruct (decide (k = kx)) as [->|Hne].
        -- exists x. split; [by left|]. unfold same_caveat. by rewrite Hx, Hk.
        -- apply elem_of_cons in Hc as [->|Hc]; [congruence|].
           destruct (B c k Hc Hk) as (c' & Hc' & Hs').
           { intros [->|H']%elem_of_cons; [by apply Hne|contradiction]. }
           exists c'. split; [by right|exact Hs'].
Qed.

(** X12. When the caveats of the state and of the results of a step are
    texts, as the tools write them, the step hands on each of them
    once: the step returns, the caveats it returns hold no text twice,
    and a text is among them exactly when it is a caveat of the state
    or of a result of this step. *)
Theorem caveats_deduplicated (e : env) (tick : nat) (calls : list tool_call)
                             (state_traces : list trace) (state_caveats : list json) :
  let gathered := state_caveats ++ new_caveats (run_calls e tick calls) in
  Forall is_text gathered ->
  exists u,
    tool_execution_node e tick calls state_traces state_caveats = Some u
    /\ NoDup (data_caveats u)
    /\ (forall c, c ∈ data_caveats u <-> c ∈ gathered).
Proof.
  intros gathered T. unfold tool_execution_node. fold gathered.
  assert (K : forall c, c ∈ gathered -> exists s, c = JStr s /\ hash_key c = Some (VStr s)).
  { intros c Hc. rewrite List.Forall_forall in T.
    destruct (T c) as [s ->]; [by apply list_elem_of_In|]. by exists s. }
  destruct (dedup_total [] gathered) as [out D].
  { apply List.Forall_forall. intros c Hc.
    destruct (K c) as (s & _ & ->); [by apply list_elem_of_In|]. by eexists. }
  rewrite D. cbn [mbind option_bind]. eexists. split; [reflexivity|].
  cbn [data_caveats]. destruct (dedup_spec _ _ _ D) as (N & A & B).
  split; [by apply (NoDup_fmap_1 hash_key)|].
  intros c. split; [intros Hc; by apply A|]. intros Hc.
  destruct (K c Hc) as (s & -> & Hk).
  destruct (B _ _ Hc Hk) as (c' & Hc' & Hs); [apply not_elem_of_nil|].
  destruct (K c') as (s' & -> & Hk'); [by apply A|].
  unfold same_caveat in Hs. rewrite Hk, Hk' in Hs. by injection Hs as ->.
Qed.

Lemma caveats_deduplicated_witness :
  exists u,
    tool_execution_node echo_env 0 [caveat_call] [] [JStr "a"] = Some u
    /\ NoDup (data_caveats u)
    /\ (JStr "b" ∈ data_caveats u).
Proof.
  destruct (caveats_deduplicated echo_env 0 [caveat_call] [] [JStr "a"])
    as (u & E & N & M).
  - vm_compute. repeat constructor; by eexists.
  - exists u. split; [exact E|]. split; [exact N|]. apply M.
    vm_compute. repeat constructor.
Defined.

End Results.

(** ** The Monday.com client *)

Section Client.
Import MondayClient.

(** The attempt [i] ends in a sleep and another attempt. *)
Definition retried (responses : nat -> post_outcome) (i : nat) : Prop :=
  exists d, rate_limited (responses i) d
            \/ (i < 2 /\ transient (responses i) /\ d = (2 ^ Z.of_nat i)%Z).

(** A result in which the test ["errors" in result] finds nothing: a
    dict without that key, a list without that element, a string
    without that substring. *)
Definition error_free (result : json) : Prop :=
  match result with
  | JDict d => "errors" ∉ keys d
  | JList l => JStr "errors" ∉ l
  | JStr s => PyStr.contains "errors" s = false
  | JNull | JBool _ | JInt _ | JFloat _ => False
  end.

(** [None], a boolean or a number. *)
Definition scalar (result : json) : bool :=
  match result with
  | JNull | JBool _ | JInt _ | JFloat _ => true
  | _ => false
  end.

Definition busy_then_data : nat -> post_outcome :=
  fun i => match i with
           | 0 => Responded 503 HeaderAbsent NotJson
           | _ => Responded 200 HeaderAbsent (Json (JDict [("data", JNull)]))
           end.

Lemma has_errors_free result : has_errors result = Some false <-> error_free result.
Proof.
  destruct result as [| | | |s|l|d]; cbn [has_errors error_free];
    try (split; [discriminate|contradiction]).
  - split; [by intros [= ->]|by intros ->].
  - split.
    + intros [= H]. intros Hin. apply list_elem_of_In in Hin.
      assert (E : existsb (fun x => match x with
                                    | JStr s => String.eqb s "errors"
                                    | _ => false
                                    end) l = true).
      { apply existsb_exists. exists (JStr "errors"). by split. }
      congruence.
    + intros Hn. f_equal. apply not_true_is_false. intros E.
      apply existsb_exists in E as (x & Hx & Hm). apply Hn.
      destruct x as [| | | |s| |]; try discriminate.
      apply String.eqb_eq in Hm. subst s. by apply list_elem_of_In.
  - split.
    + intros [= H]. by apply bool_decide_eq_false_1 in H.
    + intros H. f_equal. by apply bool_decide_eq_false_2.
Qed.

Lemma on_result_returned result r :
  on_result result = Returned r <-> r = result /\ error_free result.
Proof.
  rewrite <- has_errors_free. unfold on_result.
  destruct (has_errors result) as [[|]|]; split;
    try discriminate; try (by intros [_ [=]]).
  - by intros [= <-].
  - by intros [-> _].
Qed.


Lemma retried_on_response responses i :
  retried responses i <-> exists d, on_response i (responses i) = inl d.
Proof.
  unfold retried. split; intros [d H]; exists d; by apply on_response_continue.
Qed.

Lemma on_response_answered i s h b :
  s <> 429%Z ->
  on_response i (Responded s h b)
  = if is_success s then inr (read_body b)
    else if (i <? 2) && (500 <=? s)%Z then inl (2 ^ Z.of_nat i)%Z
         else inr (Raised (ApiError s)).
Proof.
  intros Hs. unfold on_response. by destruct (Z.eqb_spec s 429).
Qed.

(** After [i] attempts that were retried, the attempt [i] decides. *)
Lemma execute_query_decided responses i o :
  i < 3 -> (forall j, j < i -> retried responses j) ->
  on_response i (responses i) = inr o ->
  (execute_query responses).1 = o /\ length (execute_query responses).2 = i.
Proof.
  intros Hi Hprev Ho. rewrite execute_query_unrolled.
  destruct i as [|[|[|i]]]; [| | |lia].
  - by rewrite Ho.
  - destruct (proj1 (retried_on_response responses 0) (Hprev 0 ltac:(lia))) as [d0 ->].
    by rewrite Ho.
  - destruct (proj1 (retried_on_response responses 0) (Hprev 0 ltac:(lia))) as [d0 ->].
    destruct (proj1 (retried_on_response responses 1) (Hprev 1 ltac:(lia))) as [d1 ->].
    by rewrite Ho.
Qed.

(** X13. An answer that is not a rate limit and not a server error ends
    [execute_query] at once, whatever attempt it meets, with no sleep
    and no further request.  A 2xx response ends it as its body
    decides: a JSON object without an "errors" key is returned; one
    whose "errors" is a list starting with an object is raised as a
    GraphQL error with that object's message, or "Unknown GraphQL
    error"; a body that is [null], a boolean or a number raises the
    [TypeError] of the test ["errors" in result].  A client error such
    as 401 or 404 is raised as an API error, and so is a server error
    that meets the last attempt. *)
Theorem answers_are_final (responses : nat -> post_outcome) (i : nat)
                          (s : Z) (h : retry_after_header) (b : body) :
  i < 3 -> (forall j, j < i -> retried responses j) ->
  responses i = Responded s h b -> s <> 429%Z ->
  let r := execute_query responses in
  (is_success s = true ->
   r.1 = read_body b /\ length r.2 = i
   /\ (forall d, b = Json (JDict d) -> "errors" ∉ keys d -> r.1 = Returned (JDict d))
   /\ (forall d e rest,
         b = Json (JDict d) -> dict_get "errors" d = Some (JList (JDict e :: rest)) ->
         r.1 = Raised (GraphQLError
                         (default (JStr "Unknown GraphQL error") (dict_get "message" e))))
   /\ (forall result, b = Json result -> scalar result = true ->
         r.1 = Raised (Uncaught "TypeError"))
   /\ (b = NotJson -> r.1 = Raised (Uncaught "JSONDecodeError")))
  /\ (is_success s = false -> (s < 500)%Z ->
      r.1 = Raised (ApiError s) /\ length r.2 = i)
  /\ (is_success s = false -> i = 2 ->
      r.1 = Raised (ApiError s) /\ length r.2 = i).
Proof.
  intros Hi Hprev Hr Hs r. pose proof (on_response_answered i s h b Hs) as O.
  rewrite <- Hr in O. split; [|split].
  - intros E. rewrite E in O.
    destruct (execute_query_decided responses i _ Hi Hprev O) as [R L].
    fold r in R, L. split; [exact R|]. split; [exact L|]. rewrite R.
    split; [|split; [|split]].
    + intros d -> Hd. apply on_result_returned. by split.
    + intros d e rest -> He. cbn [read_body]. unfold on_result.
      assert (K : "errors" ∈ keys d).
      { apply dec_stable. intros N. apply dict_get_none in N. congruence. }
      cbn [has_errors]. rewrite (bool_decide_eq_true_2 _ K).
      cbn [raise_errors]. by rewrite He.
    + intros result -> Hsc. cbn [read_body]. unfold on_result.
      by destruct result.
    + by intros ->.
  - intros E Hlt. rewrite E in O.
    replace ((500 <=? s)%Z) with false in O by (symmetry; apply Z.leb_gt; lia).
    rewrite andb_false_r in O. by apply execute_query_decided.
  - intros E ->. rewrite E in O. cbn [Nat.ltb Nat.leb andb] in O.
    by apply execute_query_decided.
Qed.

Lemma answers_are_final_witness :
  (execute_query busy_then_data).1 = Returned (JDict [("data", JNull)])
  /\ length (execute_query busy_then_data).2 = 1.
Proof.
  destruct (answers_are_final busy_then_data 1 200 HeaderAbsent
                              (Json (JDict [("data", JNull)])))
    as [H _].
  - lia.
  - intros j Hj. assert (j = 0) as -> by lia. exists 1%Z. right.
    split; [lia|]. split; [|reflexivity]. right.
    exists 503%Z, HeaderAbsent, NotJson. split; [reflexivity|lia].
  - reflexivity.
  - discriminate.
  - destruct (H eq_refl) as (_ & L & D & _). split; [|exact L].
    apply D; [reflexivity|]. cbn [keys map fst].
    intros Hin. apply list_elem_of_singleton in Hin. discriminate.
Defined.

Lemma on_response_never_exhausts i p o :
  on_response i p = inr o -> o <> Raised MaxRetriesExceeded.
Proof.
  unfold on_response. destruct p as [| |s h b].
  - destruct (i <? 2); intros [= <-]; discriminate.
  - intros [= <-]. discriminate.
  - destruct (s =? 429)%Z.
    + destruct (retry_delay h); intros [= <-]; discriminate.
    + destruct (is_success s).
      * intros [= <-]. apply read_body_never_exhausts.
      * destruct ((i <? 2) && (500 <=? s)%Z); intros [= <-]; discriminate.
Qed.

Lemma on_response_transient i p :
  transient p ->
  on_response i p
  = if i <? 2 then inl (2 ^ Z.of_nat i)%Z
    else inr (match p with
              | Responded s _ _ => Raised (ApiError s)
              | _ => Raised ApiTimeout
              end).
Proof.
  intros [->|(s & h & b & -> & Hs)]; [reflexivity|].
  rewrite on_response_answered by lia.
  replace (is_success s) with false
    by (symmetry; unfold is_success; apply andb_false_iff; right; apply Z.leb_gt; lia).
  replace ((500 <=? s)%Z) with true by (symmetry; apply Z.leb_le; lia).
  rewrite andb_true_r. reflexivity.
Qed.

(** X14. Without rate limiting [execute_query] waits 1 second after the
    first failed attempt and 2 seconds after the second, and never
    longer: its sleeps are the first that many of 1, 2, and it does not
    end in "max retries exceeded".  Three timeouts, or three server
    errors, use all three attempts with exactly these two sleeps, and
    the error raised is that of the third attempt. *)
Theorem backoff_schedule (responses : nat -> post_outcome) :
  let r := execute_query responses in
  ((forall i d, i < 3 -> ~ rate_limited (responses i) d) ->
   r.2 = take (length r.2) [1%Z; 2%Z] /\ r.1 <> Raised MaxRetriesExceeded)
  /\ ((forall i, i < 3 -> transient (responses i)) ->
      r.2 = [1%Z; 2%Z]
      /\ r.1 = match responses 2 with
               | Responded s _ _ => Raised (ApiError s)
               | _ => Raised ApiTimeout
               end).
Proof.
  intros r. unfold r. rewrite execute_query_unrolled.
  split.
  - intros N.
    assert (D : forall i d, i < 3 -> on_response i (responses i) = inl d ->
                            i < 2 /\ d = (2 ^ Z.of_nat i)%Z).
    { intros i d Hi H. apply on_response_continue in H as [H|(H1 & _ & H3)].
      - by destruct (N i d Hi).
      - by split. }
    destruct (on_response 0 (responses 0)) as [d0|o0] eqn:E0.
    2: { split; [reflexivity|]. by apply (on_response_never_exhausts 0 (responses 0)). }
    destruct (D 0 d0 ltac:(lia) E0) as [_ ->].
    destruct (on_response 1 (responses 1)) as [d1|o1] eqn:E1.
    2: { split; [reflexivity|]. by apply (on_response_never_exhausts 1 (responses 1)). }
    destruct (D 1 d1 ltac:(lia) E1) as [_ ->].
    destruct (on_response 2 (responses 2)) as [d2|o2] eqn:E2.
    + destruct (D 2 d2 ltac:(lia) E2) as [H _]. lia.
    + split; [reflexivity|]. by apply (on_response_never_exhausts 2 (responses 2)).
  - intros T.
    rewrite (on_response_transient 0 _ (T 0 ltac:(lia))).
    rewrite (on_response_transient 1 _ (T 1 ltac:(lia))).
    rewrite (on_response_transient 2 _ (T 2 ltac:(lia))).
    cbn [Nat.ltb Nat.leb fst snd]. split; reflexivity.
Qed.

(** X15. [execute_query] returns a result exactly when one of its three
    attempts meets a 2xx response whose JSON body has no errors in it -
    an object without the key "errors", or a list or a string that does
    not contain "errors" - after attempts that were all retried; what it
    returns is the body of that response.  A body that is [null], a
    boolean or a number is never returned. *)
Theorem returns_first_good_response (responses : nat -> post_outcome) (result : json) :
  ((execute_query responses).1 = Returned result
   <-> exists i s h,
         i < 3 /\ (forall j, j < i -> retried responses j)
         /\ responses i = Responded s h (Json result) /\ is_success s = true
         /\ error_free result)
  /\ ((execute_query responses).1 = Returned result -> scalar result = false).
Proof.
  assert (G : forall i, on_response i (responses i) = inr (Returned result) ->
                        exists s h, responses i = Responded s h (Json result)
                                    /\ is_success s = true /\ error_free result).
  { intros i. unfold on_response. destruct (responses i) as [| |s h b].
    - destruct (i <? 2); discriminate.
    - discriminate.
    - destruct (s =? 429)%Z; [destruct (retry_delay h); discriminate|].
      destruct (is_success s) eqn:E.
      + destruct b as [|r]; [discriminate|]. cbn [read_body]. intros [= H].
        apply on_result_returned in H as [-> F]. by exists s, h.
      + destruct ((i <? 2) && (500 <=? s)%Z); discriminate. }
  assert (M : (execute_query responses).1 = Returned result
              <-> exists i s h,
                    i < 3 /\ (forall j, j < i -> retried responses j)
                    /\ responses i = Responded s h (Json result) /\ is_success s = true
                    /\ error_free result).
  { split.
    - rewrite execute_query_unrolled.
      destruct (on_response 0 (responses 0)) as [d0|o0] eqn:E0.
      2: { cbn [fst]. intros ->. destruct (G 0 E0) as (s & h & H1 & H2 & H3).
           exists 0, s, h. split; [lia|]. split; [intros j Hj; lia|]. by repeat split. }
      destruct (on_response 1 (responses 1)) as [d1|o1] eqn:E1.
      2: { cbn [fst]. intros ->. destruct (G 1 E1) as (s & h & H1 & H2 & H3).
           exists 1, s, h. split; [lia|]. split; [|by repeat split].
           intros j Hj. assert (j = 0) as -> by lia.
           apply retried_on_response. by exists d0. }
      destruct (on_response 2 (responses 2)) as [d2|o2] eqn:E2; [discriminate|].
      cbn [fst]. intros ->. destruct (G 2 E2) as (s & h & H1 & H2 & H3).
      exists 2, s, h. split; [lia|]. split; [|by repeat split].
      intros j Hj. apply retried_on_response.
      destruct j as [|[|j]]; [by exists d0|by exists d1|lia].
    - intros (i & s & h & Hi & Hprev & Hr & Hs & Hf).
      apply (execute_query_decided responses i); [exact Hi|exact Hprev|].
      rewrite Hr, on_response_answered, Hs by (intros ->; discriminate).
      cbn [read_body]. f_equal. apply on_result_returned. by split. }
  split; [exact M|].
  intros H. apply M in H as (_ & _ & _ & _ & _ & _ & _ & F).
  by destruct result.
Qed.

(** What a column contributes to the record: its text when it has one;
    without text, the text-or-label of its value when that is a JSON
    object; [None] otherwise. *)
Definition column_result (loads : string -> option json) (col : column_value) : json :=
  if nonempty (col_text col) then JStr (default "" (col_text col))
  else if nonempty (col_value col) then
    match loads (default "" (col_value col)) with
    | Some (JDict parsed) => jor (jget parsed "text") (jget parsed "label")
    | _ => JNull
    end
  else JNull.

(** The last column of the item with the given title. *)
Definition last_titled (title : string) (cols : list column_value)
  : option column_value :=
  last (List.filter (fun c => String.eqb (col_title c) title) cols).

Lemma column_step_insert loads (record : flat_record) col :
  column_step loads record col
  = <[col_title col := column_result loads col]> record.
Proof.
  unfold column_step, column_result.
  destruct (nonempty (col_text col)); cbn [negb andb].
  - by rewrite andb_false_r.
  - rewrite andb_true_r. destruct (nonempty (col_value col)); [|reflexivity].
    destruct (loads (default "" (col_value col))) as [[| | | | | |parsed]|];
      try reflexivity.
    apply insert_insert_eq.
Qed.

Lemma foldl_column_step loads cols (record : flat_record) t :
  foldl (column_step loads) record cols !! t
  = match last_titled t cols with
    | Some c => Some (column_result loads c)
    | None => record !! t
    end.
Proof.
  unfold last_titled. revert record.
  induction cols as [|c cols IH] using rev_ind; intros record; [reflexivity|].
  rewrite foldl_app, List.filter_app. cbn [foldl List.filter].
  rewrite column_step_insert.
  destruct (String.eqb_spec (col_title c) t) as [<-|Hne].
  - rewrite last_snoc. apply lookup_insert_eq.
  - rewrite app_nil_r, lookup_insert_ne by exact Hne. apply IH.
Qed.

(** X16. [parse_items_to_records] makes one record per item, in order.
    In a record every column title is a key, and the value under a
    title is decided by the last column with that title: the column's
    text when it is not empty, whatever its raw value; otherwise the
    text, or else the label, of the raw value when that is a JSON
    object; and [None] when the raw value is missing, empty, not JSON or
    not an object.  The item's id and name are kept under item_id and
    name unless a column carries that title. *)
Theorem parse_items_reads_columns (loads : string -> option json) (items : list item) :
  length (parse_items_to_records loads items) = length items
  /\ forall i it, items !! i = Some it ->
       exists record,
         parse_items_to_records loads items !! i = Some record
         /\ (forall c, c ∈ column_values it -> is_Some (record !! col_title c))
         /\ (forall t c, last_titled t (column_values it) = Some c ->
               record !! t = Some (column_result loads c)
               /\ (nonempty (col_text c) = true ->
                   record !! t = Some (JStr (default "" (col_text c))))
               /\ (nonempty (col_text c) = false -> nonempty (col_value c) = false ->
                   record !! t = Some JNull)
               /\ (nonempty (col_text c) = false ->
                   (forall parsed, loads (default "" (col_value c)) <> Some (JDict parsed)) ->
                   record !! t = Some JNull))
         /\ (forall t, last_titled t (column_values it) = None ->
               record !! t
               = if String.eqb t "name" then Some (JStr (item_name it))
                 else if String.eqb t "item_id" then Some (JStr (item_id it))
                 else None).
Proof.
  unfold parse_items_to_records. split; [apply length_map|].
  intros i it Hi. exists (parse_item loads it).
  split; [by rewrite list_lookup_fmap, Hi|]. unfold parse_item.
  split; [|split].
  - intros c Hc. rewrite foldl_column_step.
    destruct (last_titled (col_title c) (column_values it)) eqn:L; [by eexists|].
    exfalso. unfold last_titled in L. apply last_None in L.
    assert (Hin : In c (List.filter (fun c' => String.eqb (col_title c') (col_title c))
                                    (column_values it))).
    { apply filter_In. split; [by apply list_elem_of_In|apply String.eqb_refl]. }
    rewrite L in Hin. destruct Hin.
  - intros t c L. rewrite foldl_column_step, L. split; [reflexivity|].
    unfold column_result. split; [by intros ->|]. split.
    + by intros -> ->.
    + intros -> Hl. destruct (nonempty (col_value c)); [|reflexivity].
      destruct (loads (default "" (col_value c))) as [[| | | | | |parsed]|];
        try reflexivity.
      by destruct (Hl parsed).
  - intros t L. rewrite foldl_column_step, L.
    destruct (String.eqb_spec t "name") as [->|Hn]; [apply lookup_insert_eq|].
    rewrite lookup_insert_ne by congruence.
    destruct (String.eqb_spec t "item_id") as [->|Hi']; [apply lookup_singleton_eq|].
    apply lookup_singleton_ne. congruence.
Qed.

(** The server hands out the pages [ps], one after the other, from the
    cursor [c] on, and the last of them carries no cursor. *)
Fixpoint serves (next : string -> failure + page) (c : option string)
                (ps : list page) : Prop :=
  match ps with
  | [] => nonempty c = false
  | p :: ps' =>
      nonempty c = true /\ next (default "" c) = inr p
      /\ serves next (page_cursor p) ps'
  end.

(** The same, until a query fails with [e]. *)
Fixpoint serves_until (next : string -> failure + page) (c : option string)
                      (ps : list page) (e : failure) : Prop :=
  match ps with
  | [] => nonempty c = true /\ next (default "" c) = inl e
  | p :: ps' =>
      nonempty c = true /\ next (default "" c) = inr p
      /\ serves_until next (page_cursor p) ps' e
  end.

Definition collected (ps : list page) : list item := concat (map page_items ps).

Definition two_pages (c : string) : failure + page :=
  if String.eqb c "c1" then inr (mk_page [mk_item "2" "second" []] None)
  else inl (Uncaught "KeyError").

Lemma next_pages_serves next ps : forall fuel c acc,
  serves next c ps ->
  next_pages fuel next c acc
  = if length ps <=? fuel then Some (inr (acc ++ collected ps)) else None.
Proof.
  induction ps as [|p ps IH]; intros fuel c acc; cbn [serves].
  - intros Hc. unfold collected. cbn [map concat length]. rewrite app_nil_r.
    destruct fuel; cbn [next_pages]; by rewrite Hc.
  - intros (Hc & Hn & Hs). destruct fuel as [|fuel]; cbn [next_pages]; rewrite Hc.
    + reflexivity.
    + rewrite Hn, (IH fuel _ _ Hs). unfold collected. cbn [map concat length].
      change (S (length ps) <=? S fuel) with (length ps <=? fuel).
      by rewrite app_assoc.
Qed.

Lemma next_pages_serves_until next ps e : forall fuel c acc,
  serves_until next c ps e ->
  next_pages fuel next c acc
  = if length ps <? fuel then Some (inl e) else None.
Proof.
  induction ps as [|p ps IH]; intros fuel c acc; cbn [serves_until].
  - intros (Hc & Hn). destruct fuel; cbn [next_pages]; rewrite Hc; [reflexivity|].
    by rewrite Hn.
  - intros (Hc & Hn & Hs). destruct fuel as [|fuel]; cbn [next_pages]; rewrite Hc.
    + reflexivity.
    + rewrite Hn, (IH fuel _ _ Hs). reflexivity.
Qed.

(** X17. [get_board_items] follows the cursors: when the server hands
    out a first page and then the pages [ps], the last without a
    cursor, it returns the items of all of them in the order received,
    after one query per page and no more; a cursor that is [None] or
    empty ends the walk.  When a query fails on the way the failure is
    raised and the items collected so far are dropped.  A server that
    answers every cursor with the same cursor is never left. *)
Theorem pagination_collects (first : page) (next : string -> failure + page)
                            (ps : list page) :
  (serves next (page_cursor first) ps ->
   forall fuel,
     get_board_items fuel (inr first) next
     = if length ps <=? fuel then Some (inr (collected (first :: ps))) else None)
  /\ (forall e, serves_until next (page_cursor first) ps e ->
      forall fuel,
        get_board_items fuel (inr first) next
        = if length ps <? fuel then Some (inl e) else None)
  /\ (forall e fuel, get_board_items fuel (inl e) next = Some (inl e))
  /\ (forall c p, c <> "" -> page_cursor first = Some c ->
      (forall c', next c' = inr p) -> page_cursor p = Some c ->
      forall fuel, get_board_items fuel (inr first) next = None).
Proof.
  split; [|split; [|split]].
  - intros H fuel. cbn [get_board_items]. rewrite (next_pages_serves _ _ _ _ _ H).
    reflexivity.
  - intros e H fuel. cbn [get_board_items].
    by rewrite (next_pages_serves_until _ _ _ _ _ _ H).
  - reflexivity.
  - intros c p Hc Hf Hn Hp fuel. cbn [get_board_items]. rewrite Hf.
    generalize (page_items first). induction fuel as [|fuel IH]; intros acc.
    + cbn [next_pages nonempty]. apply String.eqb_neq in Hc. by rewrite Hc.
    + cbn [next_pages nonempty default]. apply String.eqb_neq in Hc as Hc'.
      rewrite Hc'. cbn [negb]. rewrite Hn, Hp. apply IH.
Qed.

Lemma pagination_collects_witness :
  get_board_items 1 (inr (mk_page [mk_item "1" "first" []] (Some "c1"))) two_pages
  = Some (inr [mk_item "1" "first" []; mk_item "2" "second" []]).
Proof.
  apply (proj1 (pagination_collects (mk_page [mk_item "1" "first" []] (Some "c1"))
                                    two_pages
                                    [mk_page [mk_item "2" "second" []] None])).
  cbn [serves page_cursor]. split; [reflexivity|]. split; reflexivity.
Defined.

End Client.

(** ** Conversation histories and health *)

Section Sessions.
Import Main.

(** The two messages a turn adds to a history. *)
Definition exchange (turn : string * string) : list chat_message :=
  [HumanMessage turn.1; AIMessage turn.2].

(** The store after a sequence of turns of one conversation through
    [chat], each a message and the answer to it. *)
Definition converse (store : conversations) (conv_id : string)
                    (turns : list (string * string)) : conversations :=
  foldl (fun st turn => chat st conv_id turn.1 turn.2) store turns.

(** The same through [chat_stream]. *)
Definition converse_stream (store : conversations) (conv_id : string)
                           (turns : list (string * string)) : conversations :=
  foldl (fun st turn => chat_stream st conv_id turn.1 turn.2) store turns.

(** The answer streamed was not empty. *)
Definition answered (turn : string * string) : bool :=
  negb (String.eqb turn.2 "").

Definition history (store : conversations) (conv_id : string) : list chat_message :=
  default [] (store !! conv_id).

Lemma last_n_all {A} n (l : list A) : length l <= n -> last_n n l = l.
Proof. intros H. unfold last_n. by replace (length l - n) with 0 by lia. Qed.

Lemma last_n_app {A} n (l x : list A) :
  last_n n (last_n n l ++ x) = last_n n (l ++ x).
Proof.
  unfold last_n. rewrite !length_app, length_drop, !skipn_app, length_drop.
  rewrite drop_drop. f_equal; f_equal; lia.
Qed.

Lemma drop_exchanges k (turns : list (string * string)) :
  drop (2 * k) (concat (map exchange turns)) = concat (map exchange (drop k turns)).
Proof.
  revert turns. induction k as [|k IH]; intros turns; [reflexivity|].
  destruct turns as [|t turns]; [reflexivity|].
  replace (2 * S k) with (S (S (2 * k))) by lia. cbn [map concat exchange app drop].
  apply IH.
Qed.

Lemma length_exchanges (turns : list (string * string)) :
  length (concat (map exchange turns)) = 2 * length turns.
Proof. induction turns as [|t turns IH]; cbn [map concat length app exchange]; lia. Qed.

Lemma last_exchanges (turns : list (string * string)) :
  last_n 20 (concat (map exchange turns)) = concat (map exchange (last_n 10 turns)).
Proof.
  unfold last_n. rewrite length_exchanges, <- drop_exchanges. f_equal. lia.
Qed.

Lemma history_chat store conv_id message response_text :
  history (chat store conv_id message response_text) conv_id
  = last_n 20 (history store conv_id ++ exchange (message, response_text)).
Proof.
  unfold history, chat. rewrite lookup_insert_eq. cbn [default exchange fst snd].
  by rewrite <- app_assoc.
Qed.

Lemma history_converse store conv_id turns :
  history store conv_id = [] ->
  history (converse store conv_id turns) conv_id
  = last_n 20 (concat (map exchange turns)).
Proof.
  intros H0. unfold converse.
  induction turns as [|t turns IH] using rev_ind;
    [cbn [foldl]; by rewrite H0|].
  rewrite foldl_app. cbn [foldl]. rewrite history_chat, IH, last_n_app.
  rewrite map_app, concat_app. cbn [map concat]. rewrite app_nil_r.
  by destruct t.
Qed.

Lemma converse_stream_answered store conv_id turns :
  converse_stream store conv_id turns
  = converse store conv_id (List.filter answered turns).
Proof.
  unfold converse_stream, converse. revert store.
  induction turns as [|t turns IH]; intros store; [reflexivity|].
  cbn [foldl List.filter]. unfold chat_stream at 2, answered at 1.
  destruct (String.eqb t.2 ""); cbn [negb]; apply IH.
Qed.

(** X18. The history kept for a conversation is that of its last ten
    exchanges: after any number of turns of a new conversation through
    [chat] it holds, for each of the last ten turns and in order, the
    user's message followed by the answer, so it never exceeds 20
    messages and never starts with an answer.  Through [chat_stream] a
    turn whose streamed answer is empty leaves no trace, the user's
    message included.  The histories of the other conversations are
    not touched. *)
Theorem history_keeps_last_exchanges (store : conversations) (conv_id : string)
                                     (turns : list (string * string)) :
  store !! conv_id = None ->
  history (converse store conv_id turns) conv_id
  = concat (map exchange (last_n 10 turns))
  /\ history (converse_stream store conv_id turns) conv_id
     = concat (map exchange (last_n 10 (List.filter answered turns)))
  /\ length (history (converse store conv_id turns) conv_id)
     = 2 * Nat.min 10 (length turns)
  /\ (forall other, other <> conv_id ->
        converse store conv_id turns !! other = store !! other
        /\ converse_stream store conv_id turns !! other = store !! other).
Proof.
  intros Hnew.
  assert (H0 : history store conv_id = []) by (unfold history; by rewrite Hnew).
  assert (E : forall ts, history (converse store conv_id ts) conv_id
                         = concat (map exchange (last_n 10 ts))).
  { intros ts. by rewrite history_converse, last_exchanges. }
  assert (F : forall ts other, other <> conv_id ->
                converse store conv_id ts !! other = store !! other).
  { intros ts other Hne. unfold converse.
    induction ts as [|t ts IH] using rev_ind; [reflexivity|].
    rewrite foldl_app. cbn [foldl]. unfold chat at 1.
    by rewrite lookup_insert_ne. }
  split; [apply E|]. split; [by rewrite converse_stream_answered|]. split.
  - rewrite E, length_exchanges. unfold last_n. rewrite length_drop. lia.
  - intros other Hne. split; [by apply F|].
    rewrite converse_stream_answered. by apply F.
Qed.

Lemma history_keeps_last_exchanges_witness :
  history (converse_stream ∅ "c" [("hello", "hi"); ("again", "")]) "c"
  = [HumanMessage "hello"; AIMessage "hi"].
Proof.
  apply (proj1 (proj2 (history_keeps_last_exchanges
                         ∅ "c" [("hello", "hi"); ("again", "")]
                         (lookup_empty "c")))).
Defined.

(** X19. [health] reports "unhealthy" exactly when both boards are
    configured and neither is connected, "ok" exactly when no
    configured board is disconnected - in particular when no board is
    configured at all - and "degraded" in every other case; with a
    single board configured it never reports "unhealthy". *)
Theorem health_status (deals_status wo_status : option bool) :
  (health deals_status wo_status = "unhealthy"
   <-> deals_status = Some false /\ wo_status = Some false)
  /\ (health deals_status wo_status = "ok"
      <-> deals_status <> Some false /\ wo_status <> Some false)
  /\ (health deals_status wo_status = "degraded"
      <-> (deals_status = Some false /\ wo_status <> Some false)
          \/ (deals_status <> Some false /\ wo_status = Some false)).
Proof.
  destruct deals_status as [[|]|]; destruct wo_status as [[|]|]; cbn;
    (split; [|split]); split; intros H;
    first [ discriminate H
          | reflexivity
          | destruct H; congruence
          | destruct H as [H|H]; destruct H; congruence
          | split; congruence
          | left; split; congruence
          | right; split; congruence ].
Qed.

End Sessions.

(** ** Grouped win rates against the whole board *)

Section Groups.
Import PyNum DataCleaner Tools.

(** The sum of one count over the entries of a grouped result. *)
Definition total_of (count : win_rate_entry -> nat) (m : gmap value win_rate_entry)
  : nat :=
  map_fold (fun _ e acc => count e + acc) 0 m.

Lemma total_of_insert count (m : gmap value win_rate_entry) k e :
  m !! k = None -> total_of count (<[k := e]> m) = count e + total_of count m.
Proof.
  intros H. unfold total_of. rewrite map_fold_insert_L; [reflexivity| |exact H].
  intros. lia.
Qed.

Lemma total_of_replace count (m : gmap value win_rate_entry) k e0 e :
  m !! k = Some e0 ->
  total_of count (<[k := e]> m) + count e0 = count e + total_of count m.
Proof.
  intros H. rewrite <- (insert_delete_eq m).
  rewrite total_of_insert by apply lookup_delete_eq.
  rewrite <- (insert_delete_id m k e0 H) at 2.
  rewrite total_of_insert by apply lookup_delete_eq. lia.
Qed.

Lemma aggregate_win_rate_snoc group_by rs r :
  let col := deals_group_col group_by in
  aggregate_win_rate group_by (rs ++ [r])
  = <[group_key col r := win_rate_group (group_key col r)
                           (group_of col (group_key col r) rs ++ [r])]>
      (aggregate_win_rate group_by rs).
Proof.
  intros col. unfold aggregate_win_rate. fold col.
  rewrite group_records_snoc, map_imap_insert. cbv beta.
  rewrite group_records_full. by destruct (group_of col (group_key col r) rs).
Qed.

Lemma aggregate_win_rate_full group_by rs k :
  aggregate_win_rate group_by rs !! k
  = match group_of (deals_group_col group_by) k rs with
    | [] => None
    | v => Some (win_rate_group k v)
    end.
Proof.
  unfold aggregate_win_rate. rewrite map_lookup_imap, group_records_full.
  by destruct (group_of (deals_group_col group_by) k rs).
Qed.

Lemma count_status_app status a b :
  count_status status (a ++ b) = count_status status a + count_status status b.
Proof. unfold count_status, count_if. by rewrite List.filter_app, length_app. Qed.

Lemma total_of_groups (count : win_rate_entry -> nat) (f : list record -> nat)
                      group_by rs :
  (forall k v, count (win_rate_group k v) = f v) ->
  (forall a b, f (a ++ b) = f a + f b) -> f [] = 0 ->
  total_of count (aggregate_win_rate group_by rs) = f rs.
Proof.
  intros Hc Happ Hnil. induction rs as [|r rs IH] using rev_ind; [by rewrite Hnil|].
  rewrite aggregate_win_rate_snoc, Happ, <- IH. cbv zeta.
  set (col := deals_group_col group_by). set (k := group_key col r).
  pose proof (aggregate_win_rate_full group_by rs k) as L. fold col in L.
  destruct (group_of col k rs) as [|x old] eqn:G.
  - rewrite total_of_insert by exact L. rewrite Hc. cbn [app]. lia.
  - pose proof (total_of_replace count _ k _
                  (win_rate_group k ((x :: old) ++ [r])) L) as T.
    rewrite !Hc, Happ in T. lia.
Qed.

(** X20. Grouping loses no decided deal: for every grouping of
    [aggregate_metrics] with the metric "win_rate", the won, dead, open
    and on-hold counts of the groups add up to the counts of the whole
    board, and the won and dead totals are the counts
    [query_deals_board] reports for the same records. *)
Theorem grouped_counts_add_up (group_by : string) (cleaned : list record) :
  let entries := aggregate_win_rate group_by cleaned in
  let whole := query_deals_board_stats cleaned in
  total_of entry_won entries = status_count "Won" cleaned
  /\ total_of entry_dead entries = status_count "Dead" cleaned
  /\ total_of entry_open entries = status_count "Open" cleaned
  /\ total_of entry_on_hold entries = status_count "On Hold" cleaned
  /\ total_of entry_total_decided entries
     = status_count "Won" cleaned + status_count "Dead" cleaned
  /\ total_of entry_won entries = won_count whole
  /\ total_of entry_dead entries = dead_count whole.
Proof.
  intros entries whole.
  assert (G : forall count status,
             (forall k v, count (win_rate_group k v) = count_status status v) ->
             total_of count entries = status_count status cleaned).
  { intros count status Hc. unfold entries.
    rewrite (total_of_groups count (count_status status));
      [reflexivity|exact Hc|apply count_status_app|reflexivity]. }
  assert (W : total_of entry_won entries = status_count "Won" cleaned) by by apply G.
  assert (D : total_of entry_dead entries = status_count "Dead" cleaned) by by apply G.
  split; [exact W|]. split; [exact D|].
  split; [by apply G|]. split; [by apply G|]. split; [|split].
  - unfold entries.
    rewrite (total_of_groups entry_total_decided
               (fun v => count_status "Won" v + count_status "Dead" v));
      [reflexivity|reflexivity| |reflexivity].
    intros a b. rewrite !count_status_app. lia.
  - rewrite W. unfold whole, query_deals_board_stats. cbn [won_count].
    by rewrite breakdown_status.
  - rewrite D. unfold whole, query_deals_board_stats. cbn [dead_count].
    by rewrite breakdown_status.
Qed.

End Groups.

(** ** Cleaning what was cleaned *)

Section Idempotence.
Import PyStr PyNum StrpTime DataCleaner.

Definition no_space (c : ascii) : bool := negb (is_space c).

(** The fields [strptime] binds from an ISO date. *)
Definition date_only (dt : fields) : fields :=
  mk_fields (year dt) (month dt) (day dt) 0 0 0 0.

(** The [datetime] that the loop over [formats] obtains: that of the
    first format that parses. *)
Fixpoint first_parsed (fmts : list string) (s : string) : option fields :=
  match fmts with
  | [] => None
  | fmt :: fmts' =>
      match strptime s fmt with
      | Some dt => Some dt
      | None => first_parsed fmts' s
      end
  end.

(** The [datetime] that [_parse_date] writes out, if it gets to one. *)
Definition parsed_date (value : string) : option fields :=
  if String.eqb value "" then None
  else if any_alpha value && negb (startswith "20" value) then None
  else first_parsed formats (strip value).

(** No date of the record is read as one of a year before 1000. *)
Definition modern (r : record) : bool :=
  forallb (fun f => match get r f with
                    | VStr v =>
                        match parsed_date v with
                        | Some dt => (1000 <=? year dt)%Z
                        | None => true
                        end
                    | _ => true
                    end) date_fields.

Definition february_deal : record :=
  {[ "Masked Deal value" := VStr "1,200"; "Close Date (A)" := VStr "01/02/2024";
     "Deal Status" := VStr " Won " ]}.

Lemma is_digit_no_space c : is_digit c = true -> is_space c = false.
Proof.
  intros H.
  pose proof (for_all_ascii (fun c => implb (is_digit c) (negb (is_space c)))
                            ltac:(vm_compute; reflexivity) c) as A.
  cbv beta in A. rewrite H in A. by apply negb_true_iff.
Qed.

Lemma digit_char_digit n :
  is_digit (digit_char n) = true /\ digit_val (digit_char n) = (n mod 10)%Z.
Proof.
  assert (B : (0 <= n mod 10 < 10)%Z) by (apply Z.mod_pos_bound; lia).
  assert (E : digit_char n = digit_char (n mod 10)).
  { unfold digit_char. by rewrite Z.mod_mod. }
  pose proof (code_digit_char (n mod 10) B) as C. rewrite <- E in C.
  unfold is_digit, in_range, digit_val. split; [|lia].
  apply andb_true_iff. split; apply N.leb_le; lia.
Qed.

Lemma lstrip_clean s : all_chars no_space s = true -> lstrip s = s.
Proof.
  destruct s as [|c s]; cbn [all_chars lstrip]; [reflexivity|].
  intros [Hc _]%andb_true_iff. apply negb_true_iff in Hc. by rewrite Hc.
Qed.

Lemma rstrip_clean s : all_chars no_space s = true -> rstrip s = s.
Proof.
  induction s as [|c s IH]; cbn [all_chars rstrip]; [reflexivity|].
  intros [Hc Hs]%andb_true_iff. rewrite (IH Hs).
  apply negb_true_iff in Hc. rewrite Hc. by destruct s.
Qed.

Lemma pad2_clean n :
  all_chars no_space (pad2 n) = true /\ any_alpha (pad2 n) = false.
Proof.
  unfold pad2. cbn [all_chars any_alpha]. unfold no_space.
  destruct (digit_char_digit (n / 10)) as [D1 _].
  destruct (digit_char_digit n) as [D2 _].
  rewrite (is_digit_no_space _ D1), (is_digit_no_space _ D2).
  by rewrite (is_digit_not_alpha _ D1), (is_digit_not_alpha _ D2).
Qed.

Lemma iso_clean dt :
  (1000 <= year dt)%Z ->
  all_chars no_space (strftime_iso dt) = true
  /\ any_alpha (strftime_iso dt) = false
  /\ strftime_iso dt <> "".
Proof.
  intros Hy. rewrite strftime_iso_padded by exact Hy. unfold pad4.
  split; [|split].
  - rewrite !all_chars_app.
    rewrite (proj1 (pad2_clean (year dt / 100))), (proj1 (pad2_clean (year dt mod 100))),
            (proj1 (pad2_clean (month dt))), (proj1 (pad2_clean (day dt))).
    reflexivity.
  - rewrite !any_alpha_app.
    rewrite (proj2 (pad2_clean (year dt / 100))), (proj2 (pad2_clean (year dt mod 100))),
            (proj2 (pad2_clean (month dt))), (proj2 (pad2_clean (day dt))).
    reflexivity.
  - discriminate.
Qed.

Lemma classes_digit cs acc c s :
  is_digit c = true ->
  classes (d09 :: cs) acc (String c s) = classes cs (acc * 10 + digit_val c)%Z s.
Proof. intros H. cbn [classes]. unfold d09. by rewrite H. Qed.

Lemma alts_year y rest :
  (0 <= y <= 9999)%Z -> alts IYear (pad4 y +:+ rest) = [(y, rest)].
Proof.
  intros Hy.
  change (pad4 y +:+ rest)
    with (String (digit_char (y / 100 / 10))
            (String (digit_char (y / 100))
               (String (digit_char (y mod 100 / 10))
                  (String (digit_char (y mod 100)) rest)))).
  unfold alts, alt.
  destruct (digit_char_digit (y / 100 / 10)) as [D1 V1].
  destruct (digit_char_digit (y / 100)) as [D2 V2].
  destruct (digit_char_digit (y mod 100 / 10)) as [D3 V3].
  destruct (digit_char_digit (y mod 100)) as [D4 V4].
  rewrite !classes_digit by assumption. cbn [classes].
  rewrite V1, V2, V3, V4. do 2 f_equal. Z.div_mod_to_equations. lia.
Qed.

Lemma rmatch_month_day m d acc :
  (1 <= m <= 12)%Z -> (1 <= d <= 31)%Z ->
  rmatch [ILit "-"; IMonth; ILit "-"; IDay]
         (String "-" (pad2 m +:+ String "-" (pad2 d))) acc
  = Some (set_field IDay d (set_field IMonth m acc), "").
Proof.
  intros Hm Hd.
  assert (Hm' : In m (map Z.of_nat (seq 1 12))).
  { apply in_map_iff. exists (Z.to_nat m). split; [lia|apply in_seq; lia]. }
  assert (Hd' : In d (map Z.of_nat (seq 1 31))).
  { apply in_map_iff. exists (Z.to_nat d). split; [lia|apply in_seq; lia]. }
  clear Hm Hd. cbv in Hm', Hd'.
  repeat (destruct Hm' as [<-|Hm']); try (destruct Hm');
    repeat (destruct Hd' as [<-|Hd']); try (destruct Hd'); reflexivity.
Qed.

Lemma rmatch_cons it its s acc :
  rmatch (it :: its) s acc
  = first_some (fun a : Z * string => rmatch its a.2 (set_field it a.1 acc))
               (alts it s).
Proof. reflexivity. Qed.

Lemma strptime_iso dt :
  valid dt = true -> (1000 <= year dt)%Z ->
  strptime (strftime_iso dt) "%Y-%m-%d" = Some (date_only dt).
Proof.
  intros Hv Hy. rewrite strftime_iso_padded by exact Hy.
  pose proof Hv as Hv'. unfold valid in Hv'.
  rewrite !andb_true_iff, !Z.leb_le in Hv'.
  pose proof (days_in_month_le (year dt) (month dt)).
  unfold strptime.
  change (compile "%Y-%m-%d") with (Some [IYear; ILit "-"; IMonth; ILit "-"; IDay]).
  cbn [mbind option_bind].
  change (pad4 (year dt) +:+ "-" +:+ pad2 (month dt) +:+ "-" +:+ pad2 (day dt))
    with (pad4 (year dt)
          +:+ String "-" (pad2 (month dt) +:+ String "-" (pad2 (day dt)))).
  rewrite rmatch_cons, alts_year by lia. cbn [first_some fst snd].
  rewrite rmatch_month_day by lia.
  replace (valid (set_field IDay (day dt)
                    (set_field IMonth (month dt)
                       (set_field IYear (year dt) initial)))) with true; [reflexivity|].
  symmetry. unfold valid. cbn [set_field initial year month day hour minute second].
  rewrite !andb_true_iff, !Z.leb_le. lia.
Qed.

Lemma parse_date_iso dt :
  valid dt = true -> (1000 <= year dt)%Z ->
  _parse_date (strftime_iso dt) = Some (strftime_iso dt).
Proof.
  intros Hv Hy. destruct (iso_clean dt Hy) as (Hs & Ha & Hne).
  unfold _parse_date. apply String.eqb_neq in Hne. rewrite Hne, Ha. cbn [andb].
  unfold strip. rewrite lstrip_clean, rstrip_clean by exact Hs.
  unfold formats. cbn [try_formats]. by rewrite strptime_iso.
Qed.

Lemma try_formats_parsed fmts s :
  try_formats fmts s = strftime_iso <$> first_parsed fmts s.
Proof.
  induction fmts as [|fmt fmts IH]; cbn [try_formats first_parsed]; [reflexivity|].
  by destruct (strptime s fmt).
Qed.

Lemma first_parsed_valid fmts s dt : first_parsed fmts s = Some dt -> valid dt = true.
Proof.
  induction fmts as [|fmt fmts IH]; cbn [first_parsed]; [discriminate|].
  destruct (strptime s fmt) as [dt'|] eqn:E; [|exact IH].
  intros [= <-]. by apply strptime_valid in E.
Qed.

(** [_parse_date] writes out the date it parsed. *)
Lemma parse_date_parsed v : _parse_date v = strftime_iso <$> parsed_date v.
Proof.
  unfold _parse_date, parsed_date. destruct (String.eqb v ""); [reflexivity|].
  destruct (any_alpha v && negb (startswith "20" v)); [reflexivity|].
  apply try_formats_parsed.
Qed.

Lemma parsed_date_valid v dt : parsed_date v = Some dt -> valid dt = true.
Proof.
  unfold parsed_date. destruct (String.eqb v ""); [discriminate|].
  destruct (any_alpha v && negb (startswith "20" v)); [discriminate|].
  apply first_parsed_valid.
Qed.

(** X21. Dates survive a second cleaning: when [_parse_date] has parsed
    a date of the year 1000 or later, the text it writes for it is read
    back by the first format as the same day, so [_parse_date] maps that
    text to itself.  (An earlier year is written in fewer than four
    digits, which no format reads back.) *)
Theorem iso_date_round_trip (v : string) (dt : fields) :
  parsed_date v = Some dt -> (1000 <= year dt)%Z ->
  _parse_date v = Some (strftime_iso dt)
  /\ _parse_date (strftime_iso dt) = Some (strftime_iso dt)
  /\ valid dt = true
  /\ strptime (strftime_iso dt) "%Y-%m-%d" = Some (date_only dt).
Proof.
  intros H Hy. pose proof (parsed_date_valid v dt H) as Hv.
  split; [by rewrite parse_date_parsed, H|].
  split; [by apply parse_date_iso|]. split; [exact Hv|by apply strptime_iso].
Qed.

Lemma iso_date_round_trip_witness :
  _parse_date "01/02/2024" = Some "2024-02-01"
  /\ _parse_date "2024-02-01" = Some "2024-02-01".
Proof.
  destruct (iso_date_round_trip "01/02/2024" (mk_fields 2024 2 1 0 0 0 0))
    as (A & B & _); [vm_compute; reflexivity|simpl; lia|].
  split; [exact A|exact B].
Defined.

(** A value on which a parsing step changes nothing. *)
Definition settled (parse : string -> value) (v : value) : Prop :=
  forall s, v = VStr s -> s <> "" -> parse s = VStr s.

(** A value on which the numeric coercion changes nothing. *)
Definition money_settled (v : value) : Prop :=
  forall s, v = VStr s -> s = "".

(** Parsing what was parsed gives it back. *)
Definition stable (parse : string -> value) : Prop :=
  forall s, s <> "" -> settled parse (parse s).

Lemma get_lookup (r : record) k v : get r k = v -> v <> VNone -> r !! k = Some v.
Proof. unfold get. destruct (r !! k); simpl; congruence. Qed.

Lemma number_step_id r k : money_settled (get r k) -> number_step r k = r.
Proof.
  intros H. unfold number_step. destruct (get r k) as [|s|x] eqn:E.
  - reflexivity.
  - rewrite (H s eq_refl). reflexivity.
  - destruct (truthy (VNum x)); [|reflexivity]. cbn [_parse_number float_value].
    apply insert_id. by apply get_lookup.
Qed.

Lemma string_step_id parse r k : settled parse (get r k) -> string_step parse r k = r.
Proof.
  intros H. unfold string_step. destruct (get r k) as [|s|x] eqn:E; try reflexivity.
  destruct (truthy (VStr s)) eqn:T; [|reflexivity].
  assert (Hne : s <> "").
  { simpl in T. apply negb_true_iff in T. by apply String.eqb_neq. }
  rewrite (H s eq_refl Hne). apply insert_id. by apply get_lookup.
Qed.

Lemma number_step_settles r k : money_settled (get (number_step r k) k).
Proof. rewrite get_number_step_eq. intros s. apply cleaned_money_shape. Qed.

(** A step settles its field when parsing the text found there gives a
    settled value. *)
Lemma string_step_settles_text parse r k :
  (forall s, get r k = VStr s -> s <> "" -> settled parse (parse s)) ->
  settled parse (get (string_step parse r k) k).
Proof.
  intros Hp. unfold string_step. destruct (get r k) as [|s|x] eqn:E.
  - rewrite E. intros s. discriminate.
  - destruct (truthy (VStr s)) eqn:T.
    + rewrite get_insert_eq. apply Hp; [reflexivity|].
      simpl in T. apply negb_true_iff in T. by apply String.eqb_neq.
    + rewrite E. intros s' [= <-] Hne. simpl in T.
      apply negb_false_iff, String.eqb_eq in T. contradiction.
  - rewrite E. intros s. discriminate.
Qed.

Lemma string_step_settles parse r k :
  stable parse -> settled parse (get (string_step parse r k) k).
Proof.
  intros Hp. apply string_step_settles_text. intros s _ Hs. by apply Hp.
Qed.

Lemma stable_strip : stable (fun s => VStr (strip s)).
Proof. intros s _ s' [= <-] _. by rewrite strip_strip. Qed.

(** The date written for a text read as a year from 1000 on is settled. *)
Lemma date_settled s :
  (forall dt, parsed_date s = Some dt -> (1000 <= year dt)%Z) ->
  settled (fun s => str_value (_parse_date s)) (str_value (_parse_date s)).
Proof.
  intros Hy s' H _. rewrite parse_date_parsed in H.
  destruct (parsed_date s) as [dt|] eqn:E; [|discriminate].
  injection H as <-.
  rewrite parse_date_iso; [reflexivity|by eapply parsed_date_valid|by apply Hy].
Qed.

Lemma modern_field r f s dt :
  modern r = true -> f ∈ date_fields -> get r f = VStr s ->
  parsed_date s = Some dt -> (1000 <= year dt)%Z.
Proof.
  unfold modern. rewrite forallb_forall. intros H Hf Hs Hd.
  specialize (H f (proj1 (list_elem_of_In _ _) Hf)). cbv beta in H.
  rewrite Hs, Hd in H. by apply Z.leb_le.
Qed.

Lemma stable_quantity : stable (fun s => float_value (_parse_quantity s)).
Proof. intros s _ s' H. by destruct (_parse_quantity s). Qed.

Lemma foldl_step_id {A} (step : record -> A -> record) r (fields : list A) :
  (forall f, f ∈ fields -> step r f = r) -> foldl step r fields = r.
Proof.
  induction fields as [|f fields IH]; intros H; [reflexivity|]. cbn [foldl].
  rewrite (H f) by (by left). apply IH. intros g Hg. apply H. by right.
Qed.

(** After a fold of steps over fields without repetition, every field
    of the list is settled. *)
Lemma foldl_string_step_settles_text parse (fields : list string) r f :
  NoDup fields -> f ∈ fields ->
  (forall s, get r f = VStr s -> s <> "" -> settled parse (parse s)) ->
  settled parse (get (foldl (string_step parse) r fields) f).
Proof.
  intros Hnd. revert r. induction Hnd as [|g fields Hg Hnd IH]; intros r Hf Hp.
  - by apply elem_of_nil in Hf.
  - cbn [foldl]. destruct (decide (f = g)) as [->|Hne].
    + rewrite foldl_string_step_other by exact Hg. by apply string_step_settles_text.
    + apply IH.
      * apply elem_of_cons in Hf as [?|?]; [contradiction|assumption].
      * intros s. rewrite get_string_step_ne by congruence. apply Hp.
Qed.

Lemma foldl_string_step_settles parse (fields : list string) r f :
  stable parse -> NoDup fields -> f ∈ fields ->
  settled parse (get (foldl (string_step parse) r fields) f).
Proof.
  intros Hp Hnd Hf. apply foldl_string_step_settles_text; [exact Hnd|exact Hf|].
  intros s _ Hs. by apply Hp.
Qed.

Lemma clean_deal_record_settled r :
  modern r = true ->
  let r' := clean_deal_record r in
  money_settled (get r' "Masked Deal value")
  /\ (forall f, f ∈ date_fields -> settled (fun s => str_value (_parse_date s)) (get r' f))
  /\ (forall f, f ∈ text_fields -> settled (fun s => VStr (strip s)) (get r' f)).
Proof.
  intros Hm r'. split; [|split].
  - unfold r'. rewrite clean_deal_record_money. intros s. apply cleaned_money_shape.
  - intros f Hf. unfold r', clean_deal_record. cbv zeta.
    assert (N : "Sector/service" <> f /\ "Deal Stage" <> f /\ "Deal Status" <> f
                /\ "Owner code" <> f).
    { unfold date_fields in Hf.
      repeat (apply elem_of_cons in Hf as [->|Hf]); try (by inversion Hf);
        repeat split; discriminate. }
    destruct N as (N1 & N2 & N3 & N4).
    rewrite !get_strip_step_ne by assumption. unfold date_step.
    apply foldl_string_step_settles_text; [|exact Hf|].
    + apply (bool_decide_eq_true_1 (NoDup date_fields)). vm_compute. reflexivity.
    + intros s Hs _. apply date_settled. intros dt Hd.
      apply (modern_field r f s dt Hm Hf); [|exact Hd].
      rewrite <- Hs. symmetry. apply get_number_step_ne.
      unfold date_fields in Hf.
      repeat (apply elem_of_cons in Hf as [->|Hf]); try (by inversion Hf);
        discriminate.
  - intros f Hf. unfold r'. rewrite (clean_deal_record_text r f Hf).
    destruct (get r f) as [|s|x]; intros s'; try discriminate.
    intros [= <-] _. by rewrite strip_strip.
Qed.

Lemma clean_deal_record_idempotent r :
  modern r = true ->
  clean_deal_record (clean_deal_record r) = clean_deal_record r.
Proof.
  intros Hm. destruct (clean_deal_record_settled r Hm) as (M & D & T).
  remember (clean_deal_record r) as r' eqn:E. clear E.
  unfold clean_deal_record. cbv zeta.
  rewrite (number_step_id r') by exact M.
  rewrite (foldl_step_id date_step r' date_fields).
  2: { intros f Hf. apply string_step_id. by apply D. }
  unfold strip_step.
  assert (S : forall f, f ∈ text_fields ->
                        string_step (fun s => VStr (strip s)) r' f = r').
  { intros f Hf. apply string_step_id. by apply T. }
  rewrite (S "Sector/service"), (S "Deal Stage"), (S "Deal Status"), (S "Owner code");
    [reflexivity|..];
    apply (bool_decide_eq_true_1 (_ ∈ _)); vm_compute; reflexivity.
Qed.

Lemma clean_wo_record_settled r :
  let r' := clean_wo_record r in
  is_typo r' = false
  /\ (forall f, f ∈ quantity_fields ->
        settled (fun s => float_value (_parse_quantity s)) (get r' f))
  /\ (forall f, f ∈ financial_fields -> money_settled (get r' f))
  /\ settled (fun s => VStr (strip s)) (get r' "Execution Status")
  /\ settled (fun s => VStr (strip s)) (get r' "Sector").
Proof.
  intros r'. split; [|split; [|split; [|split]]].
  - rewrite is_typo_misspelt. unfold misspelt, r'. rewrite clean_wo_record_billing.
    destruct (misspelt r) eqn:Em; [by apply bool_decide_eq_false_2|].
    unfold misspelt in Em. exact Em.
  - intros f Hf. unfold r', clean_wo_record. cbv zeta.
    assert (N : "Sector" <> f /\ "Execution Status" <> f /\ f ∉ financial_fields).
    { unfold quantity_fields in Hf.
      repeat (apply elem_of_cons in Hf as [->|Hf]); try (by inversion Hf);
        (split; [discriminate|split; [discriminate|]]);
        apply (bool_decide_eq_true_1 (_ ∉ _)); vm_compute; reflexivity. }
    destruct N as (N1 & N2 & N3).
    rewrite !get_strip_step_ne by assumption.
    rewrite foldl_number_step_other by exact N3. unfold quantity_step.
    apply foldl_string_step_settles; [apply stable_quantity| |exact Hf].
    apply (bool_decide_eq_true_1 (NoDup quantity_fields)). vm_compute. reflexivity.
  - intros f Hf. unfold r'. rewrite (clean_wo_record_money r f Hf).
    intros s. apply cleaned_money_shape.
  - unfold r', clean_wo_record. cbv zeta.
    rewrite get_strip_step_ne by discriminate. apply string_step_settles, stable_strip.
  - unfold r', clean_wo_record. cbv zeta. apply string_step_settles, stable_strip.
Qed.

Lemma clean_wo_record_idempotent r :
  clean_wo_record (clean_wo_record r) = clean_wo_record r.
Proof.
  destruct (clean_wo_record_settled r) as (Ty & Q & M & E1 & E2).
  remember (clean_wo_record r) as r' eqn:E. clear E.
  unfold clean_wo_record. cbv zeta. rewrite Ty.
  rewrite (foldl_step_id quantity_step r' quantity_fields).
  2: { intros f Hf. apply string_step_id. by apply Q. }
  rewrite (foldl_step_id number_step r' financial_fields).
  2: { intros f Hf. apply number_step_id. by apply M. }
  unfold strip_step.
  rewrite (string_step_id _ r' "Execution Status") by exact E1.
  by rewrite (string_step_id _ r' "Sector") by exact E2.
Qed.

Lemma filter_all_in {A} (p : A -> bool) l :
  (forall x, x ∈ l -> p x = true) -> List.filter p l = l.
Proof.
  induction l as [|x l IH]; intros H; [reflexivity|]. cbn [List.filter].
  rewrite (H x) by (by left). f_equal. apply IH. intros y Hy. apply H. by right.
Qed.

Lemma map_id_on {A} (f : A -> A) l : (forall x, x ∈ l -> f x = x) -> map f l = l.
Proof.
  induction l as [|x l IH]; intros H; [reflexivity|]. cbn [map].
  rewrite (H x) by (by left). f_equal. apply IH. intros y Hy. apply H. by right.
Qed.

(** X22. Cleaning is idempotent on both boards: cleaning the records
    that [clean_deals] or [clean_workorders] returned gives the same
    records and the same caveats again, with nothing left to log.
    Stated for deals whose dates are of the year 1000 or later, which
    [strftime] writes in four digits; the text written for an earlier
    year is not read back as a date. *)
Theorem cleaning_is_idempotent (deals wos : list record) :
  forallb modern deals = true ->
  let d := clean_deals deals in
  let w := clean_workorders wos in
  clean_deals (cleaned d) = mk_cleaning (cleaned d) (caveats d) []
  /\ clean_workorders (cleaned w) = mk_cleaning (cleaned w) (caveats w) []
  /\ Forall (fun r => clean_deal_record r = r) (cleaned d)
  /\ Forall (fun r => clean_wo_record r = r) (cleaned w).
Proof.
  intros Hm d w.
  assert (Md : forall r, In r deals -> modern r = true).
  { by apply forallb_forall. }
  assert (P : forall c : cleaning,
             c = mk_cleaning (cleaned c) (caveats c) (cleaning_log c)) by (by intros []).
  assert (Cd : forall l, caveats (clean_deals l) = _generate_deals_caveats (cleaned (clean_deals l))).
  { intros l. unfold clean_deals. by destruct (foldl deals_step ([], 0) l). }
  assert (Cw : forall l, caveats (clean_workorders l)
                         = _generate_wo_caveats (cleaned (clean_workorders l))).
  { intros l. unfold clean_workorders. by destruct (foldl wo_step ([], 0) l). }
  assert (Ld : forall l, Forall (fun x => _is_header_row x = false) l ->
                         cleaning_log (clean_deals l) = []).
  { intros l Hl. unfold clean_deals. pose proof (deals_foldl_count l [] 0) as H.
    destruct (foldl deals_step ([], 0) l) as [cl n]. cbn [snd] in H. subst n.
    cbn [cleaning_log]. replace (count_if _is_header_row l) with 0; [reflexivity|].
    unfold count_if. induction Hl as [|x l Hx _ IH]; cbn [List.filter]; [reflexivity|].
    by rewrite Hx. }
  assert (Lw : forall l, Forall (fun x => misspelt x = false) l ->
                         cleaning_log (clean_workorders l) = []).
  { intros l Hl. unfold clean_workorders. pose proof (wo_foldl_count l [] 0) as H.
    destruct (foldl wo_step ([], 0) l) as [cl n]. cbn [snd] in H. subst n.
    cbn [cleaning_log]. replace (count_if misspelt l) with 0; [reflexivity|].
    unfold count_if. induction Hl as [|x l Hx _ IH]; cbn [List.filter]; [reflexivity|].
    by rewrite Hx. }
  assert (Hd : Forall (fun x => _is_header_row x = false) (cleaned d)).
  { unfold d. rewrite clean_deals_cleaned. apply List.Forall_forall.
    intros x [r [<- Hr]]%in_map_iff. apply filter_In in Hr as [_ Hr].
    rewrite is_header_row_cleaned. by apply negb_true_iff. }
  assert (Hw : Forall (fun x => misspelt x = false) (cleaned w)).
  { unfold w. rewrite clean_workorders_cleaned. apply List.Forall_forall.
    intros x [r [<- _]]%in_map_iff. rewrite <- is_typo_misspelt.
    apply clean_wo_record_settled. }
  assert (Ed : cleaned (clean_deals (cleaned d)) = cleaned d).
  { rewrite (clean_deals_cleaned (cleaned d)).
    rewrite (filter_all_in _ (cleaned d)).
    - unfold d. rewrite clean_deals_cleaned. apply map_id_on.
      intros x [r [-> Hr]]%list_elem_of_fmap. apply clean_deal_record_idempotent.
      apply Md. apply list_elem_of_In in Hr. by apply filter_In in Hr as [Hr _].
    - rewrite List.Forall_forall in Hd. intros x Hx.
      apply negb_true_iff, Hd. by apply list_elem_of_In. }
  assert (Ew : cleaned (clean_workorders (cleaned w)) = cleaned w).
  { rewrite (clean_workorders_cleaned (cleaned w)).
    unfold w. rewrite clean_workorders_cleaned. apply map_id_on.
    intros x [r [-> _]]%list_elem_of_fmap. apply clean_wo_record_idempotent. }
  split; [|split; [|split]].
  - rewrite (P (clean_deals (cleaned d))).
    rewrite (Cd (cleaned d)), Ed, (Ld _ Hd). unfold d. by rewrite (Cd deals).
  - rewrite (P (clean_workorders (cleaned w))).
    rewrite (Cw (cleaned w)), Ew, (Lw _ Hw). unfold w. by rewrite (Cw wos).
  - unfold d. rewrite clean_deals_cleaned. apply List.Forall_forall.
    intros x [r [<- Hr]]%in_map_iff. apply clean_deal_record_idempotent.
    apply Md. by apply filter_In in Hr as [Hr _].
  - unfold w. rewrite clean_workorders_cleaned. apply List.Forall_forall.
    intros x [r [<- _]]%in_map_iff. apply clean_wo_record_idempotent.
Qed.

Lemma cleaning_is_idempotent_witness :
  let d := clean_deals [february_deal] in
  clean_deals (cleaned d) = mk_cleaning (cleaned d) (caveats d) []
  /\ Forall (fun r => get r "Close Date (A)" = VStr "2024-02-01"
                      /\ clean_deal_record r = r) (cleaned d).
Proof.
  intros d.
  destruct (cleaning_is_idempotent [february_deal] [] eq_refl) as (H1 & _ & H3 & _).
  split; [exact H1|]. fold d in H3.
  assert (G : Forall (fun r => get r "Close Date (A)" = VStr "2024-02-01") (cleaned d)).
  { unfold d. rewrite clean_deals_cleaned. repeat constructor. }
  rewrite List.Forall_forall in G, H3. apply List.Forall_forall.
  intros r Hr. split; [by apply G|by apply H3].
Defined.

End Idempotence.
